(** * XCVM op kernels (runtime/xcvm_ops.cc): a shallow embedding

    The kernels of the register VM are embedded as functions over a model
    of the array engine.  Layout of the development:

    - [result]: a run either produces a value or aborts ([CHECK_*] failure,
      engine error);
    - machine integers: the narrowing to [int] and the conversion to
      [size_t] are written out, the 64-bit quantities are kept in [Z];
    - [chainerx]: the contract of the array engine calls the kernels make
      (shape, row-major element order, views);
    - [xchainer]: helpers of the runtime that the kernels call;
    - [xcvm]: the state of a run (program counter, register file);
    - [ops]: the kernels themselves, line by line from xcvm_ops.cc;
    - [dispatcher]: instructions and the interpreter loop;
    - facts about all of the above. *)

From Stdlib Require Import ZArith QArith Qminmax Qround Qabs Lia Lqa Sorted.
From stdpp Require Import base option list list_numbers gmap strings.

Local Close Scope Q_scope.
Local Open Scope Z_scope.

(** ** Outcome of a run *)

(** A failed [CHECK_*] (and an error raised by the array engine) aborts the
    whole run; there is no partial result. *)
Inductive result (A : Type) : Type :=
| Ok (a : A)
| Fatal (msg : string).
Arguments Ok {A} a.
Arguments Fatal {A} msg.

#[global] Instance result_ret : MRet result := fun _ a => Ok a.
#[global] Instance result_bind : MBind result := fun _ _ f m =>
  match m with
  | Ok a => f a
  | Fatal msg => Fatal msg
  end.
#[global] Instance result_fmap : FMap result := fun _ _ f m =>
  match m with
  | Ok a => Ok (f a)
  | Fatal msg => Fatal msg
  end.

Definition is_Fatal {A} (r : result A) : Prop :=
  match r with Fatal _ => True | Ok _ => False end.

Definition is_Ok {A} (r : result A) : Prop :=
  match r with Ok _ => True | Fatal _ => False end.

(** [CHECK(c) << msg]: continue when [c] holds, abort otherwise. *)
Definition CHECK (c : bool) (msg : string) : result unit :=
  if c then Ok tt else Fatal msg.

(** Monadic iteration over a list, left to right. *)
Fixpoint foldM {A B} (f : B -> A -> result B) (b : B) (l : list A) : result B :=
  match l with
  | [] => Ok b
  | a :: l => b' ← f b a; foldM f b' l
  end.

Fixpoint mapM_result {A B} (f : A -> result B) (l : list A) : result (list B) :=
  match l with
  | [] => Ok []
  | a :: l => b ← f a; bs ← mapM_result f l; Ok (b :: bs)
  end.

(** ** Machine integers *)

(** [int] is 32 bits wide.  Storing a wider value into an [int] keeps the
    low 32 bits, read as a two's complement number. *)
Definition to_int (z : Z) : Z := (z + 2 ^ 31) mod 2 ^ 32 - 2 ^ 31.

(** Conversion of a signed value to [size_t] (64 bits, unsigned), as done by
    the usual arithmetic conversions when an [int] meets a [size()]. *)
Definition to_size_t (z : Z) : Z := z mod 2 ^ 64.

Definition fits_int (z : Z) : Prop := - 2 ^ 31 <= z < 2 ^ 31.

(** Product of a list of dimensions, accumulated in an [int] as the loops of
    ReshapeOp and GemmOp do. *)
Definition int_product (acc : Z) (ds : list Z) : Z :=
  foldl (fun acc d => to_int (acc * d)) acc ds.

(** [int8_t], the type of the entries of [chainerx::Axes]: the low 8 bits,
    read as a two's complement number. *)
Definition to_int8 (z : Z) : Z := (z + 2 ^ 7) mod 2 ^ 8 - 2 ^ 7.

(** ** The array engine *)

(** The engine (chainerx) is external to the runtime.  Only the calls the
    kernels make are modelled, each by its contract: an array is a dtype, a
    shape and the elements in row-major order.  An element is a rational
    number: every finite value of the integer and floating dtypes is one,
    NaN and the infinities are none.  The engine is typed: a scalar is
    converted to the dtype of the array it meets, a conversion to an
    integer dtype drops the fraction and wraps around, and so does
    negation.  Sums and products of arrays are the exact ones: they are
    what the engine returns as long as it neither rounds nor wraps around,
    and the facts on the elements of such results say when that is.
    Devices are left out. *)
Module chainerx.

Inductive Dtype : Type :=
| kBool | kInt8 | kInt16 | kInt32 | kInt64 | kUInt8 | kFloat32 | kFloat64.

#[global] Instance Dtype_eq_dec : EqDecision Dtype.
Proof. solve_decision. Defined.

Record Array : Type := MakeArray {
  dtype : Dtype;
  shape : list Z;
  data : list Q;
}.

(** [Shape::GetTotalSize]: the product of the dimensions. *)
Definition GetTotalSize (s : list Z) : Z := foldr Z.mul 1 s.

Definition ndim (a : Array) : nat := length (shape a).

(** Well-formed arrays: no negative dimension, and as many elements as the
    shape says. *)
Definition wf (a : Array) : Prop :=
  Forall (Z.le 0) (shape a) ∧ length (data a) = Z.to_nat (GetTotalSize (shape a)).

(** *** Row-major addressing *)

(** Offset of the element at multi-index [idx] in an array of shape [s]. *)
Fixpoint lin (s idx : list Z) : Z :=
  match s, idx with
  | _ :: ds, i :: idx' => i * GetTotalSize ds + lin ds idx'
  | _, _ => 0
  end.

(** All multi-indices of a shape, in row-major order. *)
Fixpoint all_indices (s : list Z) : list (list Z) :=
  match s with
  | [] => [[]]
  | d :: ds => i ← seqZ 0 d; cons i <$> all_indices ds
  end.

Definition in_range (s idx : list Z) : Prop :=
  Forall2 (fun d i => 0 <= i < d) s idx.

Definition elem (l : list Q) (p : Z) : Q := default 0%Q (l !! Z.to_nat p).

(** Element at a multi-index, if there is one. *)
Definition get (a : Array) (idx : list Z) : option Q :=
  data a !! Z.to_nat (lin (shape a) idx).

(** *** Conversion between dtypes *)

(** Conversion of a value to an integer: the fraction is dropped. *)
Definition Qtrunc (x : Q) : Z := Z.quot (Qnum x) (Zpos (Qden x)).

(** Least value and number of values of an integer dtype. *)
Definition int_range (dt : Dtype) : option (Z * Z) :=
  match dt with
  | kInt8 => Some (- 2 ^ 7, 2 ^ 8)
  | kInt16 => Some (- 2 ^ 15, 2 ^ 16)
  | kInt32 => Some (- 2 ^ 31, 2 ^ 32)
  | kInt64 => Some (- 2 ^ 63, 2 ^ 64)
  | kUInt8 => Some (0, 2 ^ 8)
  | kBool | kFloat32 | kFloat64 => None
  end.

(** Conversion of one element to dtype [dt].  An integer that does not fit
    the target is reduced modulo its width; for a floating value outside
    the range of the target C++ leaves the result open, and the properties
    below keep away from it. *)
Definition cast (dt : Dtype) (x : Q) : Q :=
  match int_range dt with
  | Some (lo, width) => inject_Z ((Qtrunc x - lo) mod width + lo)
  | None =>
      match dt with
      | kBool => if Qeq_bool x 0 then 0%Q else 1%Q
      | _ => x
      end
  end.

(** [a.AsType(dt)]. *)
Definition AsType (a : Array) (dt : Dtype) : Array :=
  MakeArray dt (shape a) (cast dt <$> data a).

(** [int64_t(Scalar)]. *)
Definition Scalar_to_int64 (x : Q) : Z := Qtrunc x.

(** *** Creation and shape manipulation *)

(** [Full(shape, value, dtype)]: the value is converted to the dtype. *)
Definition Full (s : list Z) (value : Q) (dt : Dtype) : result Array :=
  if bool_decide (Forall (Z.le 0) s)
  then Ok (MakeArray dt s (replicate (Z.to_nat (GetTotalSize s)) (cast dt value)))
  else Fatal "negative dimension".

(** Modelled from the spec: [Reshape(a, newshape)] gives the same elements
    under the new shape, and the total element count has to match.  The
    engine knows no placeholder: it compares the product of the entries of
    [newshape], whatever their signs, with the size of the array. *)
Definition Reshape (a : Array) (s : list Z) : result Array :=
  if GetTotalSize s =? GetTotalSize (shape a)
  then Ok (MakeArray (dtype a) s (data a))
  else Fatal "Cannot reshape array".

(** [Transpose(a)] without axes: the axes in reverse order. *)
Definition Transpose (a : Array) : Array :=
  let s' := reverse (shape a) in
  MakeArray (dtype a) s'
    ((fun idx => elem (data a) (lin (shape a) (reverse idx))) <$> all_indices s').

(** [AsScalar(a)]: the single element of an array of total size 1. *)
Definition AsScalar (a : Array) : result Q :=
  if GetTotalSize (shape a) =? 1
  then match data a with
       | x :: _ => Ok x
       | [] => Fatal "AsScalar: no element"
       end
  else Fatal "AsScalar: total size is not 1".

(** [static_cast<bool>(Scalar)]. *)
Definition Scalar_to_bool (x : Q) : bool := negb (Qeq_bool x 0).

(** *** Elementwise arithmetic *)

(** [-a]: the negated element is stored in the dtype of the array, so the
    least value of a signed integer dtype is its own negation, and an
    unsigned one wraps around. *)
Definition Negate (a : Array) : Array :=
  MakeArray (dtype a) (shape a) ((fun y => cast (dtype a) (- y)) <$> data a).

(** [Maximum(a, Scalar)] and [Maximum(Scalar, a)]: the scalar is converted
    to the dtype of the array. *)
Definition Maximum (a : Array) (x : Q) : Array :=
  MakeArray (dtype a) (shape a) ((fun y => Qmax y (cast (dtype a) x)) <$> data a).

Definition Maximum_scalar_first (x : Q) (a : Array) : Array := Maximum a x.

(** [a * Scalar]: the scalar is converted to the dtype of the array, and
    so is the product. *)
Definition MultiplyScalar (a : Array) (x : Q) : Array :=
  MakeArray (dtype a) (shape a)
    ((fun y => cast (dtype a) (y * cast (dtype a) x)) <$> data a).

(** Broadcasting of two shapes, dimensions aligned at the right; the
    arguments are the reversed shapes. *)
Fixpoint broadcast_rev (ra rb : list Z) : option (list Z) :=
  match ra, rb with
  | [], _ => Some rb
  | _, [] => Some ra
  | x :: ra', y :: rb' =>
      r ← broadcast_rev ra' rb';
      if x =? y then Some (x :: r)
      else if x =? 1 then Some (y :: r)
      else if y =? 1 then Some (x :: r)
      else None
  end.

Definition BroadcastShapes (sa sb : list Z) : option (list Z) :=
  reverse <$> broadcast_rev (reverse sa) (reverse sb).

(** Index into an operand of shape [s] for the output index [idx]. *)
Definition broadcast_index (s idx : list Z) : list Z :=
  zip_with (fun d i => if d =? 1 then 0 else i) s
           (drop (length idx - length s)%nat idx).

(** An elementwise operation on two arrays, with broadcasting.  [f] is the
    operation on the rationals: the element of the result is exact, which
    is what the engine computes unless it rounds (floating dtypes) or
    wraps around (integer dtypes). *)
Definition broadcast_binary (f : Q -> Q -> Q) (a b : Array) : result Array :=
  match BroadcastShapes (shape a) (shape b) with
  | Some s =>
      Ok (MakeArray (dtype a) s
            ((fun idx => f (elem (data a) (lin (shape a) (broadcast_index (shape a) idx)))
                           (elem (data b) (lin (shape b) (broadcast_index (shape b) idx))))
               <$> all_indices s))
  | None => Fatal "operands could not be broadcast together"
  end.

Definition Add : Array -> Array -> result Array := broadcast_binary Qplus.
Definition Multiply : Array -> Array -> result Array := broadcast_binary Qmult.

(** [Dot(a, b)]: the last axis of [a] is contracted with the first axis
    of [b]; operands of rank 0 multiply; [b] of rank above 2 is not
    supported by the engine.  The sums of products are the exact ones (see
    [broadcast_binary]). *)
Definition Dot (a b : Array) : result Array :=
  match reverse (shape a), shape b with
  | [], _ | _, [] => Multiply a b
  | k :: rsa, k' :: sb =>
      if negb (length sb <=? 1)%nat then Fatal "dot does not support rhs operand with ndim > 2"
      else if negb (k =? k') then Fatal "Axis dimension mismatch"
      else
        let sa := reverse rsa in
        Ok (MakeArray (dtype a) (sa ++ sb)
              ((fun idx =>
                  let ia := take (length sa) idx in
                  let jb := drop (length sa) idx in
                  foldr Qplus 0%Q
                    ((fun l => Qmult (elem (data a) (lin (shape a) (ia ++ [l])))
                                     (elem (data b) (lin (shape b) (l :: jb))))
                       <$> seqZ 0 k))
                 <$> all_indices (sa ++ sb)))
  end.

(** [a.At({i})]: the sub-array at position [i] of the first axis; a
    negative position counts from the end. *)
Definition At_index (a : Array) (i : Z) : result Array :=
  match shape a with
  | [] => Fatal "too many indices for array"
  | d :: ds =>
      let i' := if i <? 0 then i + d else i in
      if (0 <=? i') && (i' <? d)
      then Ok (MakeArray (dtype a) ds
                 (take (Z.to_nat (GetTotalSize ds))
                    (drop (Z.to_nat (i' * GetTotalSize ds)) (data a))))
      else Fatal "Index out of bounds"
  end.

(** *** Views *)

(** [Slice(start, stop)] with step 1; an absent bound is the end of the
    axis, a negative one counts from the end, and both are clamped. *)
Record Slice : Type := MakeSlice { start : option Z; stop : option Z }.

Definition FullSlice : Slice := MakeSlice None None.

Definition clamp_bound (b dim : Z) : Z :=
  if b <? 0 then Z.max 0 (b + dim) else Z.min b dim.

Definition Slice_GetStart (sl : Slice) (dim : Z) : Z :=
  match start sl with Some b => clamp_bound b dim | None => 0 end.

Definition Slice_GetStop (sl : Slice) (dim : Z) : Z :=
  match stop sl with Some b => clamp_bound b dim | None => dim end.

Definition Slice_GetLength (sl : Slice) (dim : Z) : Z :=
  Z.max 0 (Slice_GetStop sl dim - Slice_GetStart sl dim).

(** A view shares the elements of its base array: it is the block of
    shape [vshape] that starts at [vstart]. *)
Record View : Type := MakeView {
  base : Array;
  vstart : list Z;
  vshape : list Z;
}.

(** [a.At(indices)] for a list of slices; missing trailing indices are
    full slices. *)
Definition At (a : Array) (indices : list Slice) : result View :=
  if (length indices <=? ndim a)%nat
  then
    let ix := indices ++ replicate (ndim a - length indices)%nat FullSlice in
    Ok (MakeView a (zip_with Slice_GetStart ix (shape a))
                   (zip_with Slice_GetLength ix (shape a)))
  else Fatal "too many indices for array".

(** Offsets, in the base array, of the elements of a view, in the
    row-major order of the view. *)
Definition view_offsets (v : View) : list nat :=
  (fun k => Z.to_nat (lin (shape (base v)) (zip_with Z.add (vstart v) k)))
    <$> all_indices (vshape v).

(** The elements of a view, as an array of their own. *)
Definition view_array (v : View) : Array :=
  MakeArray (dtype (base v)) (vshape v)
    ((fun p => default 0%Q (data (base v) !! p)) <$> view_offsets v).

(** Writes at the given offsets, in order. *)
Definition scatter (ws : list (nat * Q)) (buf : list Q) : list Q :=
  foldl (fun b w => <[w.1 := w.2]> b) buf ws.

(** [device.Copy(a, out)] where [out] is a view: the elements of [a] are
    written through the view into its base array, which is returned. *)
Definition Copy (a : Array) (out : View) : result Array :=
  if bool_decide (shape a = vshape out)
  then Ok (MakeArray (dtype (base out)) (shape (base out))
             (scatter (zip (view_offsets out) (data a)) (data (base out))))
  else Fatal "Copy: shape mismatch".

(** *** Comparisons *)

Definition Q_of_bool (b : bool) : Q := if b then 1%Q else 0%Q.

(** A comparison broadcasts like the arithmetic and gives a [kBool]
    array.  The elements are compared as rationals: there is no NaN, which
    a floating array of the engine can hold and which compares false with
    everything. *)
Definition broadcast_compare (p : Q -> Q -> bool) (a b : Array) : result Array :=
  r ← broadcast_binary (fun x y => Q_of_bool (p x y)) a b;
  Ok (MakeArray kBool (shape r) (data r)).

Definition Equal : Array -> Array -> result Array := broadcast_compare Qeq_bool.
Definition NotEqual : Array -> Array -> result Array :=
  broadcast_compare (fun x y => negb (Qeq_bool x y)).
Definition Greater : Array -> Array -> result Array :=
  broadcast_compare (fun x y => negb (Qle_bool x y)).
Definition Less : Array -> Array -> result Array :=
  broadcast_compare (fun x y => negb (Qle_bool y x)).

Definition LogicalNot (a : Array) : Array :=
  MakeArray kBool (shape a) ((fun x => Q_of_bool (Qeq_bool x 0)) <$> data a).

(** *** More arithmetic *)

Definition Subtract : Array -> Array -> result Array := broadcast_binary Qminus.

(** [out op= v]: the right operand is broadcast to the shape of the left
    one, which keeps its shape. *)
Definition in_place (op : Array -> Array -> result Array) (out v : Array) : result Array :=
  r ← op out v;
  _ ← CHECK (bool_decide (shape r = shape out)) "in-place: the operand cannot be broadcast";
  Ok r.

Definition Zeros (s : list Z) (dt : Dtype) : result Array := Full s 0 dt.

(** *** Reductions *)

(** An axis given from the end is counted from the front. *)
Definition NormalizeAxis (n : nat) (axis : Z) : result Z :=
  let ax := if axis <? 0 then axis + Z.of_nat n else axis in
  _ ← CHECK ((0 <=? ax) && (ax <? Z.of_nat n)) "Axis out of range";
  Ok ax.

(** The axes of a reduction: all of them when none is given; no axis
    twice. *)
Definition GetSortedAxes (axes : option (list Z)) (n : nat) : result (list Z) :=
  match axes with
  | None => Ok (seqZ 0 (Z.of_nat n))
  | Some l =>
      axs ← mapM_result (NormalizeAxis n) l;
      _ ← CHECK (bool_decide (NoDup axs)) "Duplicate axis values";
      Ok axs
  end.

(** The dimensions (or index entries) at the axes whose mark is [m]. *)
Fixpoint select (m : bool) (mask : list bool) (s : list Z) : list Z :=
  match mask, s with
  | b :: mask', d :: s' =>
      if Bool.eqb b m then d :: select m mask' s' else select m mask' s'
  | _, _ => []
  end.

(** Multi-index of the operand from the index [o] over the kept axes and
    the index [r] over the reduced ones. *)
Fixpoint merge (mask : list bool) (o r : list Z) : list Z :=
  match mask with
  | [] => []
  | true :: mask' => default 0 (head r) :: merge mask' o (tail r)
  | false :: mask' => default 0 (head o) :: merge mask' (tail o) r
  end.

Definition reduce_mask (a : Array) (axs : list Z) : list bool :=
  (fun i => bool_decide (i ∈ axs)) <$> seqZ 0 (Z.of_nat (ndim a)).

(** Reduction of [a] over the axes [axs] by [f], which gets the elements
    along the reduced axes in row-major order. *)
Definition reduce (f : list Q -> Q) (a : Array) (axs : list Z) (keepdims : bool) : Array :=
  let mask := reduce_mask a axs in
  let kept := select false mask (shape a) in
  let reduced := select true mask (shape a) in
  MakeArray (dtype a)
    (if keepdims then zip_with (fun (b : bool) d => if b then 1 else d) mask (shape a)
     else kept)
    ((fun o => f ((fun r => elem (data a) (lin (shape a) (merge mask o r)))
                    <$> all_indices reduced))
       <$> all_indices kept).

(** [Sum(a, axes, keepdims)]; the sums are the exact ones (see
    [broadcast_binary]). *)
Definition Sum (a : Array) (axes : option (list Z)) (keepdims : bool) : result Array :=
  axs ← GetSortedAxes axes (ndim a);
  Ok (reduce (foldr Qplus 0%Q) a axs keepdims).

(** Position of the first greatest element of a list, with that element. *)
Fixpoint argmax_from (l : list Q) (i : Z) (best : Z * Q) : Z * Q :=
  match l with
  | [] => best
  | x :: l' =>
      argmax_from l' (i + 1) (if Qle_bool x best.2 then best else (i, x))
  end.

Definition argmax_list (l : list Q) : Z :=
  match l with
  | [] => 0
  | x :: l' => (argmax_from l' 1 (0, x)).1
  end.

(** [ArgMax(a, axes)]: for each position over the kept axes, the position
    (in row-major order over the reduced axes) of the first greatest
    element; a reduced axis of size 0 is refused. *)
Definition ArgMax (a : Array) (axes : option (list Z)) : result Array :=
  axs ← GetSortedAxes axes (ndim a);
  _ ← CHECK (forallb (fun d => negb (d =? 0)) (select true (reduce_mask a axs) (shape a)))
        "Cannot compute ArgMax for an empty array";
  let r := reduce (fun l => inject_Z (argmax_list l)) a axs false in
  Ok (MakeArray kInt64 (shape r) (data r)).

(** *** Creation and indexing *)

(** [Eye(n, nullopt, nullopt, dtype)]: the identity matrix of size [n]. *)
Definition Eye (n : Z) (dt : Dtype) : result Array :=
  _ ← CHECK (0 <=? n) "negative dimension";
  Ok (MakeArray dt [n; n]
        ((fun idx => Q_of_bool (bool_decide (idx !! 0%nat = idx !! 1%nat)))
           <$> all_indices [n; n])).

(** [Arange(start, stop, step)] of integers. *)
Definition Arange (start stop step : Z) : result Array :=
  _ ← CHECK (negb (step =? 0)) "Cannot create an arange array with 0 step size";
  let size := Z.max 0 (if 0 <? step then (stop - start + step - 1) / step
                       else (start - stop - step - 1) / (- step)) in
  Ok (MakeArray kInt64 [size] ((fun i => inject_Z (start + i * step)) <$> seqZ 0 size)).

(** [Take(a, indices, axis)]: the sub-arrays of [a] at the given
    positions of [axis]; a position outside the axis wraps around. *)
Definition Take (a indices : Array) (axis : Z) : result Array :=
  ax ← NormalizeAxis (ndim a) axis;
  let n := Z.to_nat ax in
  let pre := take n (shape a) in
  let post := drop (S n) (shape a) in
  let d := default 0 (shape a !! n) in
  let m := length (shape indices) in
  Ok (MakeArray (dtype a) (pre ++ shape indices ++ post)
        ((fun idx =>
            let j := Scalar_to_int64
                       (elem (data indices) (lin (shape indices) (take m (drop n idx)))) in
            elem (data a) (lin (shape a) (take n idx ++ (j mod d) :: drop (n + m) idx)))
           <$> all_indices (pre ++ shape indices ++ post))).

(** [Transpose(a, axes)]: without axes they are reversed; otherwise axis
    [i] of the result is axis [axes[i]] of [a]. *)
Definition TransposeAxes (a : Array) (axes : option (list Z)) : result Array :=
  match axes with
  | None => Ok (Transpose a)
  | Some l =>
      _ ← CHECK (bool_decide (length l = ndim a)) "Axes do not match";
      axs ← GetSortedAxes (Some l) (ndim a);
      let s' := (fun ax => default 0 (shape a !! Z.to_nat ax)) <$> axs in
      Ok (MakeArray (dtype a) s'
            ((fun idx =>
                elem (data a)
                  (lin (shape a)
                     ((fun j => default 0 (p ← list_find (fun ax => ax = j) axs; idx !! p.1))
                        <$> seqZ 0 (Z.of_nat (ndim a)))))
               <$> all_indices s'))
  end.

End chainerx.

Import chainerx.

(** ** Helpers of the runtime *)

Module xchainer.

(** Start and length of each segment for the given lengths. *)
Fixpoint segments (start : Z) (lens : list Z) : list (Z * Z) :=
  match lens with
  | [] => []
  | len :: lens' => (start, len) :: segments (start + len) lens'
  end.

(** Segment and position inside it for position [i] along the joined
    axis. *)
Fixpoint locate (dims : list Z) (i : Z) : nat * Z :=
  match dims with
  | [] => (0%nat, i)
  | d :: ds =>
      if i <? d then (0%nat, i)
      else let '(j, r) := locate ds (i - d) in (S j, r)
  end.

Definition axis_dim (a : Array) (axis : nat) : Z := default 0 (shape a !! axis).

(** Modelled from the spec: the helper [Split(input, lens, axis)] is not
    among the sources.  It cuts the input along [axis] into consecutive
    segments of the given lengths; the lengths are sizes and have to add
    up to the dimension of that axis. *)
Definition Split (input : Array) (lens : list Z) (axis : Z) : result (list Array) :=
  _ ← CHECK ((0 <=? axis) && (axis <? Z.of_nat (ndim input))) "Split: axis out of range";
  _ ← CHECK (forallb (Z.leb 0) lens) "Split: negative length";
  _ ← CHECK (foldr Z.add 0 lens =? axis_dim input (Z.to_nat axis)) "Split: lengths do not add up";
  mapM_result
    (fun seg : Z * Z =>
       v ← At input (<[Z.to_nat axis := MakeSlice (Some seg.1) (Some (seg.1 + seg.2))]>
                       (replicate (ndim input) FullSlice));
       Ok (view_array v))
    (segments 0 lens).

(** Modelled from the spec: the helper [Concat(inputs, axis)] is not among
    the sources.  It joins the inputs along [axis]: they agree in dtype,
    rank and every other dimension, and the element at a position of the
    result is the element of the input whose segment holds the position. *)
Definition Concat (inputs : list Array) (axis : Z) : result Array :=
  match inputs with
  | [] => Fatal "Concat: no input"
  | a0 :: _ =>
      _ ← CHECK ((0 <=? axis) && (axis <? Z.of_nat (ndim a0))) "Concat: axis out of range";
      let ax := Z.to_nat axis in
      _ ← CHECK (forallb (fun a => bool_decide (dtype a = dtype a0)) inputs) "Concat: dtype";
      _ ← CHECK (forallb (fun a => bool_decide (<[ax := 0]> (shape a) = <[ax := 0]> (shape a0)))
                   inputs) "Concat: shape";
      let dims := (fun a => axis_dim a ax) <$> inputs in
      let s := <[ax := foldr Z.add 0 dims]> (shape a0) in
      Ok (MakeArray (dtype a0) s
            ((fun idx =>
                let '(j, r) := locate dims (default 0 (idx !! ax)) in
                match inputs !! j with
                | Some a => elem (data a) (lin (shape a) (<[ax := r]> idx))
                | None => 0%Q
                end)
               <$> all_indices s))
  end.

(** Modelled from the spec: [WARN_ONCE] (a macro of common/log.h, not among
    the sources) emits a warning the first time its code path is hit and
    suppresses repeats.  The warnings emitted so far are passed along. *)
Definition WARN_ONCE (msg : string) (warned : list string) : list string :=
  if bool_decide (msg ∈ warned) then warned else warned ++ [msg].

End xchainer.

Import xchainer.

(** ** State of a run *)

Module xcvm.

(** Modelled from the spec: the state of a run (runtime/xcvm_state.h is
    not among the sources): the program counter, the live variables, the
    bound inputs and the recorded outputs. *)
Record XCVMState : Type := MakeState {
  pc : Z;
  variables : gmap Z Array;
  inputs : gmap string Array;
  outputs : gmap string Array;
}.

Definition set_pc (n : Z) (st : XCVMState) : XCVMState :=
  MakeState n (variables st) (inputs st) (outputs st).

(** Modelled from the spec: [Input(name)] returns the bound input; it is
    not consumed. *)
Definition Input (name : string) (st : XCVMState) : result Array :=
  match inputs st !! name with
  | Some a => Ok a
  | None => Fatal "input not bound"
  end.

(** Modelled from the spec: [Output(name, value)] records the value,
    overwriting an earlier one. *)
Definition Output (name : string) (v : Array) (st : XCVMState) : XCVMState :=
  MakeState (pc st) (variables st) (inputs st) (<[name := v]> (outputs st)).

(** Modelled from the spec: reading a variable that was never produced or
    was freed is a fatal error. *)
Definition GetVar (id : Z) (st : XCVMState) : result Array :=
  match variables st !! id with
  | Some a => Ok a
  | None => Fatal "variable is not set"
  end.

Definition SetVar (id : Z) (a : Array) (st : XCVMState) : XCVMState :=
  MakeState (pc st) (<[id := a]> (variables st)) (inputs st) (outputs st).

(** Modelled from the spec: [FreeVar(id)] discards the value; a variable
    that holds none is a fatal error. *)
Definition FreeVar (id : Z) (st : XCVMState) : result XCVMState :=
  match variables st !! id with
  | Some _ => Ok (MakeState (pc st) (delete id (variables st)) (inputs st) (outputs st))
  | None => Fatal "variable is not set"
  end.

End xcvm.

Import xcvm.

(** ** The kernels (runtime/xcvm_ops.cc) *)

(** Each [XxxOp::RunImpl] becomes [XxxOp_RunImpl]: the attributes of the op
    come first, then the operands.  The state pointer is kept only where
    the kernel uses it. *)
Module ops.

(** [ElementwiseMax(a, b)].  A warning is on the log even when the run
    aborts afterwards, so the log is returned next to the outcome.  The
    counter of the fallback loop runs over the positions [0 .. an - 1]. *)
Definition ElementwiseMax (a b : Array) (warned : list string)
  : list string * result Array :=
  if negb (bool_decide (dtype a = dtype b))
  then (warned, Fatal "Check `a.dtype()' == `b.dtype()' failed!")
  else
    let an := GetTotalSize (shape a) in
    let bn := GetTotalSize (shape b) in
    if an =? 1 then
      (warned, x ← AsScalar a; Ok (Maximum_scalar_first x b))
    else if bn =? 1 then
      (warned, y ← AsScalar b; Ok (Maximum a y))
    else if negb (an =? bn) then
      (warned, Fatal "Max with broadcast not supported yet")
    else
      (WARN_ONCE "Slow element-wise Max" warned,
       av ← Reshape a [an];
       bv ← Reshape b [an];
       maxes ← mapM_result
                 (fun i =>
                    ai ← At_index av i;
                    x ← AsScalar ai;
                    bi ← At_index bv i;
                    Reshape (Maximum_scalar_first x bi) [1])
                 (seqZ 0 an);
       r ← Concat maxes 0;
       Reshape r (shape a)).

(** [ClipOp::RunImpl], attributes [min] and [max]. *)
Definition ClipOp_RunImpl (min max : Q) (x : Array) : Array :=
  Negate (Maximum (Negate (Maximum x min)) (Qopp max)).

(** The loop of [MaxOp::RunImpl]: [result = ElementwiseMax(result,
    inputs[i])] for each further input. *)
Fixpoint MaxOp_loop (r : Array) (rest : list Array) (warned : list string)
  : list string * result Array :=
  match rest with
  | [] => (warned, Ok r)
  | b :: rest' =>
      match ElementwiseMax r b warned with
      | (warned', Ok r') => MaxOp_loop r' rest' warned'
      | (warned', Fatal msg) => (warned', Fatal msg)
      end
  end.

(** [MaxOp::RunImpl]. *)
Definition MaxOp_RunImpl (inputs : list Array) (warned : list string)
  : list string * result Array :=
  match inputs with
  | [] => (warned, Fatal "Check `0' < `inputs.size()' failed!")
  | a :: rest => MaxOp_loop a rest warned
  end.

(** One round of the loop of [ReshapeOp::RunImpl] over the target shape:
    the state is [to_total_size], [to_minus_one_index] and the counter
    [i]; [si] is [s[i]]. *)
Definition ReshapeOp_round (acc : Z * Z * Z) (si : Z) : result (Z * Z * Z) :=
  let '(to_total_size, to_minus_one_index, i) := acc in
  let d := to_int si in
  _ ← CHECK (negb (0 =? d)) "Check `0' != `d' failed!";
  if d <? 0 then Ok (to_total_size, i, i + 1)
  else Ok (to_int (to_total_size * d), to_minus_one_index, i + 1).

Definition ReshapeOp_scan (s : list Z) : result (Z * Z * Z) :=
  foldM ReshapeOp_round (1, -1, 0) s.

(** The shape [ReshapeOp::RunImpl] hands to the engine, from the total
    size of the data and the target shape.  A remainder by zero stops the
    process. *)
Definition ReshapeOp_shape (total : Z) (s : list Z) : result (list Z) :=
  let from_total_size := to_int total in
  acc ← ReshapeOp_scan s;
  let '(to_total_size, to_minus_one_index, _) := acc in
  if negb (from_total_size =? to_total_size) then
    _ ← CHECK (to_total_size <? from_total_size) "Check `from_total_size' > `to_total_size' failed!";
    _ ← CHECK (negb (to_total_size =? 0)) "division by zero";
    _ ← CHECK (0 =? Z.rem from_total_size to_total_size)
          "Check `0' == `from_total_size % to_total_size' failed!";
    _ ← CHECK (0 <=? to_minus_one_index) "Check `0' <= `to_minus_one_index' failed!";
    Ok (<[Z.to_nat to_minus_one_index := Z.quot from_total_size to_total_size]> s)
  else Ok s.

(** [ReshapeOp::RunImpl]; [s] is the shape read from the second operand
    ([ArrayToShape(shape)]). *)
Definition ReshapeOp_RunImpl (data : Array) (s : list Z) : result Array :=
  s' ← ReshapeOp_shape (GetTotalSize (shape data)) s;
  Reshape data s'.

(** One round of the loop of [UnsqueezeOp::RunImpl]: the [int d] is
    compared with the unsigned [shape.size()]. *)
Definition UnsqueezeOp_insert (sh : list Z) (axis : Z) : result (list Z) :=
  let d := to_int axis in
  _ ← CHECK (to_size_t d <=? Z.of_nat (length sh)) "Unsqueezing axis out of bound";
  Ok (take (Z.to_nat d) sh ++ 1 :: drop (Z.to_nat d) sh).

(** [UnsqueezeOp::RunImpl], attribute [axes]. *)
Definition UnsqueezeOp_RunImpl (axes : list Z) (data : Array) : result Array :=
  sh ← foldM UnsqueezeOp_insert (shape data) axes;
  Reshape data sh.

(** [ConcatOp::RunImpl], attribute [axis]. *)
Definition ConcatOp_RunImpl (axis : Z) (inputs : list Array) : result Array :=
  Concat inputs axis.

(** [SplitOp::RunImpl], attributes [split] and [axis]; [outputs] are the
    ids of the output variables of the instruction.  A remainder by zero
    stops the process, and so does reading a dimension that is not
    there; a vector of a negative number of elements cannot be built. *)
Definition SplitOp_RunImpl (split : list Z) (axis : Z) (outputs : list Z) (input : Array)
  : result (list Array) :=
  lens ← (if bool_decide (split = []) then
            _ ← CHECK ((0 <=? axis) && (axis <? Z.of_nat (ndim input))) "shape()[axis]";
            let dim := axis_dim input (Z.to_nat axis) in
            let num_splits := to_int (Z.of_nat (length outputs)) in
            _ ← CHECK (negb (num_splits =? 0)) "division by zero";
            _ ← CHECK (0 =? Z.rem dim num_splits) "Check `0' == `dim % num_splits' failed!";
            _ ← CHECK (0 <=? num_splits) "std::length_error";
            Ok (replicate (Z.to_nat num_splits) (Z.quot dim num_splits))
          else Ok split);
  Split input lens axis.

(** [PadOp::RunImpl], attributes [pads] and [value]. *)
Definition PadOp_RunImpl (pads : list Z) (value : Q) (data : Array) : result Array :=
  _ ← CHECK (Z.of_nat (ndim data) * 2 =? Z.of_nat (length pads))
        "Check `data.ndim() * 2' == `pads.size()' failed!";
  let n := length (shape data) in
  let pad := fun i : nat => default 0 (pads !! i) in
  let indices :=
    imap (fun i d => MakeSlice (Some (pad i)) (Some (pad i + d))) (shape data) in
  let sh := imap (fun i d => d + (pad i + pad (i + n)%nat)) (shape data) in
  r ← Full sh value (dtype data);
  v ← At r indices;
  Copy data v.

(** The flattening done by [GemmOp::RunImpl] on an operand of rank above
    2; [last_dim] is an [int]. *)
Definition Gemm_flatten (xa : Array) : result Array :=
  if (2 <? Z.of_nat (length (shape xa))) then
    let last_dim := int_product 1 (drop 1 (shape xa)) in
    Reshape xa [default 0 (shape xa !! 0%nat); last_dim]
  else Ok xa.

(** [GemmOp::RunImpl], attributes [trans_a], [trans_b], [alpha], [beta]. *)
Definition GemmOp_RunImpl (trans_a trans_b : bool) (alpha beta : Q) (a b c : Array)
  : result Array :=
  let xa := if trans_a then Transpose a else a in
  let xb := if trans_b then Transpose b else b in
  xa ← Gemm_flatten xa;
  xb ← Gemm_flatten xb;
  r ← Dot xa xb;
  let r := if negb (Qeq_bool alpha 1) then MultiplyScalar r alpha else r in
  if Qeq_bool beta 0 then Ok r
  else
    let xc := if negb (Qeq_bool beta 1) then MultiplyScalar c beta else c in
    Add r xc.

(** [InOp::RunImpl], [OutOp::RunImpl], [FreeOp::RunImpl]. *)
Definition InOp_RunImpl (name : string) (st : XCVMState) : result Array :=
  Input name st.

Definition OutOp_RunImpl (name : string) (st : XCVMState) (v : Array) : XCVMState :=
  Output name v st.

Definition FreeOp_RunImpl (v : Z) (st : XCVMState) : result XCVMState :=
  FreeVar v st.

(** [JmpTrueOp::RunImpl] and [JmpFalseOp::RunImpl], attribute [pc] (the
    index of the target instruction). *)
Definition JmpTrueOp_RunImpl (pc : Z) (st : XCVMState) (cond : Array) : result XCVMState :=
  c ← AsScalar cond;
  if Scalar_to_bool c then Ok (set_pc (pc - 1) st) else Ok st.

Definition JmpFalseOp_RunImpl (pc : Z) (st : XCVMState) (cond : Array) : result XCVMState :=
  c ← AsScalar cond;
  if negb (Scalar_to_bool c) then Ok (set_pc (pc - 1) st) else Ok st.

(** [GetXchainerAxes]: no entry stands for all axes; the [int64_t]
    entries are stored as [int8_t]. *)
Definition GetXchainerAxes (axes : list Z) : option (list Z) :=
  if bool_decide (axes = []) then None else Some (to_int8 <$> axes).

(** [ArgMaxOp::RunImpl], attributes [axis] and [keepdims].  Writing
    [shape[axis]] outside the shape is undefined; the model stops. *)
Definition ArgMaxOp_RunImpl (axis : Z) (keepdims : bool) (x : Array) : result Array :=
  r ← ArgMax x (Some [to_int8 axis]);
  if keepdims then
    _ ← CHECK ((0 <=? axis) && (axis <? Z.of_nat (ndim x))) "shape[axis]";
    Reshape r (<[Z.to_nat axis := 1]> (shape x))
  else Ok r.

(** The two-dimensional shape [HardmaxOp::RunImpl] computes: the counter
    [i] is a [size_t], and [axis] is converted to it by [i >= axis]. *)
Definition HardmaxOp_shape (axis : Z) (s : list Z) : Z * Z :=
  foldl (fun (sh : Z * Z) (p : Z * Z) =>
           if to_size_t axis <=? p.1 then (sh.1, sh.2 * p.2) else (sh.1 * p.2, sh.2))
        (1, 1) (imap (fun i d => (Z.of_nat i, d)) s).

(** [HardmaxOp::RunImpl], attribute [axis]. *)
Definition HardmaxOp_RunImpl (axis : Z) (x : Array) : result Array :=
  let sh := HardmaxOp_shape axis (shape x) in
  x2 ← Reshape x [sh.1; sh.2];
  r ← ArgMax x2 (Some [1]);
  e ← Eye sh.2 (dtype x);
  t ← Take e r 0;
  Reshape t (shape x).

(** [ReduceSumOp::RunImpl] and [ReduceSumSquareOp::RunImpl], attributes
    [axes] and [keepdims]. *)
Definition ReduceSumOp_RunImpl (axes : list Z) (keepdims : Z) (a : Array) : result Array :=
  Sum a (GetXchainerAxes axes) (negb (keepdims =? 0)).

Definition ReduceSumSquareOp_RunImpl (axes : list Z) (keepdims : Z) (a : Array)
  : result Array :=
  aa ← Multiply a a;
  Sum aa (GetXchainerAxes axes) (negb (keepdims =? 0)).

(** [ReduceSumToOp::RunImpl]; [to] is the shape read from the second
    operand.  The loop compares the dimensions from the last one on. *)
Definition ReduceSumToOp_RunImpl (data : Array) (to : list Z) : result Array :=
  let from := shape data in
  _ ← CHECK (length to <=? length from)%nat "Reduce requested but shape actually expands";
  _ ← foldM (fun (_ : unit) (i : nat) =>
               CHECK (bool_decide (from !! (length from - i - 1)%nat
                                   = to !! (length to - i - 1)%nat))
                     "ReduceSumTo shape mismatches")
            tt (seq 0 (length to));
  if (length from =? length to)%nat then Ok data
  else Sum data (Some (seqZ 0 (Z.of_nat (length from - length to)))) false.

(** [FloorOp::RunImpl] and [CeilOp::RunImpl]; the log of warnings is
    returned next to the outcome. *)
Definition FloorOp_RunImpl (x : Array) (warned : list string)
  : list string * result Array :=
  (WARN_ONCE "Floor is broken for large floats" warned,
   let out := AsType (AsType x kInt64) (dtype x) in
   zero ← Zeros [] (dtype x);
   lt ← Less x zero;
   let negs := AsType lt (dtype x) in
   ne ← NotEqual x out;
   let floats := AsType ne (dtype x) in
   nf ← Multiply negs floats;
   in_place Subtract out nf).

Definition CeilOp_RunImpl (x : Array) (warned : list string)
  : list string * result Array :=
  (WARN_ONCE "Ceil is broken for large values" warned,
   let out := AsType (AsType x kInt64) (dtype x) in
   zero ← Zeros [] (dtype x);
   gt ← Greater x zero;
   let poses := AsType gt (dtype x) in
   ne ← NotEqual x out;
   let floats := AsType ne (dtype x) in
   pf ← Multiply poses floats;
   in_place Add out pf).

(** The loop of [SqueezeOp::RunImpl]: [i] is the counter, [dims] what is
    left of the shape of the data, [shape] the dimensions kept so far.
    [std::find] compares the entries of [axes] with the [size_t]
    counter. *)
Fixpoint SqueezeOp_loop (axes : list Z) (i : Z) (dims shape : list Z) : result (list Z) :=
  match dims with
  | [] => Ok shape
  | d :: dims' =>
      if negb (existsb (fun ax => to_size_t ax =? i) axes)
      then SqueezeOp_loop axes (i + 1) dims' (shape ++ [d])
      else
        _ ← CHECK (1 =? d) "Cannot squeeze a dimension whose size is not 1";
        SqueezeOp_loop axes (i + 1) dims' shape
  end.

(** [SqueezeOp::RunImpl], attribute [axes]. *)
Definition SqueezeOp_RunImpl (axes : list Z) (data : Array) : result Array :=
  sh ← SqueezeOp_loop axes 0 (shape data) [];
  Reshape data sh.

(** [indices[axis] = Slice(start, end, 1)].  The access is unchecked:
    outside the vector the behaviour is undefined, and the model stops. *)
Definition SliceOp_set (indices : list Slice) (axis start end_ : Z) : result (list Slice) :=
  _ ← CHECK ((0 <=? axis) && (axis <? Z.of_nat (length indices))) "indices[axis]";
  Ok (<[Z.to_nat axis := MakeSlice (Some start) (Some end_)]> indices).

(** The loop of [SliceOp::RunImpl] over [axes]; [starts] and [ends] are
    what is left of these attributes.  [starts[i]] and [ends[i]] are
    unchecked accesses as well. *)
Fixpoint SliceOp_loop (axes starts ends : list Z) (indices : list Slice)
  : result (list Slice) :=
  match axes with
  | [] => Ok indices
  | axis :: axes' =>
      match starts, ends with
      | start :: starts', end_ :: ends' =>
          indices' ← SliceOp_set indices axis start end_;
          SliceOp_loop axes' starts' ends' indices'
      | _, _ => Fatal "starts[i]"
      end
  end.

(** [SliceOp::RunImpl], attributes [axes], [starts] and [ends]. *)
Definition SliceOp_RunImpl (axes starts ends : list Z) (data : Array) : result Array :=
  indices ← SliceOp_loop axes starts ends (replicate (ndim data) FullSlice);
  v ← At data indices;
  Ok (view_array v).

(** [int64_t(chainerx::AsScalar(a.At({i})))]. *)
Definition read_int64 (a : Array) (i : Z) : result Z :=
  e ← At_index a i;
  x ← AsScalar e;
  Ok (Scalar_to_int64 x).

(** One round of the loop of [DynamicSliceOp::RunImpl]. *)
Definition DynamicSliceOp_round (starts ends : Array) (axes : option Array)
    (indices : list Slice) (i : Z) : result (list Slice) :=
  axis ← match axes with
         | Some ax => read_int64 ax i
         | None => Ok i
         end;
  start ← read_int64 starts i;
  end_ ← read_int64 ends i;
  SliceOp_set indices axis start end_.

(** [DynamicSliceOp::RunImpl]. *)
Definition DynamicSliceOp_RunImpl (data starts ends : Array) (axes : option Array)
  : result Array :=
  _ ← CHECK (1 =? Z.of_nat (ndim starts)) "Check `1' == `starts.ndim()' failed!";
  _ ← CHECK (1 =? Z.of_nat (ndim ends)) "Check `1' == `ends.ndim()' failed!";
  indices ← foldM (DynamicSliceOp_round starts ends axes)
                  (replicate (ndim data) FullSlice)
                  (seqZ 0 (default 0 (shape starts !! 0%nat)));
  v ← At data indices;
  Ok (view_array v).

(** [SelectItemOp::RunImpl]. *)
Definition SelectItemOp_RunImpl (data indices : Array) : result Array :=
  _ ← CHECK (2 =? Z.of_nat (length (shape data)))
        "TODO(hamaji): Support SelectItem for non-2D array";
  let batch_size := default 0 (shape data !! 0%nat) in
  let num_classes := default 0 (shape data !! 1%nat) in
  let total_size := batch_size * num_classes in
  ar ← Arange 0 total_size num_classes;
  take_indices ← Add indices ar;
  flat ← Reshape data [total_size];
  Take flat take_indices 0.

(** [TransposeOp::RunImpl], attribute [perm]. *)
Definition TransposeOp_RunImpl (perm : list Z) (data : Array) : result Array :=
  TransposeAxes data (GetXchainerAxes perm).

(** [MatMulOp::RunImpl]. *)
Definition MatMulOp_RunImpl (a b : Array) : result Array := Dot a b.

(** [EqualOp::RunImpl], [GreaterOp::RunImpl] and
    [GreaterEqualOp::RunImpl]. *)
Definition EqualOp_RunImpl (a b : Array) : result Array := Equal a b.

Definition GreaterOp_RunImpl (a b : Array) : result Array := Greater a b.

Definition GreaterEqualOp_RunImpl (a b : Array) : result Array :=
  g ← Greater b a;
  Ok (LogicalNot g).

End ops.

Import ops.

(** ** Instructions and the dispatcher *)

Module dispatcher.

(** Modelled from the spec: an instruction is an opcode with its
    attributes and the ids of its input and output variables (the
    generated op classes are not among the sources).  The ops that touch
    the state are listed one by one; [PureOp] stands for any kernel that
    maps input values to output values. *)
Inductive XCVMOp : Type :=
| InOp (out : Z) (name : string)
| OutOp (name : string) (v : Z)
| FreeOp (v : Z)
| JmpTrueOp (cond : Z) (pc : Z)
| JmpFalseOp (cond : Z) (pc : Z)
| PureOp (kernel : list Array -> result (list Array)) (ins outs : list Z).

Fixpoint SetVars (ids : list Z) (vs : list Array) (st : XCVMState) : XCVMState :=
  match ids, vs with
  | id :: ids', v :: vs' => SetVars ids' vs' (SetVar id v st)
  | _, _ => st
  end.

(** Modelled from the spec: running one instruction gathers the input
    values from the register file, invokes the kernel and stores what it
    produces. *)
Definition Run (op : XCVMOp) (st : XCVMState) : result XCVMState :=
  match op with
  | InOp out name => a ← InOp_RunImpl name st; Ok (SetVar out a st)
  | OutOp name v => a ← GetVar v st; Ok (OutOp_RunImpl name st a)
  | FreeOp v => FreeOp_RunImpl v st
  | JmpTrueOp cond target => c ← GetVar cond st; JmpTrueOp_RunImpl target st c
  | JmpFalseOp cond target => c ← GetVar cond st; JmpFalseOp_RunImpl target st c
  | PureOp kernel ins outs =>
      args ← mapM_result (fun id => GetVar id st) ins;
      vs ← kernel args;
      _ ← CHECK (bool_decide (length vs = length outs)) "number of outputs";
      Ok (SetVars outs vs st)
  end.

(** Modelled from the spec: one round of the dispatcher loop.  While the
    program counter is within the program, the instruction it addresses
    is run and the counter of the resulting state is advanced by one; a
    counter set by the kernel is advanced like any other.  [None]: the
    counter is outside the program and the loop is over. *)
Definition step (program : list XCVMOp) (st : XCVMState) : option (result XCVMState) :=
  if 0 <=? pc st then
    match program !! Z.to_nat (pc st) with
    | Some op => Some (st' ← Run op st; Ok (set_pc (pc st' + 1) st'))
    | None => None
    end
  else None.

(** The dispatcher loop, for at most [fuel] instructions: the indices of
    the instructions executed, in order, and where the run stands. *)
Fixpoint run (fuel : nat) (program : list XCVMOp) (st : XCVMState)
  : list Z * result XCVMState :=
  match fuel with
  | O => ([], Ok st)
  | S fuel' =>
      match step program st with
      | None => ([], Ok st)
      | Some (Fatal msg) => ([pc st], Fatal msg)
      | Some (Ok st') =>
          let '(trace, r) := run fuel' program st' in (pc st :: trace, r)
      end
  end.

End dispatcher.

Import dispatcher.

(** ** Notions used to state the properties *)

(** The positive entries of a target shape, as the [int]s the loop of
    ReshapeOp multiplies. *)
Definition positive_dims (s : list Z) : list Z :=
  filter (fun d => 0 < d) (to_int <$> s).

Definition sum_list_Z (l : list Z) : Z := foldr Z.add 0 l.

(** The operand of the product of Gemm as the specification words it:
    transposed when asked, and, when its rank is above 2, with all
    dimensions after the first flattened into one. *)
Definition Gemm_operand_spec (trans : bool) (a : Array) : result Array :=
  let x := if trans then Transpose a else a in
  if 2 <? Z.of_nat (length (shape x))
  then Reshape x [default 0 (shape x !! 0%nat); GetTotalSize (drop 1 (shape x))]
  else Ok x.

(** Product of the dimensions after the first, once the operand is
    transposed. *)
Definition trailing_size (trans : bool) (a : Array) : Z :=
  GetTotalSize (drop 1 (shape (if trans then Transpose a else a))).

(** Shape of a padded array: [shape[i] + pads[i] + pads[i + n]]. *)
Definition padded_shape (s pads : list Z) : list Z :=
  zip_with Z.add s (zip_with Z.add (take (length s) pads) (drop (length s) pads)).

(** Position in the padded array of the data element at [idx]: the
    sub-block of the data starts at offset [pads[i]] on axis [i]. *)
Definition pad_offset (s pads idx : list Z) : list Z :=
  zip_with Z.add (take (length s) pads) idx.

(** The padded array in closed form: the fill value, converted to the
    dtype of the data, everywhere; then the data written at the offsets of
    the sub-block. *)
Definition padded (pads : list Z) (value : Q) (a : Array) : Array :=
  let sh := padded_shape (shape a) pads in
  MakeArray (dtype a) sh
    (scatter
       (zip ((fun k => Z.to_nat (lin sh (pad_offset (shape a) pads k)))
               <$> all_indices (shape a))
            (data a))
       (replicate (Z.to_nat (GetTotalSize sh)) (cast (dtype a) value))).

(** The piece of [x] that Split cuts out for a segment [(start, length)]
    of the axis [ax]. *)
Definition piece (x : Array) (ax : nat) (seg : Z * Z) : Array :=
  view_array (MakeView x (<[ax := seg.1]> (replicate (ndim x) 0))
                         (<[ax := seg.2]> (shape x))).

Definition slow_max_warning : string := "Slow element-wise Max".

(** A jump instruction on the condition variable [c] with target [t]. *)
Definition is_jump (op : XCVMOp) (c t : Z) : Prop :=
  op = JmpTrueOp c t \/ op = JmpFalseOp c t.

(** Whether a jump instruction fires on the condition value [x]. *)
Definition fires (op : XCVMOp) (x : Q) : bool :=
  match op with
  | JmpTrueOp _ _ => Scalar_to_bool x
  | JmpFalseOp _ _ => negb (Scalar_to_bool x)
  | _ => false
  end.

(** The dimensions of [dims], which start at position [i] of a shape,
    whose position is not among [axes] (read as [size_t]). *)
Definition squeezed_from (axes : list Z) (i : Z) (dims : list Z) : list Z :=
  snd <$> filter (fun p : Z * Z => p.1 ∉ to_size_t <$> axes)
                 (zip (seqZ i (Z.of_nat (length dims))) dims).

Definition squeezed_shape (axes sh : list Z) : list Z := squeezed_from axes 0 sh.

(** Sum of a list of elements. *)
Definition sum_list (l : list Q) : Q := foldr Qplus 0%Q l.

(** A rational that is an integer. *)
Definition integral (q : Q) : Prop := (inject_Z (Qfloor q) == q)%Q.

(** The floating dtypes. *)
Definition is_float (dt : Dtype) : Prop := dt = kFloat32 \/ dt = kFloat64.

(** For a signed integer dtype, the [L] such that its values are the
    integers from [-L] to [L - 1]. *)
Definition signed_bound (dt : Dtype) : option Z :=
  match dt with
  | kInt8 => Some (2 ^ 7)
  | kInt16 => Some (2 ^ 15)
  | kInt32 => Some (2 ^ 31)
  | kInt64 => Some (2 ^ 63)
  | kBool | kUInt8 | kFloat32 | kFloat64 => None
  end.

(** The dtypes without negative values. *)
Definition is_unsigned (dt : Dtype) : Prop := dt = kBool \/ dt = kUInt8.

(** The greatest [n] such that every integer of magnitude up to [n] is a
    value of the dtype (the negative ones left out for an unsigned
    dtype).  On such integers the arithmetic of the dtype is exact as long
    as the results stay among them: an integer dtype does not wrap
    around, a floating dtype does not round. *)
Definition exact_limit (dt : Dtype) : Z :=
  match dt with
  | kBool => 1
  | kInt8 => 2 ^ 7 - 1
  | kInt16 => 2 ^ 15 - 1
  | kInt32 => 2 ^ 31 - 1
  | kInt64 => 2 ^ 63 - 1
  | kUInt8 => 2 ^ 8 - 1
  | kFloat32 => 2 ^ 24
  | kFloat64 => 2 ^ 53
  end.

(** Sum of the magnitudes of a list of elements. *)
Definition abs_total (l : list Q) : Q := sum_list (Qabs <$> l).

(** Arrays on which every sum of elements is exact in the engine, in
    whatever order it adds and whatever it accumulates in: the elements
    are integers, values of the dtype, and their magnitudes add up to at
    most [exact_limit]. *)
Definition exact_sums (a : Array) : Prop :=
  Forall (fun q => integral q /\ (is_unsigned (dtype a) -> (0 <= q)%Q)) (data a) /\
  (abs_total (data a) <= inject_Z (exact_limit (dtype a)))%Q.


(** Where the two negations of Clip are exact: on a floating array; and
    on a signed integer array when the element is a value of the dtype and
    both bounds are integers strictly between [-L] and [L], so that no
    negation meets the least value of the dtype. *)
Definition clip_exact (dt : Dtype) (lo hi v : Q) : Prop :=
  match signed_bound dt with
  | Some L =>
      integral lo /\ integral hi /\ integral v /\
      (inject_Z (- L) < lo)%Q /\ (lo < inject_Z L)%Q /\
      (inject_Z (- L) < hi)%Q /\ (hi < inject_Z L)%Q /\
      (inject_Z (- L) <= v)%Q /\ (v < inject_Z L)%Q
  | None => is_float dt
  end.

(** ** Sample values *)

Definition data_2x3 : Array := MakeArray kFloat32 [2; 3] [1; 2; 3; 4; 5; 6]%Q.
Definition data_2x2 : Array := MakeArray kFloat32 [2; 2] [1; 2; 3; 4]%Q.
Definition data_3 : Array := MakeArray kFloat32 [3] [-1; 3; 7]%Q.
Definition empty_data : Array := MakeArray kFloat32 [0] [].
Definition int8_lowest : Array := MakeArray kInt8 [1] [-128]%Q.
Definition int32_5 : Array := MakeArray kInt32 [1] [5]%Q.
Definition int32_3 : Array := MakeArray kInt32 [3] [-1; 3; 7]%Q.
Definition int32_3' : Array := MakeArray kInt32 [3] [0; 3; 9]%Q.
Definition scalar_true : Array := MakeArray kBool [] [1]%Q.

(** The operands of the Gemm scenario: [(3,4,2,2)] and [(16,2)]. *)
Definition gemm_A : Array :=
  MakeArray kFloat32 [3; 4; 2; 2] (inject_Z <$> seqZ 1 48).
Definition gemm_B : Array :=
  MakeArray kFloat32 [16; 2] (inject_Z <$> seqZ 1 32).
Definition gemm_C : Array := MakeArray kFloat32 [2] [0; 0]%Q.

(** Empty operands whose trailing dimensions multiply to [2 ^ 32]. *)
Definition wide_A : Array := MakeArray kFloat32 [0; 65536; 65536] [].
Definition wide_B : Array := MakeArray kFloat32 [4294967296; 0] [].

(** The jump scenario: [JmpTrue] to 5 at index 2, [Out] at index 5. *)
Definition jump_program : list XCVMOp :=
  [ InOp 0 "x"; InOp 1 "cond"; JmpTrueOp 1 5;
    PureOp (fun _ => Ok [data_3]) [] [2];
    PureOp (fun _ => Ok [data_3]) [] [3];
    OutOp "y" 0; FreeOp 0 ].

Definition jump_state : XCVMState :=
  MakeState 2 (<[1 := scalar_true]> (<[0 := data_2x3]> ∅)) ∅ ∅.

(** * Facts *)

(** ** Outcomes *)

Lemma CHECK_true msg : CHECK true msg = Ok tt.
Proof. reflexivity. Qed.

Lemma CHECK_false msg : CHECK false msg = Fatal msg.
Proof. reflexivity. Qed.

Lemma bind_Ok {A B} (f : A -> result B) (a : A) : (Ok a ≫= f) = f a.
Proof. reflexivity. Qed.

Lemma bind_Fatal {A B} (f : A -> result B) msg : (Fatal msg ≫= f) = Fatal msg.
Proof. reflexivity. Qed.

Lemma bind_Ok_inv {A B} (f : A -> result B) (m : result A) (b : B) :
  (m ≫= f) = Ok b -> exists a, m = Ok a /\ f a = Ok b.
Proof. destruct m as [a|msg]; [eauto | discriminate]. Qed.

Lemma CHECK_Ok_inv c msg u : CHECK c msg = Ok u -> c = true.
Proof. destruct c; [reflexivity | discriminate]. Qed.

Lemma is_Fatal_bind {A B} (f : A -> result B) (m : result A) :
  is_Fatal m -> is_Fatal (m ≫= f).
Proof. destruct m; simpl; [tauto | trivial]. Qed.

Lemma foldM_cons {A B} (f : B -> A -> result B) b a l :
  foldM f b (a :: l) = (f b a ≫= fun b' => foldM f b' l).
Proof. reflexivity. Qed.

Lemma foldM_app {A B} (f : B -> A -> result B) b l1 l2 :
  foldM f b (l1 ++ l2) = (foldM f b l1 ≫= fun b' => foldM f b' l2).
Proof.
  revert b. induction l1 as [|a l1 IH]; intros b; simpl; [reflexivity|].
  destruct (f b a) as [b'|msg]; simpl; [apply IH | reflexivity].
Qed.

Lemma mapM_result_Ok {A B} (f : A -> result B) (g : A -> B) (l : list A) :
  (forall a, a ∈ l -> f a = Ok (g a)) -> mapM_result f l = Ok (g <$> l).
Proof.
  induction l as [|a l IH]; intros H; [reflexivity|].
  simpl. rewrite (H a) by left. rewrite bind_Ok, IH; [reflexivity|].
  intros b Hb. apply H. right. exact Hb.
Qed.

(** Runs the checks whose outcome is known. *)
Ltac step_checks :=
  repeat first [ rewrite bind_Ok | rewrite bind_Fatal
               | progress cbv beta iota delta [CHECK] | progress cbn [negb] ].

(** ** Lists *)

Lemma fmap_bind_list {A B C} (f : B -> C) (g : A -> list B) (l : list A) :
  f <$> (l ≫= g) = l ≫= (fun x => f <$> g x).
Proof.
  induction l as [|x l IH]; [reflexivity|].
  rewrite !bind_cons, fmap_app, IH. reflexivity.
Qed.

Lemma fmap_ext_in {A B} (f g : A -> B) (l : list A) :
  (forall a, a ∈ l -> f a = g a) -> f <$> l = g <$> l.
Proof.
  intros H. apply list_fmap_ext. intros i a Ha. apply H. eapply list_elem_of_lookup_2, Ha.
Qed.

Lemma insert_middle {A} (pre post : list A) x y :
  <[length pre := y]> (pre ++ x :: post) = pre ++ y :: post.
Proof.
  rewrite insert_app_r_alt by lia. rewrite Nat.sub_diag. reflexivity.
Qed.

Lemma zip_add_inj b k k' :
  length k = length b -> length k' = length b ->
  zip_with Z.add b k = zip_with Z.add b k' -> k = k'.
Proof.
  revert k k'. induction b as [|p b IH]; intros k k' Hk Hk' E.
  - destruct k, k'; try discriminate. reflexivity.
  - destruct k as [|x k], k' as [|x' k']; try discriminate.
    simpl in *. inversion E. f_equal; [lia|]. apply IH; auto with lia.
Qed.

Lemma seqZ_blocks (d T : Z) :
  0 <= d -> 0 <= T -> (i ← seqZ 0 d; seqZ (i * T) T) = seqZ 0 (d * T).
Proof.
  intros Hd HT. rewrite <- (Z2Nat.id d Hd). generalize (Z.to_nat d) as n. clear d Hd.
  induction n as [|n IH].
  - reflexivity.
  - rewrite seqZ_S, bind_app, IH. simpl. rewrite app_nil_r.
    replace (Z.of_nat (S n) * T) with (Z.of_nat n * T + T) by lia.
    rewrite (seqZ_app 0) by lia. reflexivity.
Qed.

Lemma sum_list_Z_nonneg l : Forall (Z.le 0) l -> 0 <= sum_list_Z l.
Proof. induction 1; simpl; lia. Qed.

Lemma sum_list_Z_replicate n z : sum_list_Z (replicate n z) = Z.of_nat n * z.
Proof.
  induction n as [|n IH]; [reflexivity|].
  cbn [replicate sum_list_Z foldr]. fold (sum_list_Z (replicate n z)). lia.
Qed.

(** ** Machine integers *)

Lemma to_int_id z : fits_int z -> to_int z = z.
Proof.
  unfold fits_int, to_int. intros H.
  rewrite Z.mod_small by lia. lia.
Qed.

Lemma to_int_fits z : fits_int (to_int z).
Proof.
  unfold fits_int, to_int.
  pose proof (Z.mod_pos_bound (z + 2 ^ 31) (2 ^ 32) ltac:(lia)). lia.
Qed.

Lemma to_int_0 : to_int 0 = 0.
Proof. reflexivity. Qed.

Lemma to_int_cong a b : a mod 2 ^ 32 = b mod 2 ^ 32 -> to_int a = to_int b.
Proof.
  unfold to_int. intros H. f_equal.
  rewrite <- (Zplus_mod_idemp_l a), <- (Zplus_mod_idemp_l b), H. reflexivity.
Qed.

Lemma to_int_mod z : to_int z mod 2 ^ 32 = z mod 2 ^ 32.
Proof.
  unfold to_int.
  rewrite <- Zminus_mod_idemp_l.
  rewrite Z.mod_mod by lia.
  rewrite Zminus_mod_idemp_l. f_equal. lia.
Qed.

(** Narrowing after each multiplication is narrowing once at the end. *)
Lemma to_int_mul_l a b : to_int (to_int a * b) = to_int (a * b).
Proof.
  apply to_int_cong.
  rewrite <- Zmult_mod_idemp_l, to_int_mod, Zmult_mod_idemp_l. reflexivity.
Qed.

(** An [int] that is negative is above every [size()] once converted. *)
Lemma to_size_t_le_iff d n :
  fits_int d -> 0 <= n < 2 ^ 31 -> (to_size_t d <= n <-> 0 <= d <= n).
Proof.
  unfold fits_int, to_size_t. intros Hd Hn.
  destruct (Z_lt_le_dec d 0) as [Hneg|Hpos].
  - replace (d mod 2 ^ 64) with (d + 2 ^ 64).
    + lia.
    + apply (Z.mod_unique_pos _ _ (-1)); lia.
  - rewrite Z.mod_small by lia. lia.
Qed.

(** ** Shapes *)

Lemma GetTotalSize_cons d ds : GetTotalSize (d :: ds) = d * GetTotalSize ds.
Proof. reflexivity. Qed.

Lemma GetTotalSize_app s1 s2 : GetTotalSize (s1 ++ s2) = GetTotalSize s1 * GetTotalSize s2.
Proof.
  unfold GetTotalSize. induction s1 as [|d s1 IH]; simpl; [lia|]. rewrite IH. lia.
Qed.

Lemma GetTotalSize_pos s : Forall (fun d => 0 < d) s -> 0 < GetTotalSize s.
Proof. unfold GetTotalSize. induction 1; simpl; nia. Qed.

Lemma GetTotalSize_nonneg s : Forall (Z.le 0) s -> 0 <= GetTotalSize s.
Proof. unfold GetTotalSize. induction 1; simpl; nia. Qed.

Lemma factor_le_total l d : Forall (fun d => 0 < d) l -> d ∈ l -> d <= GetTotalSize l.
Proof.
  intros HF. induction HF as [|x l Hx HF IH]; intros Hin; [inversion Hin|].
  pose proof (GetTotalSize_pos _ HF) as Hl.
  rewrite GetTotalSize_cons.
  apply elem_of_cons in Hin as [->|Hin]; [nia|]. specialize (IH Hin). nia.
Qed.

Lemma positive_fit l :
  Forall (fun d => 0 < d) l -> GetTotalSize l < 2 ^ 31 -> Forall (fun d => 0 < d < 2 ^ 31) l.
Proof.
  intros HF HP. apply Forall_forall. intros d Hd.
  pose proof (factor_le_total l d HF Hd). rewrite Forall_forall in HF.
  specialize (HF d Hd). lia.
Qed.

(** The product kept in an [int] is the product, narrowed. *)
Lemma int_product_total acc ds : int_product (to_int acc) ds = to_int (acc * GetTotalSize ds).
Proof.
  revert acc. induction ds as [|d ds IH]; intros acc.
  - unfold int_product. simpl. f_equal. change (GetTotalSize []) with 1. lia.
  - unfold int_product in *. cbn [foldl]. rewrite to_int_mul_l, IH.
    f_equal. rewrite GetTotalSize_cons. lia.
Qed.

(** ** Row-major addressing *)

Lemma in_range_nonneg s idx : in_range s idx -> Forall (Z.le 0) s.
Proof. induction 1; constructor; [lia | assumption]. Qed.

Lemma in_range_length s idx : in_range s idx -> length idx = length s.
Proof. intros H. symmetry. eapply Forall2_length, H. Qed.

Lemma in_range_insert s idx ax d i :
  in_range s idx -> 0 <= i < d -> in_range (<[ax := d]> s) (<[ax := i]> idx).
Proof.
  intros H. revert ax. induction H as [|d0 i0 ds idx0 Hi Hr IH]; intros ax Hd.
  - destruct ax; constructor.
  - destruct ax as [|ax]; simpl; constructor; auto.
    apply IH, Hd.
Qed.

Lemma in_range_lookup s idx ax d :
  in_range s idx -> s !! ax = Some d -> exists i, idx !! ax = Some i /\ 0 <= i < d.
Proof.
  intros H. revert ax. induction H as [|d0 i0 ds idx0 Hi Hr IH]; intros ax Hd.
  - discriminate.
  - destruct ax as [|ax]; simpl in *; [inversion Hd; subst; eauto | eauto].
Qed.

Lemma in_range_shift s b a idx :
  length b = length s -> length a = length s ->
  Forall (Z.le 0) b -> Forall (Z.le 0) a -> in_range s idx ->
  in_range (zip_with Z.add s (zip_with Z.add b a)) (zip_with Z.add b idx).
Proof.
  intros Hb Ha Fb Fa H. revert b a Hb Ha Fb Fa.
  induction H as [|d i ds idx Hi Hr IH]; intros b a Hb Ha Fb Fa.
  - destruct b; [constructor | discriminate].
  - destruct b as [|p b]; [discriminate|]. destruct a as [|q a]; [discriminate|].
    inversion Fb; inversion Fa; subst. simpl in *.
    constructor; [lia|]. apply IH; auto with lia.
Qed.

Lemma lin_bounds s idx : in_range s idx -> 0 <= lin s idx < GetTotalSize s.
Proof.
  induction 1 as [|d i ds idx Hi _ IH]; [change (GetTotalSize []) with 1; simpl; lia|].
  rewrite GetTotalSize_cons. simpl. nia.
Qed.

(** Two positions of an array with the same offset are the same. *)
Lemma lin_inj s idx idx' :
  in_range s idx -> in_range s idx' -> lin s idx = lin s idx' -> idx = idx'.
Proof.
  intros H. revert idx'. induction H as [|d i ds idx Hi Hr IH]; intros idx' H' E.
  - inversion H'. reflexivity.
  - inversion H' as [|d' i' ds' idx2 Hi' Hr']; subst. simpl in E.
    pose proof (lin_bounds _ _ Hr). pose proof (lin_bounds _ _ Hr').
    assert (i = i') by nia. subst i'.
    f_equal. apply IH; [assumption | lia].
Qed.

Lemma elem_of_all_indices s idx : idx ∈ all_indices s <-> in_range s idx.
Proof.
  revert idx. induction s as [|d ds IH]; intros idx; simpl.
  - rewrite list_elem_of_singleton. split; [intros ->; constructor | inversion 1; reflexivity].
  - rewrite list_elem_of_bind. split.
    + intros (i & Hin & Hi). apply list_elem_of_fmap in Hin as (idx' & -> & Hidx').
      apply elem_of_seqZ in Hi. constructor; [lia | apply IH, Hidx'].
    + inversion 1 as [|d' i ds' idx' Hi Hr]; subst. exists i. split.
      * apply list_elem_of_fmap. exists idx'. split; [reflexivity | apply IH, Hr].
      * apply elem_of_seqZ. lia.
Qed.

(** The enumeration of the multi-indices is in the order of the offsets. *)
Lemma lin_all_indices s :
  Forall (Z.le 0) s -> lin s <$> all_indices s = seqZ 0 (GetTotalSize s).
Proof.
  induction 1 as [|d ds Hd HF IH]; [reflexivity|].
  rewrite GetTotalSize_cons, <- seqZ_blocks by (auto using GetTotalSize_nonneg).
  cbn [all_indices]. rewrite fmap_bind_list.
  apply list_bind_ext; [|reflexivity]. intros i.
  rewrite <- list_fmap_compose.
  replace (seqZ (i * GetTotalSize ds) (GetTotalSize ds))
    with (Z.add (i * GetTotalSize ds) <$> seqZ 0 (GetTotalSize ds))
    by (rewrite fmap_add_seqZ; f_equal; lia).
  rewrite <- IH, <- list_fmap_compose. reflexivity.
Qed.

Lemma length_all_indices s :
  Forall (Z.le 0) s -> length (all_indices s) = Z.to_nat (GetTotalSize s).
Proof.
  intros H. rewrite <- (length_fmap (lin s)), lin_all_indices, length_seqZ by exact H.
  reflexivity.
Qed.

Lemma NoDup_all_indices s : Forall (Z.le 0) s -> NoDup (all_indices s).
Proof.
  intros H. apply (NoDup_fmap_1 (lin s)). rewrite lin_all_indices by exact H.
  apply NoDup_seqZ.
Qed.

Lemma all_indices_lookup_lin s n idx :
  Forall (Z.le 0) s -> all_indices s !! n = Some idx -> lin s idx = Z.of_nat n.
Proof.
  intros HF H.
  assert (E : (lin s <$> all_indices s) !! n = Some (lin s idx))
    by (rewrite list_lookup_fmap, H; reflexivity).
  rewrite lin_all_indices in E by exact HF. apply lookup_seqZ in E. lia.
Qed.

Lemma all_indices_lookup s idx :
  in_range s idx -> all_indices s !! Z.to_nat (lin s idx) = Some idx.
Proof.
  intros H. pose proof (in_range_nonneg _ _ H) as HF.
  pose proof H as Hin. apply elem_of_all_indices, list_elem_of_lookup_1 in Hin as [n Hn].
  pose proof (all_indices_lookup_lin s n idx HF Hn) as E. rewrite E, Nat2Z.id. exact Hn.
Qed.

(** Reading every element in row-major order gives back the elements. *)
Lemma read_all (a : Array) :
  wf a -> (fun idx => elem (data a) (lin (shape a) idx)) <$> all_indices (shape a) = data a.
Proof.
  intros [HF Hlen]. apply list_eq. intros n. rewrite list_lookup_fmap.
  destruct (all_indices (shape a) !! n) as [idx|] eqn:E; simpl.
  - pose proof (all_indices_lookup_lin _ _ _ HF E) as Hl.
    apply lookup_lt_Some in E. rewrite length_all_indices in E by exact HF.
    unfold elem. rewrite Hl, Nat2Z.id.
    destruct (data a !! n) eqn:E2; [reflexivity|].
    apply lookup_ge_None in E2. lia.
  - apply lookup_ge_None in E. rewrite length_all_indices in E by exact HF.
    symmetry. apply lookup_ge_None. lia.
Qed.

(** ** Writes through a view *)

Lemma scatter_cons w ws buf : scatter (w :: ws) buf = scatter ws (<[w.1 := w.2]> buf).
Proof. reflexivity. Qed.

Lemma length_scatter ws buf : length (scatter ws buf) = length buf.
Proof.
  revert buf. induction ws as [|w ws IH]; intros buf; [reflexivity|].
  rewrite scatter_cons, IH, length_insert. reflexivity.
Qed.

(** An offset that is not written keeps its element. *)
Lemma scatter_lookup_notin ws buf (p : nat) :
  p ∉ ws.*1 -> scatter ws buf !! p = buf !! p.
Proof.
  revert buf. induction ws as [|w ws IH]; intros buf Hp; [reflexivity|].
  rewrite fmap_cons in Hp. apply not_elem_of_cons in Hp as [Hne Hp].
  rewrite scatter_cons, IH by exact Hp. apply list_lookup_insert_ne. congruence.
Qed.

(** An offset written once holds what was written. *)
Lemma scatter_lookup_in ws buf (p : nat) (x : Q) :
  NoDup ws.*1 -> (p, x) ∈ ws -> (p < length buf)%nat -> scatter ws buf !! p = Some x.
Proof.
  revert buf. induction ws as [|w ws IH]; intros buf Hnd Hin Hp; [inversion Hin|].
  rewrite fmap_cons in Hnd. apply NoDup_cons in Hnd as [Hw Hnd].
  rewrite scatter_cons.
  apply elem_of_cons in Hin as [<- | Hin].
  - simpl in *. rewrite scatter_lookup_notin by exact Hw.
    apply list_lookup_insert_eq. exact Hp.
  - apply IH; [exact Hnd | exact Hin | rewrite length_insert; exact Hp].
Qed.

Lemma Reshape_Ok_shape a s r :
  Reshape a s = Ok r -> shape r = s /\ data r = data a /\ dtype r = dtype a.
Proof.
  unfold Reshape. destruct (_ =? _); [|discriminate].
  intros H. inversion H. auto.
Qed.

Lemma Reshape_Ok_size a s r :
  Reshape a s = Ok r -> GetTotalSize s = GetTotalSize (shape a).
Proof.
  unfold Reshape. destruct (_ =? _) eqn:E; [|discriminate].
  intros _. apply Z.eqb_eq, E.
Qed.

Lemma Reshape_size a s :
  GetTotalSize s = GetTotalSize (shape a) ->
  Reshape a s = Ok (MakeArray (dtype a) s (data a)).
Proof. intros E. unfold Reshape. rewrite E, Z.eqb_refl. reflexivity. Qed.

Lemma Reshape_size_fatal a s :
  GetTotalSize s <> GetTotalSize (shape a) -> is_Fatal (Reshape a s).
Proof.
  intros E. unfold Reshape.
  replace (GetTotalSize s =? GetTotalSize (shape a)) with false
    by (symmetry; apply Z.eqb_neq, E).
  exact I.
Qed.

(** ** Clip *)

Lemma Clip_elem (lo hi v : Q) :
  (Qopp (Qmax (Qopp (Qmax v lo)) (Qopp hi)) == Qmin (Qmax v lo) hi)%Q.
Proof.
  destruct (Q.max_spec v lo) as [[H1 E1]|[H1 E1]];
  destruct (Q.max_spec (- Qmax v lo) (- hi)) as [[H2 E2]|[H2 E2]];
  destruct (Q.min_spec (Qmax v lo) hi) as [[H3 E3]|[H3 E3]];
  rewrite E2, E3; lra.
Qed.

Lemma data_ClipOp lo hi x :
  data (ClipOp_RunImpl lo hi x) =
  (fun v => cast (dtype x)
              (- Qmax (cast (dtype x) (- Qmax v (cast (dtype x) lo)))
                      (cast (dtype x) (- hi)))) <$> data x.
Proof.
  unfold ClipOp_RunImpl, Negate, Maximum. simpl.
  rewrite <- !list_fmap_compose. reflexivity.
Qed.

(** Conversions that change nothing. *)
Lemma cast_float dt v : is_float dt -> cast dt v = v.
Proof. intros [->| ->]; reflexivity. Qed.

Lemma integral_inv q : integral q -> exists z, (q == inject_Z z)%Q.
Proof. intros H. exists (Qfloor q). symmetry. exact H. Qed.

Lemma Qtrunc_integer q z : (q == inject_Z z)%Q -> Qtrunc q = z.
Proof.
  destruct q as [n d]. unfold Qeq, Qtrunc. cbn [Qnum Qden inject_Z].
  intros H. replace n with (z * Z.pos d) by lia.
  apply Z.quot_mul. lia.
Qed.

Lemma cast_signed dt L q z :
  signed_bound dt = Some L -> (q == inject_Z z)%Q -> - L <= z < L ->
  cast dt q = inject_Z z.
Proof.
  intros HL Hq Hz. unfold cast. rewrite (Qtrunc_integer q z Hq).
  destruct dt; inversion HL; subst L; cbn [int_range]; f_equal;
    rewrite Z.mod_small by lia; lia.
Qed.

Lemma Qmax_integer q1 q2 a b :
  (q1 == inject_Z a)%Q -> (q2 == inject_Z b)%Q ->
  (Qmax q1 q2 == inject_Z (Z.max a b))%Q.
Proof.
  intros H1 H2.
  destruct (Q.max_spec q1 q2) as [[Hlt E]|[Hle E]]; rewrite E.
  - rewrite H1, H2 in Hlt. rewrite <- Zlt_Qlt in Hlt.
    rewrite Z.max_r by lia. exact H2.
  - rewrite H1, H2 in Hle. rewrite <- Zle_Qle in Hle.
    rewrite Z.max_l by lia. exact H1.
Qed.

(** On the inputs of [clip_exact], the kernel computes its formula on the
    rationals. *)
Lemma ClipOp_elem (lo hi : Q) (x : Array) (i : nat) (v : Q) :
  data x !! i = Some v ->
  clip_exact (dtype x) lo hi v ->
  exists r,
    data (ClipOp_RunImpl lo hi x) !! i = Some r /\
    (r == - Qmax (- Qmax v lo) (- hi))%Q.
Proof.
  intros Hv Hex. rewrite data_ClipOp, list_lookup_fmap, Hv. cbn [fmap option_fmap option_map].
  eexists. split; [reflexivity|].
  unfold clip_exact in Hex. destruct (signed_bound (dtype x)) as [L|] eqn:HL.
  - destruct Hex as (Il & Ih & Iv & Hl1 & Hl2 & Hh1 & Hh2 & Hv1 & Hv2).
    apply integral_inv in Il as [zl El]. apply integral_inv in Ih as [zh Eh].
    apply integral_inv in Iv as [zv Ev].
    rewrite El in Hl1, Hl2. rewrite Eh in Hh1, Hh2. rewrite Ev in Hv1, Hv2.
    rewrite <- Zlt_Qlt in Hl1, Hl2, Hh1, Hh2, Hv2. rewrite <- Zle_Qle in Hv1.
    rewrite (cast_signed _ L lo zl HL El) by lia.
    pose proof (Qmax_integer v (inject_Z zl) zv zl Ev (Qeq_refl _)) as E1.
    assert (E1' : (- Qmax v (inject_Z zl) == inject_Z (- Z.max zv zl))%Q)
      by (rewrite E1, inject_Z_opp; reflexivity).
    rewrite (cast_signed _ L _ _ HL E1') by lia.
    assert (Eh' : (- hi == inject_Z (- zh))%Q) by (rewrite Eh, inject_Z_opp; reflexivity).
    rewrite (cast_signed _ L _ _ HL Eh') by lia.
    pose proof (Qmax_integer _ _ _ _ (Qeq_refl (inject_Z (- Z.max zv zl)))
                  (Qeq_refl (inject_Z (- zh)))) as E2.
    assert (E2' : (- Qmax (inject_Z (- Z.max zv zl)) (inject_Z (- zh))
                   == inject_Z (- Z.max (- Z.max zv zl) (- zh)))%Q)
      by (rewrite E2, inject_Z_opp; reflexivity).
    rewrite (cast_signed _ L _ _ HL E2') by lia.
    pose proof (Qmax_integer v lo zv zl Ev El) as F1.
    assert (F1' : (- Qmax v lo == inject_Z (- Z.max zv zl))%Q)
      by (rewrite F1, inject_Z_opp; reflexivity).
    pose proof (Qmax_integer _ _ _ _ F1' Eh') as F2.
    rewrite F2, inject_Z_opp. reflexivity.
  - rewrite !(cast_float _ _ Hex). reflexivity.
Qed.

(** C8: for attributes [min <= max], the formula of the Clip kernel,
    [-max(-max(x, min), -max)], computes at every element position [i] the
    clamp of [x[i]] to the interval from [min] to [max]: the result equals
    [min(max(x[i], min), max)], lies in the interval, and is [x[i]] itself
    when that lies in the interval; shape and element count are kept.
    This is so on a floating array, and on a signed integer array as long
    as both bounds are integers strictly between [-L] and [L], [-L] being
    the least value of the dtype. *)
Theorem ClipOp_clamps (lo hi : Q) (x : Array) (i : nat) (v : Q) :
  (lo <= hi)%Q ->
  data x !! i = Some v ->
  clip_exact (dtype x) lo hi v ->
  exists r,
    data (ClipOp_RunImpl lo hi x) !! i = Some r /\
    (r == Qmin (Qmax v lo) hi)%Q /\
    (lo <= r)%Q /\ (r <= hi)%Q /\
    ((lo <= v)%Q -> (v <= hi)%Q -> (r == v)%Q) /\
    shape (ClipOp_RunImpl lo hi x) = shape x /\
    length (data (ClipOp_RunImpl lo hi x)) = length (data x).
Proof.
  intros Hle Hv Hex.
  destruct (ClipOp_elem lo hi x i v Hv Hex) as (r & Hr & Er).
  exists r. split; [exact Hr|].
  rewrite Clip_elem in Er.
  split; [exact Er|].
  rewrite data_ClipOp, length_fmap.
  rewrite Er.
  destruct (Q.max_spec v lo) as [[H1 E1]|[H1 E1]];
  destruct (Q.min_spec (Qmax v lo) hi) as [[H3 E3]|[H3 E3]];
  rewrite E3; repeat split; intros; try lra.
Qed.

Lemma ClipOp_clamps_witness :
  (0 <= 6)%Q /\ data data_3 !! 2%nat = Some 7%Q /\
  clip_exact (dtype data_3) 0 6 7 /\
  (exists r,
    data (ClipOp_RunImpl 0 6 data_3) !! 2%nat = Some r /\
    (r == Qmin (Qmax 7 0) 6)%Q /\
    (0 <= r)%Q /\ (r <= 6)%Q /\
    ((0 <= 7)%Q -> (7 <= 6)%Q -> (r == 7)%Q) /\
    shape (ClipOp_RunImpl 0 6 data_3) = shape data_3 /\
    length (data (ClipOp_RunImpl 0 6 data_3)) = length (data data_3)) /\
  data int32_3 !! 0%nat = Some (-1)%Q /\
  clip_exact (dtype int32_3) 0 6 (-1) /\
  (exists r,
    data (ClipOp_RunImpl 0 6 int32_3) !! 0%nat = Some r /\
    (r == Qmin (Qmax (-1) 0) 6)%Q /\
    (0 <= r)%Q /\ (r <= 6)%Q /\
    ((0 <= -1)%Q -> (-1 <= 6)%Q -> (r == -1)%Q) /\
    shape (ClipOp_RunImpl 0 6 int32_3) = shape int32_3 /\
    length (data (ClipOp_RunImpl 0 6 int32_3)) = length (data int32_3)).
Proof.
  assert (H : (0 <= 6)%Q) by (unfold Qle; simpl; lia).
  assert (Hex : clip_exact (dtype data_3) 0 6 7) by (left; reflexivity).
  assert (Hex' : clip_exact (dtype int32_3) 0 6 (-1))
    by (vm_compute; intuition congruence).
  split; [exact H|]. split; [reflexivity|]. split; [exact Hex|].
  split; [apply (ClipOp_clamps 0 6 data_3 2 7 H); [reflexivity | exact Hex]|].
  split; [reflexivity|]. split; [exact Hex'|].
  apply (ClipOp_clamps 0 6 int32_3 0 (-1)%Q H); [reflexivity | exact Hex'].
Defined.

(** Against C8 as worded, for every input array: on an [int8] array the
    element [-128] with the bounds [-128] and [127] comes out as [127].
    The inner maximum is [-128], whose negation is [-128] again in
    [int8]. *)
Lemma ClipOp_wraps_at_lowest :
  (-128 <= 127)%Q /\
  data int8_lowest = [(-128)%Q] /\
  data (ClipOp_RunImpl (-128) 127 int8_lowest) = [127%Q] /\
  ~ (127 == Qmin (Qmax (-128) (-128)) 127)%Q.
Proof.
  split; [unfold Qle; simpl; lia|]. split; [reflexivity|].
  split; [vm_compute; reflexivity|].
  vm_compute. discriminate.
Qed.

(** ** Max *)

Lemma ElementwiseMax_mismatch a b warned :
  GetTotalSize (shape a) <> GetTotalSize (shape b) ->
  GetTotalSize (shape a) <> 1 -> GetTotalSize (shape b) <> 1 ->
  exists msg, ElementwiseMax a b warned = (warned, Fatal msg).
Proof.
  intros Hne Ha Hb. unfold ElementwiseMax.
  destruct (bool_decide (dtype a = dtype b)); cbn [negb]; [|eauto].
  apply Z.eqb_neq in Hne, Ha, Hb. rewrite Ha, Hb, Hne. cbn [negb]. eauto.
Qed.

(** The only warning ElementwiseMax adds is that of the slow path, which
    comes after all the checks on the sizes. *)
Lemma ElementwiseMax_log a b warned :
  (ElementwiseMax a b warned).1 = warned \/
  ((ElementwiseMax a b warned).1 = WARN_ONCE slow_max_warning warned /\
   GetTotalSize (shape a) = GetTotalSize (shape b) /\
   GetTotalSize (shape a) <> 1 /\ GetTotalSize (shape b) <> 1 /\ dtype a = dtype b).
Proof.
  unfold ElementwiseMax.
  destruct (bool_decide (dtype a = dtype b)) eqn:Ed; cbn [negb]; [|auto].
  apply bool_decide_eq_true in Ed.
  destruct (GetTotalSize (shape a) =? 1) eqn:Ea; [auto|].
  destruct (GetTotalSize (shape b) =? 1) eqn:Eb; [auto|].
  destruct (GetTotalSize (shape a) =? GetTotalSize (shape b)) eqn:Eab; cbn [negb]; [|auto].
  right. apply Z.eqb_neq in Ea, Eb. apply Z.eqb_eq in Eab. auto.
Qed.

Lemma MaxOp_loop_app r l1 l2 warned :
  MaxOp_loop r (l1 ++ l2) warned =
  match MaxOp_loop r l1 warned with
  | (warned', Ok r') => MaxOp_loop r' l2 warned'
  | (warned', Fatal msg) => (warned', Fatal msg)
  end.
Proof.
  revert r warned. induction l1 as [|b l1 IH]; intros r warned; simpl; [reflexivity|].
  destruct (ElementwiseMax r b warned) as [w' [r'|msg]]; [apply IH | reflexivity].
Qed.

(** C7: at a step of the left-to-right fold of Max whose two operands (the
    result so far and the next input) have different total element counts,
    neither of them 1, the run aborts at once: that step is a fatal error,
    the inputs after it are not looked at and nothing more is logged.  The
    per-element fallback loop, which logs its warning on entry, is
    entered only when the two operands have equal total element counts. *)
Theorem MaxOp_size_mismatch_aborts :
  (forall (x : Array) (pre post : list Array) (b r : Array) (warned warned' : list string),
     MaxOp_loop x pre warned = (warned', Ok r) ->
     GetTotalSize (shape r) <> GetTotalSize (shape b) ->
     GetTotalSize (shape r) <> 1 -> GetTotalSize (shape b) <> 1 ->
     exists msg,
       ElementwiseMax r b warned' = (warned', Fatal msg) /\
       MaxOp_RunImpl (x :: pre ++ b :: post) warned = (warned', Fatal msg)) /\
  (forall (a b : Array) (warned : list string),
     slow_max_warning ∉ warned ->
     slow_max_warning ∈ (ElementwiseMax a b warned).1 ->
     GetTotalSize (shape a) = GetTotalSize (shape b)).
Proof.
  split.
  - intros x pre post b r warned warned' Hloop Hne Hr Hb.
    destruct (ElementwiseMax_mismatch r b warned' Hne Hr Hb) as [msg Hmsg].
    exists msg. split; [exact Hmsg|].
    unfold MaxOp_RunImpl. rewrite MaxOp_loop_app, Hloop. simpl. rewrite Hmsg. reflexivity.
  - intros a b warned Hnot Hin.
    destruct (ElementwiseMax_log a b warned) as [E | (_ & E & _)]; [|exact E].
    rewrite E in Hin. contradiction.
Qed.

Lemma MaxOp_size_mismatch_aborts_witness :
  (exists msg,
     ElementwiseMax data_2x3 data_2x2 [slow_max_warning] = ([slow_max_warning], Fatal msg) /\
     MaxOp_RunImpl (data_2x3 :: [data_2x3] ++ data_2x2 :: [data_3]) []
       = ([slow_max_warning], Fatal msg)) /\
  GetTotalSize (shape data_2x3) = GetTotalSize (shape data_2x3).
Proof.
  split.
  - apply (proj1 MaxOp_size_mismatch_aborts data_2x3 [data_2x3] [data_3] data_2x2
             data_2x3 [] [slow_max_warning]).
    + vm_compute. reflexivity.
    + simpl. lia.
    + simpl. lia.
    + simpl. lia.
  - apply (proj2 MaxOp_size_mismatch_aborts data_2x3 data_2x3 []).
    + apply not_elem_of_nil.
    + vm_compute. apply list_elem_of_here.
Defined.

(** ** Reshape *)

Lemma ReshapeOp_round_zero acc a : to_int a = 0 -> is_Fatal (ReshapeOp_round acc a).
Proof.
  intros Ha. destruct acc as [[to idx] i]. unfold ReshapeOp_round.
  rewrite Ha. simpl. trivial.
Qed.

Lemma ReshapeOp_round_Ok to idx i a :
  to_int a <> 0 ->
  ReshapeOp_round (to, idx, i) a =
  Ok (if to_int a <? 0 then (to, i, i + 1) else (to_int (to * to_int a), idx, i + 1)).
Proof.
  intros Ha. unfold ReshapeOp_round.
  destruct (0 =? to_int a) eqn:E; [apply Z.eqb_eq in E; lia|].
  simpl. destruct (to_int a <? 0); reflexivity.
Qed.

(** The loop stops at the first entry that is 0 as an [int]. *)
Lemma scan_zero_entry acc s :
  (exists x, x ∈ s /\ to_int x = 0) -> is_Fatal (foldM ReshapeOp_round acc s).
Proof.
  revert acc. induction s as [|a s IH]; intros acc (x & Hin & Hx).
  - inversion Hin.
  - rewrite foldM_cons. destruct acc as [[to idx] i].
    destruct (Z.eq_dec (to_int a) 0) as [Ha|Ha].
    + apply is_Fatal_bind, ReshapeOp_round_zero, Ha.
    + assert (Hx' : x ∈ s).
      { apply elem_of_cons in Hin as [->|Hin]; [contradiction | exact Hin]. }
      rewrite ReshapeOp_round_Ok by exact Ha. rewrite bind_Ok.
      apply IH; eauto.
Qed.

Lemma positive_dims_cons a s :
  positive_dims (a :: s) =
  if to_int a <? 0 then positive_dims s
  else if to_int a =? 0 then positive_dims s else to_int a :: positive_dims s.
Proof.
  unfold positive_dims. rewrite fmap_cons, filter_cons.
  destruct (to_int a <? 0) eqn:E1;
    [apply Z.ltb_lt in E1; rewrite decide_False by lia; reflexivity|].
  apply Z.ltb_ge in E1.
  destruct (to_int a =? 0) eqn:E2;
    [apply Z.eqb_eq in E2; rewrite decide_False by lia; reflexivity|].
  apply Z.eqb_neq in E2. rewrite decide_True by lia. reflexivity.
Qed.

Lemma positive_dims_pos s : Forall (fun d => 0 < d) (positive_dims s).
Proof.
  unfold positive_dims. apply Forall_forall. intros x Hx%list_elem_of_filter. tauto.
Qed.

(** What the loop leaves behind when it gets through the target shape. *)
Lemma scan_spec s to idx i to' idx' i' :
  foldM ReshapeOp_round (to_int to, idx, i) s = Ok (to', idx', i') ->
  Forall (fun x => to_int x <> 0) s /\
  to' = to_int (to * GetTotalSize (positive_dims s)) /\
  i' = i + Z.of_nat (length s) /\
  (idx' = idx \/ i <= idx' < i').
Proof.
  revert to idx i. induction s as [|a s IH]; intros to idx i H.
  - inversion H; subst; clear H. split; [constructor|].
    split; [f_equal; change (GetTotalSize (positive_dims [])) with 1; lia|].
    simpl. split; [lia | auto].
  - rewrite foldM_cons in H.
    destruct (Z.eq_dec (to_int a) 0) as [Ha|Ha].
    { pose proof (is_Fatal_bind (fun b' => foldM ReshapeOp_round b' s) _
                    (ReshapeOp_round_zero (to_int to, idx, i) a Ha)) as HF.
      rewrite H in HF. destruct HF. }
    rewrite ReshapeOp_round_Ok, bind_Ok in H by exact Ha.
    rewrite positive_dims_cons.
    destruct (to_int a <? 0) eqn:E2.
    + apply IH in H as (HF & -> & -> & Hi).
      split; [constructor; [lia | exact HF]|].
      split; [reflexivity|]. simpl length. lia.
    + rewrite to_int_mul_l in H.
      apply IH in H as (HF & -> & -> & Hi).
      apply Z.eqb_neq in Ha. rewrite Ha.
      split; [constructor; [lia | exact HF]|].
      split; [f_equal; rewrite GetTotalSize_cons; lia|].
      simpl length. lia.
Qed.

(** What the kernel hands to the engine is the target shape with at most
    one entry replaced. *)
Lemma ReshapeOp_shape_cases total s s' :
  ReshapeOp_shape total s = Ok s' ->
  Forall (fun x => to_int x <> 0) s /\
  (s' = s \/
   exists to idx,
     ReshapeOp_scan s = Ok (to, idx, Z.of_nat (length s)) /\
     to = to_int (GetTotalSize (positive_dims s)) /\
     to < to_int total /\ to <> 0 /\ Z.rem (to_int total) to = 0 /\
     0 <= idx < Z.of_nat (length s) /\
     s' = <[Z.to_nat idx := Z.quot (to_int total) to]> s).
Proof.
  unfold ReshapeOp_shape. intros H.
  apply bind_Ok_inv in H as ([[to idx] i] & Hscan & H).
  pose proof Hscan as Hscan'.
  unfold ReshapeOp_scan in Hscan'. change 1 with (to_int 1) in Hscan'.
  apply scan_spec in Hscan' as (HF & Hto & Hi & Hidx).
  split; [exact HF|].
  destruct (to_int total =? to) eqn:E; cbn [negb] in H.
  - left. inversion H. reflexivity.
  - right.
    apply bind_Ok_inv in H as (u1 & H1%CHECK_Ok_inv & H).
    apply bind_Ok_inv in H as (u2 & H2%CHECK_Ok_inv & H).
    apply bind_Ok_inv in H as (u3 & H3%CHECK_Ok_inv & H).
    apply bind_Ok_inv in H as (u4 & H4%CHECK_Ok_inv & H).
    inversion H; subst s'; clear H.
    exists to, idx.
    apply Z.ltb_lt in H1. apply negb_true_iff, Z.eqb_neq in H2.
    apply Z.eqb_eq in H3. apply Z.leb_le in H4.
    rewrite Hi in Hscan. simpl in Hscan.
    split; [exact Hscan|]. split; [rewrite Hto; f_equal; lia|].
    repeat split; try lia.
Qed.

Lemma scan_positive l to idx i :
  Forall (fun d => 0 < d < 2 ^ 31) l ->
  foldM ReshapeOp_round (to_int to, idx, i) l =
  Ok (to_int (to * GetTotalSize l), idx, i + Z.of_nat (length l)).
Proof.
  intros HF. revert to i. induction HF as [|d l Hd HF IH]; intros to i.
  - change (GetTotalSize []) with 1. simpl.
    replace (to * 1) with to by lia. replace (i + Z.of_nat 0) with i by lia. reflexivity.
  - rewrite foldM_cons.
    assert (Hid : to_int d = d) by (apply to_int_id; unfold fits_int; lia).
    rewrite ReshapeOp_round_Ok by lia. rewrite bind_Ok, Hid.
    destruct (d <? 0) eqn:E; [apply Z.ltb_lt in E; lia|].
    rewrite to_int_mul_l, IH, GetTotalSize_cons.
    replace (to * (d * GetTotalSize l)) with (to * d * GetTotalSize l) by lia.
    replace (i + Z.of_nat (length (d :: l))) with (i + 1 + Z.of_nat (length l))
      by (simpl length; lia).
    reflexivity.
Qed.

Lemma scan_one_minus_one pre post :
  Forall (fun d => 0 < d < 2 ^ 31) (pre ++ post) ->
  ReshapeOp_scan (pre ++ -1 :: post) =
  Ok (to_int (GetTotalSize (pre ++ post)), Z.of_nat (length pre),
      Z.of_nat (length (pre ++ -1 :: post))).
Proof.
  intros HF. apply Forall_app in HF as [Hpre Hpost].
  unfold ReshapeOp_scan. rewrite foldM_app.
  change 1 with (to_int 1) at 1. rewrite scan_positive by exact Hpre.
  rewrite bind_Ok, foldM_cons.
  rewrite ReshapeOp_round_Ok by (compute; discriminate).
  rewrite bind_Ok. change (to_int (-1) <? 0) with true. cbn iota.
  rewrite scan_positive by exact Hpost.
  rewrite GetTotalSize_app, !length_app. simpl length.
  replace (0 + Z.of_nat (length pre) + 1 + Z.of_nat (length post))
    with (Z.of_nat (length pre + S (length post))) by lia.
  replace (1 * GetTotalSize pre * GetTotalSize post)
    with (GetTotalSize pre * GetTotalSize post) by lia.
  replace (0 + Z.of_nat (length pre)) with (Z.of_nat (length pre)) by lia.
  reflexivity.
Qed.

(** C2, as the kernel has it: the target shape has exactly one [-1] entry,
    the other entries are positive with a product [P] that fits in an
    [int], and the data has [T] elements, [T] fitting in an [int].  When
    [P < T] and [P] divides [T], the [-1] dimension is resolved to [T / P]
    and the output has the [T] elements of the input; when [P] does not
    divide [T], and whenever [T < P] (empty data included), the run aborts
    with a fatal error.  Nothing is said of [T = P]. *)
Theorem ReshapeOp_minus_one_resolved (a : Array) (pre post : list Z) :
  let T := GetTotalSize (shape a) in
  let P := GetTotalSize (pre ++ post) in
  Forall (fun d => 0 < d) (pre ++ post) -> P < 2 ^ 31 -> 0 <= T < 2 ^ 31 ->
  (P < T -> T mod P = 0 ->
   ReshapeOp_RunImpl a (pre ++ -1 :: post) =
     Ok (MakeArray (dtype a) (pre ++ T / P :: post) (data a)) /\
   GetTotalSize (pre ++ T / P :: post) = T) /\
  (T mod P <> 0 -> is_Fatal (ReshapeOp_RunImpl a (pre ++ -1 :: post))) /\
  (T < P -> is_Fatal (ReshapeOp_RunImpl a (pre ++ -1 :: post))).
Proof.
  intros T P Hpos HP HT.
  pose proof (GetTotalSize_pos _ Hpos) as HP0. fold P in HP0.
  assert (Hscan := scan_one_minus_one pre post (positive_fit _ Hpos HP)).
  fold P in Hscan. rewrite (to_int_id P) in Hscan by (unfold fits_int; lia).
  assert (Hfrom : to_int T = T) by (apply to_int_id; unfold fits_int; lia).
  assert (Hshape : ReshapeOp_shape T (pre ++ -1 :: post) =
            if negb (T =? P) then
              _ ← CHECK (P <? T) "Check `from_total_size' > `to_total_size' failed!";
              _ ← CHECK (negb (P =? 0)) "division by zero";
              _ ← CHECK (0 =? Z.rem T P)
                    "Check `0' == `from_total_size % to_total_size' failed!";
              Ok (pre ++ Z.quot T P :: post)
            else Ok (pre ++ -1 :: post)).
  { unfold ReshapeOp_shape. rewrite Hscan, bind_Ok, Hfrom.
    destruct (T =? P); cbn [negb]; [reflexivity|].
    destruct (P <? T); step_checks; [|reflexivity].
    destruct (P =? 0); step_checks; [reflexivity|].
    destruct (0 =? Z.rem T P); step_checks; [|reflexivity].
    replace (0 <=? Z.of_nat (length pre)) with true by (symmetry; apply Z.leb_le; lia).
    step_checks. rewrite Nat2Z.id, insert_middle. reflexivity. }
  assert (Hrem : Z.rem T P = T mod P) by (apply Z.rem_mod_nonneg; lia).
  assert (Hquot : Z.quot T P = T / P) by (apply Z.quot_div_nonneg; lia).
  unfold ReshapeOp_RunImpl. fold T. rewrite Hshape.
  split; [|split].
  - intros Hlt Hmod.
    assert (Htot : GetTotalSize (pre ++ T / P :: post) = T).
    { rewrite GetTotalSize_app, GetTotalSize_cons.
      unfold P in *. rewrite GetTotalSize_app in *.
      pose proof (Z.div_mod T (GetTotalSize pre * GetTotalSize post) ltac:(lia)). nia. }
    split; [|exact Htot].
    replace (T =? P) with false by (symmetry; apply Z.eqb_neq; lia). cbn [negb].
    replace (P <? T) with true by (symmetry; apply Z.ltb_lt; lia).
    replace (P =? 0) with false by (symmetry; apply Z.eqb_neq; lia).
    rewrite Hrem, Hmod. cbn [Z.eqb]. step_checks. rewrite Hquot.
    unfold Reshape. rewrite Htot. fold T. rewrite Z.eqb_refl. reflexivity.
  - intros Hmod.
    assert (T <> P) by (intros ->; rewrite Z.mod_same in Hmod; lia).
    replace (T =? P) with false by (symmetry; apply Z.eqb_neq; lia). cbn [negb].
    destruct (P <? T); step_checks; [|exact I].
    destruct (P =? 0); step_checks; [exact I|].
    rewrite Hrem. replace (0 =? T mod P) with false by (symmetry; apply Z.eqb_neq; lia).
    exact I.
  - intros Hlt.
    replace (T =? P) with false by (symmetry; apply Z.eqb_neq; lia). cbn [negb].
    replace (P <? T) with false by (symmetry; apply Z.ltb_ge; lia). exact I.
Qed.

Lemma ReshapeOp_minus_one_resolved_witness :
  Forall (fun d => 0 < d) ([] ++ [3]) /\ GetTotalSize ([] ++ [3]) < 2 ^ 31 /\
  0 <= GetTotalSize (shape data_2x3) < 2 ^ 31 /\
  ReshapeOp_RunImpl data_2x3 [-1; 3] =
    Ok (MakeArray kFloat32 [2; 3] [1; 2; 3; 4; 5; 6]%Q) /\
  is_Fatal (ReshapeOp_RunImpl data_2x2 [-1; 3]) /\
  is_Fatal (ReshapeOp_RunImpl data_2x2 [-1; 5]).
Proof.
  assert (H1 : Forall (fun d => 0 < d) ([] ++ [3])) by (repeat constructor).
  assert (H5 : Forall (fun d => 0 < d) ([] ++ [5])) by (repeat constructor).
  assert (H2 : GetTotalSize ([] ++ [3]) < 2 ^ 31) by (vm_compute; reflexivity).
  assert (H6 : GetTotalSize ([] ++ [5]) < 2 ^ 31) by (vm_compute; reflexivity).
  assert (H3 : 0 <= GetTotalSize (shape data_2x3) < 2 ^ 31) by (simpl; lia).
  assert (H4 : 0 <= GetTotalSize (shape data_2x2) < 2 ^ 31) by (simpl; lia).
  split; [exact H1|]. split; [exact H2|]. split; [exact H3|].
  split; [|split].
  - apply (proj1 (ReshapeOp_minus_one_resolved data_2x3 [] [3] H1 H2 H3));
      [simpl; lia | reflexivity].
  - apply (proj1 (proj2 (ReshapeOp_minus_one_resolved data_2x2 [] [3] H1 H2 H4))).
    simpl. discriminate.
  - apply (proj2 (proj2 (ReshapeOp_minus_one_resolved data_2x2 [] [5] H5 H6 H4))).
    simpl. lia.
Defined.

(** Against C2 as worded: on empty data the target [(-1)] is not resolved
    to [0 / 1]; the kernel aborts although 1 divides 0 evenly.  And for the
    target [(6, -1)] on 6 elements the kernel resolves nothing: the shape it
    hands to the engine still has the [-1]. *)
Lemma ReshapeOp_minus_one_unresolved :
  GetTotalSize (shape empty_data) mod 1 = 0 /\
  ReshapeOp_RunImpl empty_data [-1]
    = Fatal "Check `from_total_size' > `to_total_size' failed!" /\
  ReshapeOp_shape (GetTotalSize (shape data_2x3)) [6; -1] = Ok [6; -1].
Proof. repeat split; vm_compute; reflexivity. Qed.

Lemma kernel_keeps_a_minus_one total s s' i j :
  i <> j -> s !! i = Some (-1) -> s !! j = Some (-1) ->
  ReshapeOp_shape total s = Ok s' -> -1 ∈ s'.
Proof.
  intros Hij Hi Hj H.
  apply ReshapeOp_shape_cases in H as (_ & [-> | (to & idx & _ & _ & _ & _ & _ & _ & ->)]).
  - eapply list_elem_of_lookup_2, Hi.
  - destruct (decide (Z.to_nat idx = i)) as [E|E].
    + apply (list_elem_of_lookup_2 _ j). rewrite list_lookup_insert_ne by congruence. exact Hj.
    + apply (list_elem_of_lookup_2 _ i). rewrite list_lookup_insert_ne by congruence. exact Hi.
Qed.

Lemma scan_two_minus_ones pre mid post :
  Forall (fun d => 0 < d < 2 ^ 31) (pre ++ mid ++ post) ->
  ReshapeOp_scan (pre ++ -1 :: mid ++ -1 :: post) =
  Ok (to_int (GetTotalSize (pre ++ mid ++ post)),
      Z.of_nat (length pre + S (length mid)),
      Z.of_nat (length (pre ++ -1 :: mid ++ -1 :: post))).
Proof.
  intros HF. apply Forall_app in HF as [Hpre HF]. apply Forall_app in HF as [Hmid Hpost].
  unfold ReshapeOp_scan. rewrite foldM_app.
  change 1 with (to_int 1) at 1. rewrite scan_positive by exact Hpre.
  rewrite bind_Ok, foldM_cons.
  rewrite ReshapeOp_round_Ok by (compute; discriminate).
  rewrite bind_Ok. change (to_int (-1) <? 0) with true. cbn iota.
  rewrite foldM_app, scan_positive by exact Hmid.
  rewrite bind_Ok, foldM_cons.
  rewrite ReshapeOp_round_Ok by (compute; discriminate).
  rewrite bind_Ok. change (to_int (-1) <? 0) with true. cbn iota.
  rewrite scan_positive by exact Hpost.
  rewrite !GetTotalSize_app, !length_app. cbn [length]. rewrite !length_app. cbn [length].
  f_equal. f_equal; [f_equal|]; [f_equal; lia | lia | lia].
Qed.

(** A target shape with two [-1] entries, the other entries positive with
    a product [P] that fits in an [int], on data of [T] elements: the
    kernel aborts when [T] differs from [P], and hands the target shape to
    the engine as it is when [T = P]; the two [-1] cancel in the product,
    and the reshaped array has two negative dimensions. *)
Lemma ReshapeOp_two_minus_ones_cases (a : Array) (pre mid post : list Z) :
  let s := pre ++ -1 :: mid ++ -1 :: post in
  let T := GetTotalSize (shape a) in
  let P := GetTotalSize (pre ++ mid ++ post) in
  Forall (fun d => 0 < d) (pre ++ mid ++ post) -> P < 2 ^ 31 -> 0 <= T < 2 ^ 31 ->
  (T = P -> ReshapeOp_RunImpl a s = Ok (MakeArray (dtype a) s (data a))) /\
  (T <> P -> is_Fatal (ReshapeOp_RunImpl a s)).
Proof.
  intros s T P Hpos HP HT.
  pose proof (GetTotalSize_pos _ Hpos) as HP0. fold P in HP0.
  assert (Hscan := scan_two_minus_ones pre mid post (positive_fit _ Hpos HP)).
  fold P in Hscan. fold s in Hscan.
  rewrite (to_int_id P) in Hscan by (unfold fits_int; lia).
  assert (Hfrom : to_int T = T) by (apply to_int_id; unfold fits_int; lia).
  assert (Htot : GetTotalSize s = P).
  { unfold s, P. rewrite !GetTotalSize_app, !GetTotalSize_cons, !GetTotalSize_app,
      !GetTotalSize_cons. lia. }
  unfold ReshapeOp_RunImpl, ReshapeOp_shape. fold T. rewrite Hscan, bind_Ok, Hfrom.
  split.
  - intros E. rewrite E, Z.eqb_refl. cbn [negb]. rewrite bind_Ok.
    apply Reshape_size. rewrite Htot. fold T. lia.
  - intros E. replace (T =? P) with false by (symmetry; apply Z.eqb_neq; lia). cbn [negb].
    destruct (P <? T) eqn:E1; step_checks; [|exact I]. apply Z.ltb_lt in E1.
    destruct (P =? 0); step_checks; [exact I|].
    destruct (0 =? Z.rem T P) eqn:E2; step_checks; [|exact I]. apply Z.eqb_eq in E2.
    replace (0 <=? Z.of_nat (length pre + S (length mid))) with true
      by (symmetry; apply Z.leb_le; lia).
    step_checks. rewrite Nat2Z.id.
    apply Reshape_size_fatal. fold T.
    unfold s.
    replace (pre ++ -1 :: mid ++ -1 :: post) with ((pre ++ -1 :: mid) ++ -1 :: post)
      by (rewrite <- app_assoc; reflexivity).
    replace (length pre + S (length mid))%nat with (length (pre ++ -1 :: mid))
      by (rewrite length_app; reflexivity).
    rewrite insert_middle.
    repeat (rewrite GetTotalSize_app || rewrite GetTotalSize_cons).
    unfold P in *. rewrite !GetTotalSize_app in *.
    pose proof (Z.quot_rem' T (GetTotalSize pre * (GetTotalSize mid * GetTotalSize post))) as Hq.
    rewrite <- E2 in Hq. nia.
Qed.


(** A target shape with a 0 entry aborts the run, whatever the data. *)
Lemma ReshapeOp_zero_entry a s : 0 ∈ s -> is_Fatal (ReshapeOp_RunImpl a s).
Proof.
  intros H0. unfold ReshapeOp_RunImpl, ReshapeOp_shape.
  do 2 apply is_Fatal_bind. apply scan_zero_entry. exists 0. auto using to_int_0.
Qed.

(** As long as the product of the positive entries fits in an [int], no
    dimension of a reshaped array is 0. *)
Lemma ReshapeOp_no_zero_dimension a s r :
  GetTotalSize (positive_dims s) < 2 ^ 31 ->
  ReshapeOp_RunImpl a s = Ok r -> 0 ∉ shape r.
Proof.
  intros HP H. unfold ReshapeOp_RunImpl in H.
  apply bind_Ok_inv in H as (s' & Hs' & H).
  apply Reshape_Ok_shape in H as (-> & _).
  pose proof (GetTotalSize_pos _ (positive_dims_pos s)) as Hpos.
  apply ReshapeOp_shape_cases in Hs'
    as (HF & [-> | (to & idx & _ & Hto & Hlt & _ & Hrem & Hidx & ->)]).
  - intros H0. rewrite Forall_forall in HF. apply (HF 0 H0). reflexivity.
  - rewrite to_int_id in Hto by (unfold fits_int; lia).
    intros H0. apply list_elem_of_lookup_1 in H0 as [n Hn].
    apply list_lookup_insert_Some in Hn as [(_ & Hq & _) | (_ & Hn)].
    + pose proof (Z.quot_rem' (to_int (GetTotalSize (shape a))) to) as Hqr.
      nia.
    + rewrite Forall_forall in HF.
      apply (HF 0); [eapply list_elem_of_lookup_2, Hn | reflexivity].
Qed.

(** C9 at an input where the [int] product of the target dimensions
    overflows: on empty data and the target [(-1, 65536, 32768)] the
    product wraps to a negative number, all checks pass, the [-1] is
    resolved to [0 / to_total_size = 0], and the reshaped array has a zero
    dimension. *)
Theorem ReshapeOp_zero_dimension_produced :
  ReshapeOp_scan [-1; 65536; 32768] = Ok (- 2 ^ 31, 0, 3) /\
  ReshapeOp_RunImpl empty_data [-1; 65536; 32768] =
    Ok (MakeArray kFloat32 [0; 65536; 32768] []).
Proof. split; vm_compute; reflexivity. Qed.

(** ** Unsqueeze *)

Lemma UnsqueezeOp_insert_in_bounds sh axis :
  Z.of_nat (length sh) < 2 ^ 31 ->
  0 <= to_int axis <= Z.of_nat (length sh) ->
  UnsqueezeOp_insert sh axis =
  Ok (take (Z.to_nat (to_int axis)) sh ++ 1 :: drop (Z.to_nat (to_int axis)) sh).
Proof.
  intros Hlen Hd. unfold UnsqueezeOp_insert.
  replace (to_size_t (to_int axis) <=? Z.of_nat (length sh)) with true; [reflexivity|].
  symmetry. apply Z.leb_le, to_size_t_le_iff; [apply to_int_fits | lia | lia].
Qed.

Lemma UnsqueezeOp_insert_out_of_bounds sh axis :
  Z.of_nat (length sh) < 2 ^ 31 ->
  to_int axis < 0 \/ Z.of_nat (length sh) < to_int axis ->
  UnsqueezeOp_insert sh axis = Fatal "Unsqueezing axis out of bound".
Proof.
  intros Hlen Hd. unfold UnsqueezeOp_insert.
  replace (to_size_t (to_int axis) <=? Z.of_nat (length sh)) with false; [reflexivity|].
  symmetry. apply Z.leb_gt.
  pose proof (to_size_t_le_iff (to_int axis) (Z.of_nat (length sh))
                (to_int_fits axis) ltac:(lia)).
  lia.
Qed.

Lemma UnsqueezeOp_insert_preserves sh axis sh' :
  UnsqueezeOp_insert sh axis = Ok sh' ->
  length sh' = S (length sh) /\ GetTotalSize sh' = GetTotalSize sh /\
  (Forall (Z.le 0) sh -> Forall (Z.le 0) sh').
Proof.
  unfold UnsqueezeOp_insert. intros H.
  apply bind_Ok_inv in H as (u & Hc%CHECK_Ok_inv & H). inversion H; subst sh'; clear H.
  set (n := Z.to_nat (to_int axis)).
  split; [|split].
  - rewrite length_app. simpl. rewrite length_take, length_drop. lia.
  - rewrite GetTotalSize_app, GetTotalSize_cons.
    rewrite Z.mul_1_l, <- GetTotalSize_app, take_drop. reflexivity.
  - intros HF. apply Forall_app. split; [apply Forall_take, HF|].
    constructor; [lia | apply Forall_drop, HF].
Qed.

Lemma Unsqueeze_fold_preserves axes sh sh' :
  foldM UnsqueezeOp_insert sh axes = Ok sh' ->
  length sh' = (length sh + length axes)%nat /\ GetTotalSize sh' = GetTotalSize sh /\
  (Forall (Z.le 0) sh -> Forall (Z.le 0) sh').
Proof.
  revert sh. induction axes as [|a axes IH]; intros sh H.
  - inversion H; subst. split; [simpl; lia | auto].
  - rewrite foldM_cons in H. apply bind_Ok_inv in H as (sh1 & H1 & H).
    apply UnsqueezeOp_insert_preserves in H1 as (L1 & T1 & F1).
    apply IH in H as (L2 & T2 & F2).
    split; [simpl; lia|]. split; [congruence | auto].
Qed.

(** C10, as the kernel has it: Unsqueeze inserts its size-1 axes one at a
    time in the order listed, each position read as an [int] [d] and
    taken against the shape as extended by the earlier insertions.  A
    position from 0 up to the current rank is in bounds, the current rank
    itself appending a trailing axis; a position above the current rank
    and a negative position are fatal errors.  The elements are kept. *)
Theorem UnsqueezeOp_positions (a : Array) (axis : Z) (axes : list Z) :
  let sh := shape a in
  let d := to_int axis in
  Z.of_nat (length sh) < 2 ^ 31 ->
  Forall (Z.le 0) sh ->
  (0 <= d <= Z.of_nat (length sh) ->
   UnsqueezeOp_insert sh axis = Ok (take (Z.to_nat d) sh ++ 1 :: drop (Z.to_nat d) sh)) /\
  (d = Z.of_nat (length sh) -> UnsqueezeOp_insert sh axis = Ok (sh ++ [1])) /\
  (d < 0 \/ Z.of_nat (length sh) < d ->
   is_Fatal (UnsqueezeOp_insert sh axis) /\ is_Fatal (UnsqueezeOp_RunImpl (axis :: axes) a)) /\
  UnsqueezeOp_RunImpl (axis :: axes) a =
    (sh1 ← UnsqueezeOp_insert sh axis;
     sh2 ← foldM UnsqueezeOp_insert sh1 axes;
     Ok (MakeArray (dtype a) sh2 (data a))).
Proof.
  intros sh d Hlen Hnn.
  split; [|split; [|split]].
  - intros Hd. apply UnsqueezeOp_insert_in_bounds; assumption.
  - intros Hd. rewrite UnsqueezeOp_insert_in_bounds by (fold d; lia).
    fold d. rewrite Hd, Nat2Z.id, firstn_all, drop_all. reflexivity.
  - intros Hd. unfold UnsqueezeOp_RunImpl. fold sh. rewrite foldM_cons.
    rewrite UnsqueezeOp_insert_out_of_bounds by assumption. simpl. auto.
  - unfold UnsqueezeOp_RunImpl. fold sh. rewrite foldM_cons.
    destruct (UnsqueezeOp_insert sh axis) as [sh1|msg] eqn:E1; [|reflexivity].
    rewrite !bind_Ok.
    destruct (foldM UnsqueezeOp_insert sh1 axes) as [sh2|msg] eqn:E2; [|reflexivity].
    rewrite !bind_Ok.
    apply UnsqueezeOp_insert_preserves in E1 as (_ & T1 & F1).
    apply Unsqueeze_fold_preserves in E2 as (_ & T2 & F2).
    apply Reshape_size. fold sh. congruence.
Qed.

Lemma UnsqueezeOp_positions_witness :
  Z.of_nat (length (shape data_2x3)) < 2 ^ 31 /\ Forall (Z.le 0) (shape data_2x3) /\
  UnsqueezeOp_insert [2; 3] 2 = Ok [2; 3; 1] /\
  UnsqueezeOp_insert [2; 3] 1 = Ok [2; 1; 3] /\
  is_Fatal (UnsqueezeOp_RunImpl [3; 0] data_2x3) /\
  UnsqueezeOp_RunImpl [0; 3] data_2x3 =
    Ok (MakeArray kFloat32 [1; 2; 3; 1] [1; 2; 3; 4; 5; 6]%Q).
Proof.
  assert (H1 : Z.of_nat (length (shape data_2x3)) < 2 ^ 31) by (simpl; lia).
  assert (H2 : Forall (Z.le 0) (shape data_2x3)) by (repeat constructor; lia).
  split; [exact H1|]. split; [exact H2|].
  split; [|split; [|split]].
  - apply (proj1 (proj2 (UnsqueezeOp_positions data_2x3 2 [] H1 H2))). reflexivity.
  - apply (proj1 (UnsqueezeOp_positions data_2x3 1 [] H1 H2)). vm_compute.
    split; discriminate.
  - apply (proj1 (proj2 (proj2 (UnsqueezeOp_positions data_2x3 3 [0] H1 H2)))).
    right. vm_compute. reflexivity.
  - rewrite (proj2 (proj2 (proj2 (UnsqueezeOp_positions data_2x3 0 [3] H1 H2)))).
    reflexivity.
Defined.

(** Against C10 as worded: the position [-1] is not above the rank 2 of
    the data, and it is a fatal error all the same. *)
Lemma UnsqueezeOp_negative_position_fatal :
  ~ (Z.of_nat (length (shape data_2x3)) < -1) /\
  UnsqueezeOp_RunImpl [-1] data_2x3 = Fatal "Unsqueezing axis out of bound".
Proof. split; [simpl; lia | vm_compute; reflexivity]. Qed.

(** ** Gemm *)

(** When the product of the trailing dimensions fits in an [int], the
    flattening of the kernel is the flattening of all dimensions after the
    first into one. *)
Lemma Gemm_flatten_spec trans a :
  fits_int (trailing_size trans a) ->
  Gemm_flatten (if trans then Transpose a else a) = Gemm_operand_spec trans a.
Proof.
  unfold trailing_size, Gemm_flatten, Gemm_operand_spec. intros Hfit.
  set (x := if trans then Transpose a else a) in *.
  destruct (2 <? Z.of_nat (length (shape x))); [|reflexivity].
  change 1 with (to_int 1) at 1.
  rewrite int_product_total, Z.mul_1_l, to_int_id by exact Hfit.
  reflexivity.
Qed.

(** With [alpha = 1] and [beta = 0], and trailing dimensions whose product
    fits in an [int], Gemm is the Dot of the transposed and flattened
    operands, and the bias has no part in it.  In the scenario of operands
    shaped [(3,4,2,2)] and [(16,2)], the first is flattened to [(3,16)] and
    the result has shape [(3,2)]. *)
Lemma GemmOp_alpha1_beta0 :
  (forall (trans_a trans_b : bool) (alpha beta : Q) (a b c : Array),
     (alpha == 1)%Q -> (beta == 0)%Q ->
     fits_int (trailing_size trans_a a) -> fits_int (trailing_size trans_b b) ->
     GemmOp_RunImpl trans_a trans_b alpha beta a b c =
       (xa ← Gemm_operand_spec trans_a a; xb ← Gemm_operand_spec trans_b b; Dot xa xb) /\
     forall c', GemmOp_RunImpl trans_a trans_b alpha beta a b c' =
                GemmOp_RunImpl trans_a trans_b alpha beta a b c) /\
  (shape <$> Gemm_flatten gemm_A) = Ok [3; 16] /\
  (shape <$> GemmOp_RunImpl false false 1 0 gemm_A gemm_B gemm_C) = Ok [3; 2].
Proof.
  split; [|split; vm_compute; reflexivity].
  intros trans_a trans_b alpha beta a b c Ha Hb Hfa Hfb.
  assert (E : forall c0, GemmOp_RunImpl trans_a trans_b alpha beta a b c0 =
            (xa ← Gemm_operand_spec trans_a a; xb ← Gemm_operand_spec trans_b b; Dot xa xb)).
  { intros c0. unfold GemmOp_RunImpl.
    rewrite !Gemm_flatten_spec by assumption.
    apply Qeq_bool_iff in Ha, Hb. rewrite Ha, Hb. cbn [negb].
    destruct (Gemm_operand_spec trans_a a) as [xa|]; [|reflexivity]. rewrite !bind_Ok.
    destruct (Gemm_operand_spec trans_b b) as [xb|]; [|reflexivity]. rewrite !bind_Ok.
    destruct (Dot xa xb); reflexivity. }
  split; [apply E|]. intros c'. rewrite !E. reflexivity.
Qed.

(** C5 at operands whose trailing dimensions multiply to [2 ^ 32]: the
    [int] [last_dim] of the kernel wraps to 0.  An operand of shape
    [(1, 65536, 65536)], whatever its elements, cannot be reshaped to
    [(1, 0)] and Gemm aborts, where the flattening to [(1, 2 ^ 32)] exists.
    An empty operand of shape [(0, 65536, 65536)] is flattened to [(0, 0)]
    instead of [(0, 2 ^ 32)], and Gemm aborts on a dimension mismatch where
    the Dot of the flattened operands is an (empty) array. *)
Theorem GemmOp_flatten_overflow :
  (forall dt elements b c,
     GemmOp_RunImpl false false 1 0 (MakeArray dt [1; 65536; 65536] elements) b c
       = Fatal "Cannot reshape array" /\
     Gemm_operand_spec false (MakeArray dt [1; 65536; 65536] elements)
       = Ok (MakeArray dt [1; 4294967296] elements)) /\
  (shape <$> Gemm_flatten wide_A) = Ok [0; 0] /\
  (shape <$> Gemm_operand_spec false wide_A) = Ok [0; 4294967296] /\
  GemmOp_RunImpl false false 1 0 wide_A wide_B gemm_C = Fatal "Axis dimension mismatch" /\
  (xa ← Gemm_operand_spec false wide_A; xb ← Gemm_operand_spec false wide_B; Dot xa xb)
    = Ok (MakeArray kFloat32 [0; 0] []).
Proof.
  split; [|repeat split; vm_compute; reflexivity].
  intros dt elements b c. split; reflexivity.
Qed.

(** ** Pad *)

Lemma padded_shape_nonneg s pads :
  Forall (Z.le 0) s -> Forall (Z.le 0) pads -> Forall (Z.le 0) (padded_shape s pads).
Proof.
  intros Hs Hp. unfold padded_shape.
  assert (Hb : Forall (Z.le 0) (take (length s) pads)) by (apply Forall_take, Hp).
  assert (Ha : Forall (Z.le 0) (drop (length s) pads)) by (apply Forall_drop, Hp).
  revert Hb Ha. generalize (take (length s) pads) (drop (length s) pads).
  induction Hs as [|d s Hd Hs IH]; intros b a Hb Ha; [constructor|].
  destruct Hb as [|p b Hp' Hb]; [constructor|]. destruct Ha as [|q a Hq Ha]; [constructor|].
  simpl. constructor; [lia | apply IH; assumption].
Qed.

Section pad.

Variables (pads : list Z) (value : Q) (a : Array).
Hypothesis Hwf : wf a.
Hypothesis Hlen : length pads = (2 * length (shape a))%nat.
Hypothesis Hpads : Forall (Z.le 0) pads.

Let s := shape a.
Let n := length s.
Let pad := fun i : nat => default 0 (pads !! i).
Let before := take n pads.
Let sh := padded_shape s pads.
Let indices := imap (fun i d => MakeSlice (Some (pad i)) (Some (pad i + d))) s.

Lemma pads_length : length pads = (2 * n)%nat.
Proof. exact Hlen. Qed.

Lemma pad_nonneg i : 0 <= pad i.
Proof.
  unfold pad. destruct (pads !! i) as [p|] eqn:E; simpl; [|lia].
  rewrite Forall_forall in Hpads. apply Hpads. eapply list_elem_of_lookup_2, E.
Qed.

Lemma dim_nonneg i d : s !! i = Some d -> 0 <= d.
Proof.
  intros E. destruct Hwf as [HF _]. rewrite Forall_forall in HF.
  apply HF. eapply list_elem_of_lookup_2, E.
Qed.

(** The shape computed by the loop of the kernel. *)
Lemma PadOp_shape_eq : imap (fun i d => d + (pad i + pad (i + n)%nat)) s = sh.
Proof.
  pose proof pads_length as Hn.
  apply list_eq. intros i. unfold sh, padded_shape. fold n.
  rewrite list_lookup_imap, !lookup_zip_with, lookup_drop.
  destruct (s !! i) as [d|] eqn:E; [|reflexivity]. simpl.
  pose proof (lookup_lt_Some _ _ _ E) as Hi. fold n in Hi.
  rewrite lookup_take_lt by lia.
  destruct (pads !! i) as [p|] eqn:Ep; [|apply lookup_ge_None in Ep; lia].
  replace (n + i)%nat with (i + n)%nat by lia.
  destruct (pads !! (i + n)%nat) as [q|] eqn:Eq; [|apply lookup_ge_None in Eq; lia].
  simpl. unfold pad. rewrite Ep, Eq. reflexivity.
Qed.

(** The slices of the kernel are not clamped: the view starts at the
    "before" pads and has the shape of the data. *)
Lemma PadOp_view_start : zip_with Slice_GetStart indices sh = before.
Proof.
  pose proof pads_length as Hn.
  apply list_eq. intros i. unfold indices. rewrite <- PadOp_shape_eq.
  rewrite lookup_zip_with, !list_lookup_imap. unfold before.
  destruct (s !! i) as [d|] eqn:E; simpl.
  - pose proof (lookup_lt_Some _ _ _ E) as Hi. fold n in Hi.
    rewrite lookup_take_lt by lia.
    destruct (pads !! i) as [p|] eqn:Ep; [|apply lookup_ge_None in Ep; lia].
    assert (Hpi : pad i = p) by (unfold pad; rewrite Ep; reflexivity).
    pose proof (pad_nonneg i). pose proof (pad_nonneg (i + n)).
    pose proof (dim_nonneg i d E).
    rewrite Hpi in *. unfold Slice_GetStart, clamp_bound. cbn [start].
    destruct (p <? 0) eqn:E1; [apply Z.ltb_lt in E1; lia|].
    f_equal. lia.
  - symmetry. apply lookup_ge_None. rewrite length_take.
    apply lookup_ge_None in E. fold n in E. lia.
Qed.

Lemma PadOp_view_shape : zip_with Slice_GetLength indices sh = s.
Proof.
  apply list_eq. intros i. unfold indices. rewrite <- PadOp_shape_eq.
  rewrite lookup_zip_with, !list_lookup_imap.
  destruct (s !! i) as [d|] eqn:E; simpl; [|reflexivity].
  unfold Slice_GetLength, Slice_GetStart, Slice_GetStop, clamp_bound. simpl.
  pose proof (pad_nonneg i). pose proof (pad_nonneg (i + n)).
  pose proof (dim_nonneg i d E).
  destruct (pad i <? 0) eqn:E1; [apply Z.ltb_lt in E1; lia|].
  destruct (pad i + d <? 0) eqn:E2; [apply Z.ltb_lt in E2; lia|].
  f_equal. lia.
Qed.

Lemma sh_nonneg : Forall (Z.le 0) sh.
Proof. apply padded_shape_nonneg; [apply Hwf | exact Hpads]. Qed.

Lemma PadOp_runs : PadOp_RunImpl pads value a = Ok (padded pads value a).
Proof.
  assert (E : PadOp_RunImpl pads value a =
            (_ ← CHECK (Z.of_nat (ndim a) * 2 =? Z.of_nat (length pads))
                   "Check `data.ndim() * 2' == `pads.size()' failed!";
             r ← Full (imap (fun i d => d + (pad i + pad (i + n)%nat)) s) value (dtype a);
             v ← At r indices;
             Copy a v)) by reflexivity.
  rewrite E. clear E.
  replace (Z.of_nat (ndim a) * 2 =? Z.of_nat (length pads)) with true
    by (symmetry; apply Z.eqb_eq; unfold ndim; lia).
  step_checks. rewrite PadOp_shape_eq.
  unfold Full. rewrite bool_decide_eq_true_2 by exact sh_nonneg. step_checks.
  unfold At, ndim. cbn [shape].
  replace (length indices <=? length sh)%nat with true.
  2:{ symmetry. apply Nat.leb_le. unfold indices.
      rewrite length_imap, <- PadOp_shape_eq, length_imap. lia. }
  replace (length sh - length indices)%nat with 0%nat
    by (unfold indices; rewrite length_imap, <- PadOp_shape_eq, length_imap; lia).
  cbn [replicate]. rewrite app_nil_r, PadOp_view_start, PadOp_view_shape. step_checks.
  unfold Copy. cbn [vshape base shape dtype data]. fold s.
  rewrite bool_decide_eq_true_2 by reflexivity. reflexivity.
Qed.

Lemma before_length : length before = n.
Proof. pose proof pads_length. unfold before. rewrite length_take. lia. Qed.

Lemma offset_in_range idx : in_range s idx -> in_range sh (pad_offset s pads idx).
Proof.
  intros H. pose proof pads_length. unfold sh, padded_shape, pad_offset. fold n before.
  apply in_range_shift; auto.
  - apply before_length.
  - rewrite length_drop. fold n. lia.
  - apply Forall_take, Hpads.
  - apply Forall_drop, Hpads.
Qed.

Lemma pad_offset_inj k k' :
  in_range s k -> in_range s k' -> pad_offset s pads k = pad_offset s pads k' -> k = k'.
Proof.
  intros Hk Hk' E. apply (zip_add_inj before).
  - rewrite (in_range_length _ _ Hk). symmetry. apply before_length.
  - rewrite (in_range_length _ _ Hk'). symmetry. apply before_length.
  - exact E.
Qed.

(** No two elements of the data are written to the same place. *)
Lemma offsets_NoDup :
  NoDup ((fun k => Z.to_nat (lin sh (pad_offset s pads k))) <$> all_indices s).
Proof.
  apply NoDup_fmap_2_strong; [|apply NoDup_all_indices, Hwf].
  intros k k' Hk%elem_of_all_indices Hk'%elem_of_all_indices E.
  pose proof (lin_bounds _ _ (offset_in_range k Hk)).
  pose proof (lin_bounds _ _ (offset_in_range k' Hk')).
  apply pad_offset_inj; [assumption | assumption |].
  apply (lin_inj sh); [apply offset_in_range, Hk | apply offset_in_range, Hk' | lia].
Qed.

Lemma padded_inside idx :
  in_range s idx -> get (padded pads value a) (pad_offset s pads idx) = get a idx.
Proof.
  intros H. unfold get, padded. cbn [data shape]. fold s sh.
  pose proof (lin_bounds _ _ H) as Hb.
  destruct Hwf as [HF Hl]. fold s in HF, Hl.
  destruct (data a !! Z.to_nat (lin s idx)) as [x|] eqn:E;
    [|apply lookup_ge_None in E; lia].
  apply scatter_lookup_in.
  - rewrite fst_zip; [apply offsets_NoDup|].
    rewrite length_fmap, length_all_indices by exact HF. lia.
  - apply (list_elem_of_lookup_2 _ (Z.to_nat (lin s idx))).
    apply lookup_zip_with_Some. eexists _, _. split; [reflexivity|]. split; [|exact E].
    rewrite list_lookup_fmap, all_indices_lookup by exact H. reflexivity.
  - rewrite length_replicate. pose proof (lin_bounds _ _ (offset_in_range idx H)). lia.
Qed.


Lemma padded_wf : wf (padded pads value a).
Proof.
  split; [exact sh_nonneg|]. unfold padded. cbn [data shape].
  rewrite length_scatter, length_replicate. reflexivity.
Qed.

End pad.

Lemma padded_shape_lookup s pads i d :
  length pads = (2 * length s)%nat -> s !! i = Some d ->
  exists p q,
    pads !! i = Some p /\ pads !! (i + length s)%nat = Some q /\
    padded_shape s pads !! i = Some (d + (p + q)).
Proof.
  intros Hlen Hd. pose proof (lookup_lt_Some _ _ _ Hd) as Hi.
  destruct (pads !! i) as [p|] eqn:Ep; [|apply lookup_ge_None in Ep; lia].
  destruct (pads !! (i + length s)%nat) as [q|] eqn:Eq; [|apply lookup_ge_None in Eq; lia].
  exists p, q. split; [reflexivity|]. split; [reflexivity|].
  unfold padded_shape. rewrite !lookup_zip_with, Hd, lookup_take_lt, Ep, lookup_drop by lia.
  replace (length s + i)%nat with (i + length s)%nat by lia. rewrite Eq. reflexivity.
Qed.




(** ** Split and Concat *)

Lemma segments_snd start lens : (segments start lens).*2 = lens.
Proof.
  revert start. induction lens as [|len lens IH]; intros start; [reflexivity|].
  simpl. rewrite IH. reflexivity.
Qed.

Lemma segments_bounds start lens seg :
  Forall (Z.le 0) lens -> 0 <= start -> seg ∈ segments start lens ->
  0 <= seg.1 /\ 0 <= seg.2 /\ seg.1 + seg.2 <= start + sum_list_Z lens.
Proof.
  intros HF. revert start. induction HF as [|len lens Hlen HF IH]; intros start Hs Hin.
  - inversion Hin.
  - simpl in Hin. pose proof (sum_list_Z_nonneg lens HF).
    apply elem_of_cons in Hin as [-> | Hin]; simpl.
    + lia.
    + specialize (IH (start + len) ltac:(lia) Hin). lia.
Qed.

(** [locate] finds the segment that holds a position of the joined axis. *)
Lemma locate_spec lens i start :
  Forall (Z.le 0) lens -> 0 <= i < sum_list_Z lens ->
  exists len,
    segments start lens !! (locate lens i).1 = Some (start + (i - (locate lens i).2), len) /\
    0 <= (locate lens i).2 < len.
Proof.
  intros HF. revert i start. induction HF as [|len lens Hlen HF IH]; intros i start Hi.
  - simpl in Hi. lia.
  - simpl in *. destruct (i <? len) eqn:E.
    + apply Z.ltb_lt in E. simpl. exists len. split; [f_equal; f_equal; lia | lia].
    + apply Z.ltb_ge in E.
      destruct (IH (i - len) (start + len) ltac:(lia)) as (len' & Hl & Hr).
      destruct (locate lens (i - len)) as [j r]. simpl in *.
      exists len'. split; [rewrite Hl; f_equal; f_equal; lia | lia].
Qed.

Lemma piece_shape x ax seg : shape (piece x ax seg) = <[ax := seg.2]> (shape x).
Proof. reflexivity. Qed.

Lemma piece_dtype x ax seg : dtype (piece x ax seg) = dtype x.
Proof. reflexivity. Qed.

(** The view Split takes for a segment inside the axis. *)
Lemma At_segment x ax st len dim :
  Forall (Z.le 0) (shape x) ->
  shape x !! ax = Some dim -> 0 <= st -> 0 <= len -> st + len <= dim ->
  At x (<[ax := MakeSlice (Some st) (Some (st + len))]> (replicate (ndim x) FullSlice)) =
  Ok (MakeView x (<[ax := st]> (replicate (ndim x) 0)) (<[ax := len]> (shape x))).
Proof.
  intros HF Hdim Hst Hlen Hle. unfold At.
  rewrite length_insert, length_replicate, Nat.leb_refl, Nat.sub_diag. cbn [replicate].
  rewrite app_nil_r. f_equal. f_equal.
  - apply list_eq. intros i. rewrite lookup_zip_with.
    destruct (decide (i = ax)) as [->|Hne].
    + rewrite !list_lookup_insert_eq by (rewrite length_replicate; eapply lookup_lt_Some, Hdim).
      rewrite Hdim. simpl. unfold Slice_GetStart, clamp_bound. simpl.
      destruct (st <? 0) eqn:E; [apply Z.ltb_lt in E; lia|]. f_equal. lia.
    + rewrite !list_lookup_insert_ne by congruence.
      destruct (shape x !! i) as [d|] eqn:E.
      * rewrite !lookup_replicate_2 by (eapply lookup_lt_Some, E). reflexivity.
      * apply lookup_ge_None in E.
        rewrite !(proj1 (lookup_replicate_None _ _ _)) by exact E.
        reflexivity.
  - apply list_eq. intros i. rewrite lookup_zip_with.
    destruct (decide (i = ax)) as [->|Hne].
    + rewrite !list_lookup_insert_eq;
        [|eapply lookup_lt_Some, Hdim | rewrite length_replicate; eapply lookup_lt_Some, Hdim].
      rewrite Hdim. simpl.
      unfold Slice_GetLength, Slice_GetStart, Slice_GetStop, clamp_bound. simpl.
      destruct (st <? 0) eqn:E; [apply Z.ltb_lt in E; lia|].
      destruct (st + len <? 0) eqn:E2; [apply Z.ltb_lt in E2; lia|]. f_equal. lia.
    + rewrite !list_lookup_insert_ne by congruence.
      destruct (shape x !! i) as [d|] eqn:E.
      * rewrite !lookup_replicate_2 by (eapply lookup_lt_Some, E). simpl.
        unfold Slice_GetLength, Slice_GetStart, Slice_GetStop. simpl. f_equal.
        rewrite Forall_forall in HF. specialize (HF d (list_elem_of_lookup_2 _ _ _ E)). lia.
      * apply lookup_ge_None in E.
        rewrite !(proj1 (lookup_replicate_None _ _ _)) by exact E.
        reflexivity.
Qed.

(** What Split returns when it accepts the lengths. *)
Lemma Split_pieces x lens axis dim :
  Forall (Z.le 0) (shape x) ->
  0 <= axis -> shape x !! Z.to_nat axis = Some dim ->
  Forall (Z.le 0) lens -> sum_list_Z lens = dim ->
  Split x lens axis = Ok (piece x (Z.to_nat axis) <$> segments 0 lens).
Proof.
  intros HF Hax Hdim Hlens Hsum. unfold Split.
  pose proof (lookup_lt_Some _ _ _ Hdim) as Hlt.
  replace ((0 <=? axis) && (axis <? Z.of_nat (ndim x))) with true.
  2:{ symmetry. apply andb_true_iff.
      split; [apply Z.leb_le; lia | apply Z.ltb_lt; unfold ndim; lia]. }
  step_checks.
  replace (forallb (Z.leb 0) lens) with true.
  2:{ symmetry. apply forallb_forall. intros z Hz. apply Z.leb_le.
      rewrite Forall_forall in Hlens. apply Hlens, list_elem_of_In, Hz. }
  step_checks. unfold axis_dim. rewrite Hdim. simpl.
  fold (sum_list_Z lens). rewrite Hsum, Z.eqb_refl. step_checks.
  apply mapM_result_Ok. intros [st len] Hseg.
  pose proof (segments_bounds 0 lens _ Hlens ltac:(lia) Hseg) as (H1 & H2 & H3). simpl in *.
  rewrite (At_segment x _ st len dim) by (auto; lia). reflexivity.
Qed.

Lemma Split_Ok_inv x lens axis outs :
  Split x lens axis = Ok outs ->
  0 <= axis < Z.of_nat (ndim x) /\ Forall (Z.le 0) lens /\
  sum_list_Z lens = axis_dim x (Z.to_nat axis).
Proof.
  unfold Split. intros H.
  apply bind_Ok_inv in H as (u1 & H1%CHECK_Ok_inv & H).
  apply bind_Ok_inv in H as (u2 & H2%CHECK_Ok_inv & H).
  apply bind_Ok_inv in H as (u3 & H3%CHECK_Ok_inv & H).
  apply andb_true_iff in H1 as [Ha%Z.leb_le Hb%Z.ltb_lt].
  apply Z.eqb_eq in H3. split; [lia|]. split; [|exact H3].
  apply Forall_forall. intros z Hz%list_elem_of_In.
  rewrite forallb_forall in H2. apply Z.leb_le, H2, Hz.
Qed.

Lemma axis_dim_lookup x ax :
  (ax < ndim x)%nat -> shape x !! ax = Some (axis_dim x ax).
Proof.
  intros H. unfold axis_dim. destruct (shape x !! ax) eqn:E; [reflexivity|].
  apply lookup_ge_None in E. unfold ndim in H. lia.
Qed.

(** The lengths SplitOp passes on are never an empty list. *)
Lemma SplitOp_lens split axis outputs x outs :
  SplitOp_RunImpl split axis outputs x = Ok outs ->
  exists lens, lens <> [] /\ Split x lens axis = Ok outs.
Proof.
  unfold SplitOp_RunImpl. intros H.
  apply bind_Ok_inv in H as (lens & Hlens & H). exists lens. split; [|exact H].
  destruct (bool_decide (split = [])) eqn:E.
  - apply bind_Ok_inv in Hlens as (u1 & _ & Hlens).
    apply bind_Ok_inv in Hlens as (u2 & H2%CHECK_Ok_inv & Hlens).
    apply bind_Ok_inv in Hlens as (u3 & _ & Hlens).
    apply bind_Ok_inv in Hlens as (u4 & H4%CHECK_Ok_inv & Hlens).
    inversion Hlens; subst lens; clear Hlens.
    apply negb_true_iff, Z.eqb_neq in H2. apply Z.leb_le in H4.
    destruct (Z.to_nat (to_int (Z.of_nat (length outputs)))) eqn:En; [lia | discriminate].
  - apply bool_decide_eq_false in E. inversion Hlens; subst. exact E.
Qed.

Lemma shift_back (idx : list Z) ax st r i n :
  length idx = n -> idx !! ax = Some i -> st + r = i ->
  zip_with Z.add (<[ax := st]> (replicate n 0)) (<[ax := r]> idx) = idx.
Proof.
  intros Hn Hi E. apply list_eq. intros k. rewrite lookup_zip_with.
  destruct (decide (k = ax)) as [->|Hne].
  - pose proof (lookup_lt_Some _ _ _ Hi).
    rewrite !list_lookup_insert_eq by (rewrite ?length_replicate; lia).
    simpl. rewrite Hi. f_equal. lia.
  - rewrite !list_lookup_insert_ne by congruence.
    destruct (idx !! k) as [v|] eqn:Ek.
    + rewrite lookup_replicate_2 by (apply lookup_lt_Some in Ek; lia). reflexivity.
    + destruct (replicate n 0 !! k); reflexivity.
Qed.

(** The element of a piece at a position is the element of [x] at the
    position shifted by the start of the segment. *)
Lemma piece_elem x ax st len idx i r :
  in_range (shape x) idx -> idx !! ax = Some i -> st + r = i -> 0 <= r < len ->
  elem (data (piece x ax (st, len))) (lin (<[ax := len]> (shape x)) (<[ax := r]> idx)) =
  elem (data x) (lin (shape x) idx).
Proof.
  intros Hr Hi E Hrl. unfold piece, view_array, view_offsets.
  cbn [data vshape vstart base fst snd].
  unfold elem at 1.
  rewrite <- list_fmap_compose, list_lookup_fmap.
  rewrite all_indices_lookup by (apply in_range_insert; assumption).
  simpl. unfold ndim. rewrite (shift_back idx ax st r i); auto.
  apply in_range_length, Hr.
Qed.

(** Joining the pieces of [x] gives [x]. *)
Lemma Concat_pieces x lens axis dim :
  wf x -> 0 <= axis -> shape x !! Z.to_nat axis = Some dim ->
  Forall (Z.le 0) lens -> sum_list_Z lens = dim -> lens <> [] ->
  Concat (piece x (Z.to_nat axis) <$> segments 0 lens) axis = Ok x.
Proof.
  intros Hwf Hax Hdim Hlens Hsum Hne.
  pose proof (lookup_lt_Some _ _ _ Hdim) as Hlt.
  set (ax := Z.to_nat axis) in *.
  destruct lens as [|len0 lens0] eqn:El; [congruence|]. rewrite <- El in *.
  assert (Hseg : segments 0 lens = (0, len0) :: segments (0 + len0) lens0)
    by (rewrite El; reflexivity).
  unfold Concat. rewrite Hseg, fmap_cons. rewrite <- fmap_cons, <- Hseg.
  replace ((0 <=? axis) && (axis <? Z.of_nat (ndim (piece x ax (0, len0))))) with true.
  2:{ symmetry. apply andb_true_iff. split; [apply Z.leb_le; lia|].
      apply Z.ltb_lt. unfold ndim. rewrite piece_shape, length_insert. lia. }
  step_checks. fold ax.
  replace (forallb (fun a => bool_decide (dtype a = _)) (piece x ax <$> segments 0 lens))
    with true.
  2:{ symmetry. apply forallb_forall. intros a Ha%list_elem_of_In.
      apply list_elem_of_fmap in Ha as (seg & -> & _). apply bool_decide_eq_true.
      reflexivity. }
  step_checks.
  replace (forallb (fun a => bool_decide (<[ax := 0]> (shape a) = _))
             (piece x ax <$> segments 0 lens)) with true.
  2:{ symmetry. apply forallb_forall. intros a Ha%list_elem_of_In.
      apply list_elem_of_fmap in Ha as (seg & -> & _). apply bool_decide_eq_true.
      rewrite !piece_shape, !list_insert_insert_eq. reflexivity. }
  step_checks.
  assert (Hdims : (fun a => axis_dim a ax) <$> (piece x ax <$> segments 0 lens) = lens).
  { rewrite <- list_fmap_compose. rewrite <- (segments_snd 0 lens) at 2.
    apply fmap_ext_in. intros seg _. unfold compose, axis_dim.
    rewrite piece_shape, list_lookup_insert_eq by lia. reflexivity. }
  rewrite Hdims. fold (sum_list_Z lens). rewrite Hsum.
  rewrite piece_shape, list_insert_insert_eq, list_insert_id by exact Hdim.
  rewrite piece_dtype. destruct x as [dt s d]. cbn [dtype shape data] in *.
  f_equal. f_equal.
  etransitivity; [|apply (read_all (MakeArray dt s d) Hwf)]. cbn [shape data].
  apply fmap_ext_in. intros idx Hidx%elem_of_all_indices.
  destruct (in_range_lookup _ _ _ _ Hidx Hdim) as (i & Hi & Hib).
  rewrite Hi. simpl.
  destruct (locate_spec lens i 0 Hlens ltac:(lia)) as (len & Hl & Hr).
  destruct (locate lens i) as [j r]. cbn [fst snd] in *.
  rewrite list_lookup_fmap, Hl. cbn [fmap option_fmap option_map].
  apply (piece_elem (MakeArray dt s d) ax _ len idx i r); auto. lia.
Qed.

(** C4: whenever Split returns its outputs for an array [x] (the lengths it
    is given are sizes that add up to the dimension of the axis, or, with
    no lengths given, the number of outputs divides that dimension evenly),
    Concat along the same axis of these outputs, in order, is [x] itself.
    Split does return outputs in these cases, and with no lengths given
    and a number of outputs that does not divide the dimension the run
    aborts with a fatal error. *)
Theorem Concat_of_Split (x : Array) (split : list Z) (axis : Z) (outputs : list Z) :
  wf x ->
  (forall outs,
     SplitOp_RunImpl split axis outputs x = Ok outs -> ConcatOp_RunImpl axis outs = Ok x) /\
  (0 <= axis < Z.of_nat (ndim x) ->
   let dim := axis_dim x (Z.to_nat axis) in
   let n := Z.of_nat (length outputs) in
   (split <> [] -> Forall (Z.le 0) split -> sum_list_Z split = dim ->
    is_Ok (SplitOp_RunImpl split axis outputs x)) /\
   (split = [] -> 0 < n < 2 ^ 31 -> Z.rem dim n = 0 ->
    is_Ok (SplitOp_RunImpl split axis outputs x)) /\
   (split = [] -> 0 < n < 2 ^ 31 -> Z.rem dim n <> 0 ->
    is_Fatal (SplitOp_RunImpl split axis outputs x))).
Proof.
  intros Hwf. split.
  - intros outs H. apply SplitOp_lens in H as (lens & Hne & H).
    pose proof (Split_Ok_inv _ _ _ _ H) as (Hax & Hlens & Hsum).
    pose proof (axis_dim_lookup x (Z.to_nat axis) ltac:(lia)) as Hdim.
    rewrite (Split_pieces x lens axis _ (proj1 Hwf) ltac:(lia) Hdim Hlens Hsum) in H.
    inversion H; subst outs. unfold ConcatOp_RunImpl.
    apply (Concat_pieces x lens axis _ Hwf ltac:(lia) Hdim Hlens Hsum Hne).
  - intros Hax dim n.
    pose proof (axis_dim_lookup x (Z.to_nat axis) ltac:(lia)) as Hdim. fold dim in Hdim.
    assert (Hcheck : (0 <=? axis) && (axis <? Z.of_nat (ndim x)) = true).
    { apply andb_true_iff. split; [apply Z.leb_le | apply Z.ltb_lt]; lia. }
    assert (Hd0 : 0 <= dim).
    { destruct Hwf as [HF _]. rewrite Forall_forall in HF.
      apply HF. eapply list_elem_of_lookup_2, Hdim. }
    split; [|split].
    + intros Hne HF Hsum. unfold SplitOp_RunImpl.
      rewrite bool_decide_eq_false_2 by exact Hne. rewrite bind_Ok.
      rewrite (Split_pieces x split axis dim (proj1 Hwf) ltac:(lia) Hdim HF Hsum). exact I.
    + intros -> Hn Hrem. unfold SplitOp_RunImpl.
      rewrite bool_decide_eq_true_2 by reflexivity. rewrite Hcheck. step_checks.
      fold dim n. rewrite (to_int_id n) by (unfold fits_int; lia).
      replace (n =? 0) with false by (symmetry; apply Z.eqb_neq; lia).
      rewrite Hrem. replace (0 <=? n) with true by (symmetry; apply Z.leb_le; lia).
      cbn [Z.eqb]. step_checks.
      rewrite (Split_pieces x _ axis dim (proj1 Hwf) ltac:(lia) Hdim); [exact I | |].
      * apply Forall_replicate. apply Z.quot_pos; lia.
      * rewrite sum_list_Z_replicate. unfold n at 1. rewrite Nat2Z.id. fold n.
        pose proof (Z.quot_rem' dim n). lia.
    + intros -> Hn Hrem. unfold SplitOp_RunImpl.
      rewrite bool_decide_eq_true_2 by reflexivity. rewrite Hcheck. step_checks.
      fold dim n. rewrite (to_int_id n) by (unfold fits_int; lia).
      replace (n =? 0) with false by (symmetry; apply Z.eqb_neq; lia). step_checks.
      replace (0 =? Z.rem dim n) with false by (symmetry; apply Z.eqb_neq; lia).
      exact I.
Qed.

Lemma Concat_of_Split_witness :
  wf data_2x3 /\
  SplitOp_RunImpl [1; 2] 1 [10; 11] data_2x3 =
    Ok [MakeArray kFloat32 [2; 1] [1; 4]%Q; MakeArray kFloat32 [2; 2] [2; 3; 5; 6]%Q] /\
  ConcatOp_RunImpl 1
    [MakeArray kFloat32 [2; 1] [1; 4]%Q; MakeArray kFloat32 [2; 2] [2; 3; 5; 6]%Q]
    = Ok data_2x3 /\
  is_Ok (SplitOp_RunImpl [] 1 [10; 11; 12] data_2x3) /\
  is_Fatal (SplitOp_RunImpl [] 1 [10; 11] data_2x3).
Proof.
  assert (H : wf data_2x3) by (split; [repeat constructor; lia | reflexivity]).
  assert (Hax : 0 <= 1 < Z.of_nat (ndim data_2x3)) by (unfold ndim; simpl; lia).
  assert (Hs : SplitOp_RunImpl [1; 2] 1 [10; 11] data_2x3 =
    Ok [MakeArray kFloat32 [2; 1] [1; 4]%Q; MakeArray kFloat32 [2; 2] [2; 3; 5; 6]%Q])
    by (vm_compute; reflexivity).
  split; [exact H|]. split; [exact Hs|]. split; [|split].
  - apply (proj1 (Concat_of_Split data_2x3 [1; 2] 1 [10; 11] H) _ Hs).
  - apply (proj1 (proj2 (proj2 (Concat_of_Split data_2x3 [] 1 [10; 11; 12] H) Hax)));
      [reflexivity | simpl; lia | reflexivity].
  - apply (proj2 (proj2 (proj2 (Concat_of_Split data_2x3 [] 1 [10; 11] H) Hax)));
      [reflexivity | simpl; lia | vm_compute; discriminate].
Defined.

(** ** Jumps *)

Lemma JmpTrueOp_taken t st cond x :
  AsScalar cond = Ok x -> Scalar_to_bool x = true ->
  JmpTrueOp_RunImpl t st cond = Ok (set_pc (t - 1) st).
Proof. intros Hc Hx. unfold JmpTrueOp_RunImpl. rewrite Hc, bind_Ok, Hx. reflexivity. Qed.

Lemma JmpTrueOp_not_taken t st cond x :
  AsScalar cond = Ok x -> Scalar_to_bool x = false ->
  JmpTrueOp_RunImpl t st cond = Ok st.
Proof. intros Hc Hx. unfold JmpTrueOp_RunImpl. rewrite Hc, bind_Ok, Hx. reflexivity. Qed.

Lemma JmpFalseOp_taken t st cond x :
  AsScalar cond = Ok x -> Scalar_to_bool x = false ->
  JmpFalseOp_RunImpl t st cond = Ok (set_pc (t - 1) st).
Proof. intros Hc Hx. unfold JmpFalseOp_RunImpl. rewrite Hc, bind_Ok, Hx. reflexivity. Qed.

Lemma JmpFalseOp_not_taken t st cond x :
  AsScalar cond = Ok x -> Scalar_to_bool x = true ->
  JmpFalseOp_RunImpl t st cond = Ok st.
Proof. intros Hc Hx. unfold JmpFalseOp_RunImpl. rewrite Hc, bind_Ok, Hx. reflexivity. Qed.

(** One round of the dispatcher on a jump: the counter left by the kernel
    plus one. *)
Lemma step_jump program st op c t cond x :
  0 <= pc st -> program !! Z.to_nat (pc st) = Some op -> is_jump op c t ->
  variables st !! c = Some cond -> AsScalar cond = Ok x ->
  step program st = Some (Ok (set_pc (if fires op x then t else pc st + 1) st)).
Proof.
  intros Hpc Hop Hj Hc Hx. unfold step.
  replace (0 <=? pc st) with true by (symmetry; apply Z.leb_le; lia).
  rewrite Hop. f_equal.
  destruct Hj as [-> | ->]; simpl; unfold GetVar; rewrite Hc, bind_Ok;
    unfold JmpTrueOp_RunImpl, JmpFalseOp_RunImpl; rewrite Hx, bind_Ok;
    destruct (Scalar_to_bool x); simpl; unfold set_pc; simpl; repeat f_equal; lia.
Qed.

Lemma run_first fuel program st st' :
  step program st = Some (Ok st') ->
  exists trace r,
    run (S fuel) program st = (pc st :: trace, r) /\ run fuel program st' = (trace, r).
Proof.
  intros H. simpl. rewrite H. destruct (run fuel program st') as [trace r].
  exists trace, r. auto.
Qed.

(** After a round that leaves the counter on an instruction, that
    instruction is the next one executed. *)
Lemma run_two fuel program st st' :
  step program st = Some (Ok st') -> 0 <= pc st' ->
  is_Some (program !! Z.to_nat (pc st')) ->
  exists trace r, run (S (S fuel)) program st = (pc st :: pc st' :: trace, r).
Proof.
  intros Hstep Hpc [op' Hop'].
  destruct (run_first (S fuel) program st _ Hstep) as (trace & r & Hrun & Hrest).
  rewrite Hrun.
  assert (exists st2, step program st' = Some st2) as [st2 H2].
  { unfold step. replace (0 <=? pc st') with true by (symmetry; apply Z.leb_le; lia).
    rewrite Hop'. eauto. }
  simpl in Hrest. rewrite H2 in Hrest.
  destruct st2 as [st2|msg].
  - destruct (run fuel program st2) as [tr2 r2]. inversion Hrest; subst. eauto.
  - inversion Hrest; subst. eauto.
Qed.

(** C1: let the instruction at the program counter be JmpTrue (resp.
    JmpFalse) with target [t], its condition holding a single boolean.
    When the condition is true (resp. false) the kernel sets the counter to
    [t - 1]; after the increment of the dispatcher the counter is [t], and
    the instruction executed next is the one at index [t], none of those
    in between.  When the jump does not fire the kernel leaves the state
    alone and execution goes on at the next index. *)
Theorem jump_resumes_at_target (program : list XCVMOp) (st : XCVMState) (op : XCVMOp)
    (c t : Z) (cond : Array) (x : Q) :
  0 <= pc st -> program !! Z.to_nat (pc st) = Some op -> is_jump op c t ->
  variables st !! c = Some cond -> AsScalar cond = Ok x ->
  (fires op x = true ->
     (op = JmpTrueOp c t -> JmpTrueOp_RunImpl t st cond = Ok (set_pc (t - 1) st)) /\
     (op = JmpFalseOp c t -> JmpFalseOp_RunImpl t st cond = Ok (set_pc (t - 1) st)) /\
     step program st = Some (Ok (set_pc t st)) /\
     (forall fuel, 0 <= t -> is_Some (program !! Z.to_nat t) ->
        exists trace r, run (S (S fuel)) program st = (pc st :: t :: trace, r))) /\
  (fires op x = false ->
     (op = JmpTrueOp c t -> JmpTrueOp_RunImpl t st cond = Ok st) /\
     (op = JmpFalseOp c t -> JmpFalseOp_RunImpl t st cond = Ok st) /\
     step program st = Some (Ok (set_pc (pc st + 1) st)) /\
     (forall fuel, is_Some (program !! Z.to_nat (pc st + 1)) ->
        exists trace r, run (S (S fuel)) program st = (pc st :: pc st + 1 :: trace, r))).
Proof.
  intros Hpc Hop Hj Hc Hx.
  pose proof (step_jump program st op c t cond x Hpc Hop Hj Hc Hx) as Hstep.
  split; intros Hf; rewrite Hf in Hstep.
  - split; [|split; [|split]].
    + intros ->. simpl in Hf. eapply JmpTrueOp_taken; eauto.
    + intros ->. simpl in Hf. apply negb_true_iff in Hf. eapply JmpFalseOp_taken; eauto.
    + exact Hstep.
    + intros fuel Ht Hop'. apply (run_two fuel program st _ Hstep); [exact Ht | exact Hop'].
  - split; [|split; [|split]].
    + intros ->. simpl in Hf. eapply JmpTrueOp_not_taken; eauto.
    + intros ->. simpl in Hf. apply negb_false_iff in Hf. eapply JmpFalseOp_not_taken; eauto.
    + exact Hstep.
    + intros fuel Hop'. apply (run_two fuel program st _ Hstep); [simpl; lia | exact Hop'].
Qed.

Lemma jump_resumes_at_target_witness :
  0 <= pc jump_state /\
  jump_program !! Z.to_nat (pc jump_state) = Some (JmpTrueOp 1 5) /\
  variables jump_state !! 1 = Some scalar_true /\
  AsScalar scalar_true = Ok 1%Q /\
  JmpTrueOp_RunImpl 5 jump_state scalar_true = Ok (set_pc 4 jump_state) /\
  step jump_program jump_state = Some (Ok (set_pc 5 jump_state)) /\
  exists trace r, run 2 jump_program jump_state = (2 :: 5 :: trace, r).
Proof.
  assert (H1 : 0 <= pc jump_state) by (simpl; lia).
  assert (H2 : jump_program !! Z.to_nat (pc jump_state) = Some (JmpTrueOp 1 5))
    by reflexivity.
  assert (H3 : is_jump (JmpTrueOp 1 5) 1 5) by (left; reflexivity).
  assert (H4 : variables jump_state !! 1 = Some scalar_true) by reflexivity.
  assert (H5 : AsScalar scalar_true = Ok 1%Q) by reflexivity.
  pose proof (proj1 (jump_resumes_at_target jump_program jump_state (JmpTrueOp 1 5)
                       1 5 scalar_true 1%Q H1 H2 H3 H4 H5) eq_refl) as (Hk & _ & Hs & Hr).
  split; [exact H1|]. split; [exact H2|]. split; [exact H4|]. split; [exact H5|].
  split; [exact (Hk eq_refl)|]. split; [exact Hs|].
  apply (Hr 0%nat); [lia | eexists; reflexivity].
Defined.

(** ** Elementwise operations on arrays of one shape *)

Lemma broadcast_rev_same r : broadcast_rev r r = Some r.
Proof.
  induction r as [|x r IH]; [reflexivity|].
  cbn [broadcast_rev]. rewrite IH. cbn. rewrite Z.eqb_refl. reflexivity.
Qed.

Lemma BroadcastShapes_same s : BroadcastShapes s s = Some s.
Proof.
  unfold BroadcastShapes. rewrite broadcast_rev_same. cbn. rewrite reverse_involutive.
  reflexivity.
Qed.

Lemma BroadcastShapes_scalar s : BroadcastShapes s [] = Some s.
Proof.
  unfold BroadcastShapes. change (reverse []) with (@nil Z).
  rewrite <- (reverse_involutive s) at 2.
  destruct (reverse s); reflexivity.
Qed.

Lemma broadcast_index_in_range s idx : in_range s idx -> broadcast_index s idx = idx.
Proof.
  intros H. unfold broadcast_index.
  rewrite (in_range_length _ _ H), Nat.sub_diag, drop_0.
  induction H as [|d i s idx Hdi H IH]; [reflexivity|].
  cbn. rewrite IH. destruct (d =? 1) eqn:E; [|reflexivity].
  apply Z.eqb_eq in E. f_equal. lia.
Qed.

Lemma elem_lookup (l : list Q) (i : nat) x : l !! i = Some x -> elem l (Z.of_nat i) = x.
Proof. intros H. unfold elem. rewrite Nat2Z.id, H. reflexivity. Qed.

(** Reading two lists position by position. *)
Lemma zip_by_position (f : Q -> Q -> Q) (la lb : list Q) :
  length lb = length la ->
  (fun p => f (elem la p) (elem lb p)) <$> seqZ 0 (Z.of_nat (length la)) = zip_with f la lb.
Proof.
  intros Hlen. apply list_eq. intros i.
  rewrite list_lookup_fmap, lookup_zip_with.
  destruct (la !! i) as [x|] eqn:Ea.
  - pose proof (lookup_lt_Some _ _ _ Ea) as Hi.
    destruct (lb !! i) as [y|] eqn:Eb; [|apply lookup_ge_None in Eb; lia].
    rewrite (proj2 (lookup_seqZ 0 _ i (Z.of_nat i))) by lia.
    cbn. rewrite (elem_lookup _ _ _ Ea), (elem_lookup _ _ _ Eb). reflexivity.
  - apply lookup_ge_None in Ea.
    destruct (seqZ 0 (Z.of_nat (length la)) !! i) as [p|] eqn:Ep; [|reflexivity].
    apply lookup_seqZ in Ep. lia.
Qed.

Lemma map_by_position (g : Q -> Q) (la : list Q) :
  (fun p => g (elem la p)) <$> seqZ 0 (Z.of_nat (length la)) = g <$> la.
Proof.
  apply list_eq. intros i. rewrite !list_lookup_fmap.
  destruct (la !! i) as [x|] eqn:Ea.
  - pose proof (lookup_lt_Some _ _ _ Ea) as Hi.
    rewrite (proj2 (lookup_seqZ 0 _ i (Z.of_nat i))) by lia.
    cbn. rewrite (elem_lookup _ _ _ Ea). reflexivity.
  - apply lookup_ge_None in Ea.
    destruct (seqZ 0 (Z.of_nat (length la)) !! i) as [p|] eqn:Ep; [|reflexivity].
    apply lookup_seqZ in Ep. lia.
Qed.

Lemma wf_total a : wf a -> Z.of_nat (length (data a)) = GetTotalSize (shape a).
Proof.
  intros [HF Hl]. rewrite Hl. apply Z2Nat.id, GetTotalSize_nonneg, HF.
Qed.

Lemma by_lin (g : Z -> Q) s :
  Forall (Z.le 0) s ->
  (fun idx => g (lin s idx)) <$> all_indices s = g <$> seqZ 0 (GetTotalSize s).
Proof.
  intros H. rewrite <- (lin_all_indices s H), <- list_fmap_compose. reflexivity.
Qed.

(** A binary operation on two arrays of the same shape works position by
    position. *)
Lemma broadcast_binary_same f a b :
  wf a -> wf b -> shape b = shape a ->
  broadcast_binary f a b =
  Ok (MakeArray (dtype a) (shape a) (zip_with f (data a) (data b))).
Proof.
  intros Ha Hb Hs. unfold broadcast_binary. rewrite Hs, BroadcastShapes_same.
  f_equal. f_equal.
  rewrite <- (zip_by_position f (data a) (data b)).
  2:{ apply Nat2Z.inj. rewrite (wf_total a Ha), (wf_total b Hb), Hs. reflexivity. }
  rewrite (wf_total a Ha).
  rewrite <- (by_lin (fun p => f (elem (data a) p) (elem (data b) p))) by apply Ha.
  apply fmap_ext_in. intros idx Hin. apply elem_of_all_indices in Hin.
  rewrite broadcast_index_in_range by exact Hin. reflexivity.
Qed.

(** With an operand of rank 0, its element meets every element of the
    other operand. *)
Lemma broadcast_binary_scalar f a b :
  wf a -> shape b = [] ->
  broadcast_binary f a b =
  Ok (MakeArray (dtype a) (shape a) ((fun v => f v (elem (data b) 0)) <$> data a)).
Proof.
  intros Ha Hs. unfold broadcast_binary. rewrite Hs, BroadcastShapes_scalar.
  f_equal. f_equal.
  rewrite <- (map_by_position (fun v => f v (elem (data b) 0)) (data a)).
  rewrite (wf_total a Ha).
  rewrite <- (by_lin (fun p => f (elem (data a) p) (elem (data b) 0))) by apply Ha.
  apply fmap_ext_in. intros idx Hin. apply elem_of_all_indices in Hin.
  rewrite broadcast_index_in_range by exact Hin. reflexivity.
Qed.

Lemma wf_fmap dt s (g : Q -> Q) l a :
  wf a -> s = shape a -> l = g <$> data a -> wf (MakeArray dt s l).
Proof.
  intros [HF Hl] -> ->. split; [exact HF|]. cbn. rewrite length_fmap. exact Hl.
Qed.

Lemma wf_zip dt (f : Q -> Q -> Q) a b :
  wf a -> wf b -> shape b = shape a ->
  wf (MakeArray dt (shape a) (zip_with f (data a) (data b))).
Proof.
  intros [HF Hl] [_ Hlb] Hs. split; [exact HF|]. cbn [data shape].
  rewrite length_zip_with, Hlb, Hs, <- Hl. lia.
Qed.

Lemma wf_AsType a dt : wf a -> wf (AsType a dt).
Proof. intros H. eapply wf_fmap; [exact H|reflexivity|reflexivity]. Qed.

(** ** Squeeze *)

Lemma listed_spec axes i :
  existsb (fun ax => to_size_t ax =? i) axes = true <-> i ∈ to_size_t <$> axes.
Proof.
  rewrite existsb_exists, list_elem_of_fmap. split.
  - intros (ax & Hin & E). apply Z.eqb_eq in E. exists ax. split; [congruence|].
    apply list_elem_of_In. exact Hin.
  - intros (ax & E & Hin). exists ax. split; [apply list_elem_of_In; exact Hin|].
    apply Z.eqb_eq. congruence.
Qed.

Lemma squeezed_from_cons axes i d dims :
  squeezed_from axes i (d :: dims) =
  if bool_decide (i ∈ to_size_t <$> axes) then squeezed_from axes (i + 1) dims
  else d :: squeezed_from axes (i + 1) dims.
Proof.
  unfold squeezed_from. cbn [length].
  rewrite Nat2Z.inj_succ, seqZ_cons by lia.
  replace (Z.succ i) with (i + 1) by lia.
  replace (Z.pred (Z.succ (Z.of_nat (length dims)))) with (Z.of_nat (length dims)) by lia.
  cbn [zip zip_with]. rewrite filter_cons. cbn [fst].
  case_bool_decide as E; destruct (decide (i ∉ to_size_t <$> axes)) as [E'|E'];
    try reflexivity; contradiction.
Qed.

Lemma squeezed_from_nil axes i : squeezed_from axes i [] = [].
Proof. reflexivity. Qed.

Lemma squeezed_from_app axes i l1 l2 :
  squeezed_from axes i (l1 ++ l2) =
  squeezed_from axes i l1 ++ squeezed_from axes (i + Z.of_nat (length l1)) l2.
Proof.
  revert i. induction l1 as [|d l1 IH]; intros i.
  - cbn [app length]. rewrite squeezed_from_nil. cbn [app]. f_equal. lia.
  - cbn [app length]. rewrite !squeezed_from_cons, IH.
    replace (i + 1 + Z.of_nat (length l1)) with (i + Z.of_nat (S (length l1))) by lia.
    case_bool_decide; reflexivity.
Qed.

Lemma squeezed_from_none axes i l :
  (forall k, i <= k < i + Z.of_nat (length l) -> k ∉ to_size_t <$> axes) ->
  squeezed_from axes i l = l.
Proof.
  revert i. induction l as [|d l IH]; intros i H; [reflexivity|].
  rewrite squeezed_from_cons. cbn [length] in H.
  rewrite bool_decide_eq_false_2 by (apply H; lia).
  f_equal. apply IH. intros k Hk. apply H. lia.
Qed.

Lemma squeezed_from_ext axes axes' i l :
  (forall k, i <= k < i + Z.of_nat (length l) ->
     (k ∈ to_size_t <$> axes <-> k ∈ to_size_t <$> axes')) ->
  squeezed_from axes i l = squeezed_from axes' i l.
Proof.
  revert i. induction l as [|d l IH]; intros i H; [reflexivity|].
  rewrite !squeezed_from_cons. cbn [length] in H.
  rewrite (IH (i + 1)) by (intros k Hk; apply H; lia).
  rewrite (bool_decide_ext (i ∈ to_size_t <$> axes) (i ∈ to_size_t <$> axes'))
    by (apply H; lia).
  reflexivity.
Qed.

Lemma elem_of_squeezed_from axes i l d : d ∈ squeezed_from axes i l -> d ∈ l.
Proof.
  revert i. induction l as [|x l IH]; intros i; [intros H; exact H|].
  rewrite squeezed_from_cons. case_bool_decide.
  - intros H'. right. eapply IH, H'.
  - intros [->|H']%elem_of_cons; [left|right; eapply IH, H'].
Qed.

(** The loop of the kernel computes [squeezed_from], as long as each
    dimension it drops is 1. *)
Lemma SqueezeOp_loop_spec axes i dims acc :
  (forall k d, dims !! k = Some d -> i + Z.of_nat k ∈ to_size_t <$> axes -> d = 1) ->
  SqueezeOp_loop axes i dims acc = Ok (acc ++ squeezed_from axes i dims).
Proof.
  revert i acc. induction dims as [|d dims IH]; intros i acc H.
  - cbn. rewrite app_nil_r. reflexivity.
  - cbn [SqueezeOp_loop]. rewrite squeezed_from_cons.
    destruct (existsb _ axes) eqn:E; cbn [negb].
    + apply listed_spec in E. rewrite bool_decide_eq_true_2 by exact E.
      rewrite (H 0%nat d eq_refl) by (rewrite Z.add_0_r; exact E).
      cbn. apply IH. intros k d' Hk Hin. apply (H (S k) d' Hk).
      replace (i + Z.of_nat (S k)) with (i + 1 + Z.of_nat k) by lia. exact Hin.
    + rewrite bool_decide_eq_false_2
        by (intros Hin; apply listed_spec in Hin; congruence).
      rewrite IH.
      * rewrite <- app_assoc. reflexivity.
      * intros k d' Hk Hin. apply (H (S k) d' Hk).
        replace (i + Z.of_nat (S k)) with (i + 1 + Z.of_nat k) by lia. exact Hin.
Qed.

Lemma SqueezeOp_loop_fatal axes i dims acc k d :
  dims !! k = Some d -> i + Z.of_nat k ∈ to_size_t <$> axes -> d <> 1 ->
  SqueezeOp_loop axes i dims acc = Fatal "Cannot squeeze a dimension whose size is not 1".
Proof.
  revert i acc k. induction dims as [|x dims IH]; intros i acc k Hk Hin Hd; [discriminate|].
  cbn [SqueezeOp_loop]. destruct k as [|k].
  - injection Hk as ->. rewrite Z.add_0_r in Hin. apply listed_spec in Hin.
    rewrite Hin. cbn [negb].
    destruct (1 =? d) eqn:E; [apply Z.eqb_eq in E; congruence|]. reflexivity.
  - assert (Hin' : i + 1 + Z.of_nat k ∈ to_size_t <$> axes)
      by (replace (i + 1 + Z.of_nat k) with (i + Z.of_nat (S k)) by lia; exact Hin).
    destruct (existsb _ axes); cbn [negb].
    + destruct (1 =? x); cbn; [|reflexivity]. eapply IH; eauto.
    + eapply IH; eauto.
Qed.

Lemma GetTotalSize_squeezed axes i dims :
  (forall k d, dims !! k = Some d -> i + Z.of_nat k ∈ to_size_t <$> axes -> d = 1) ->
  GetTotalSize (squeezed_from axes i dims) = GetTotalSize dims.
Proof.
  revert i. induction dims as [|d dims IH]; intros i H; [reflexivity|].
  rewrite squeezed_from_cons.
  assert (IH' : GetTotalSize (squeezed_from axes (i + 1) dims) = GetTotalSize dims).
  { apply IH. intros k d' Hk Hin. apply (H (S k) d' Hk).
    replace (i + Z.of_nat (S k)) with (i + 1 + Z.of_nat k) by lia. exact Hin. }
  case_bool_decide as E.
  - rewrite GetTotalSize_cons, IH', (H 0%nat d eq_refl) by (rewrite Z.add_0_r; exact E). lia.
  - rewrite !GetTotalSize_cons, IH'. reflexivity.
Qed.

(** X1: what SqueezeOp removes, and when it aborts. *)
Theorem SqueezeOp_removes_listed_axes (axes : list Z) (a : Array) :
  Forall (Z.le 0) (shape a) ->
  ((forall i d, shape a !! i = Some d -> Z.of_nat i ∈ to_size_t <$> axes -> d = 1) ->
   SqueezeOp_RunImpl axes a =
     Ok (MakeArray (dtype a) (squeezed_shape axes (shape a)) (data a))) /\
  (forall i d, shape a !! i = Some d -> Z.of_nat i ∈ to_size_t <$> axes -> d <> 1 ->
   SqueezeOp_RunImpl axes a = Fatal "Cannot squeeze a dimension whose size is not 1").
Proof.
  intros Hnn. split.
  - intros H1. unfold SqueezeOp_RunImpl.
    rewrite SqueezeOp_loop_spec by (intros k d; rewrite Z.add_0_l; apply H1).
    rewrite bind_Ok. cbn [app]. unfold Reshape, squeezed_shape.
    rewrite GetTotalSize_squeezed by (intros k d; rewrite Z.add_0_l; apply H1).
    rewrite Z.eqb_refl. reflexivity.
  - intros i d Hi Hin Hd. unfold SqueezeOp_RunImpl.
    erewrite SqueezeOp_loop_fatal; [reflexivity|exact Hi|exact Hin|exact Hd].
Qed.

Lemma SqueezeOp_removes_listed_axes_witness :
  Forall (Z.le 0) [1; 2; 1] /\
  SqueezeOp_RunImpl [0; 2] (MakeArray kFloat32 [1; 2; 1] [7; 8]%Q)
    = Ok (MakeArray kFloat32 [2] [7; 8]%Q) /\
  SqueezeOp_RunImpl [1] (MakeArray kFloat32 [1; 2; 1] [7; 8]%Q)
    = Fatal "Cannot squeeze a dimension whose size is not 1".
Proof.
  pose proof (SqueezeOp_removes_listed_axes [0; 2] (MakeArray kFloat32 [1; 2; 1] [7; 8]%Q))
    as H.
  pose proof (SqueezeOp_removes_listed_axes [1] (MakeArray kFloat32 [1; 2; 1] [7; 8]%Q))
    as H'.
  assert (Hnn : Forall (Z.le 0) [1; 2; 1]) by (repeat constructor; lia).
  split; [exact Hnn|]. split.
  - destruct (H Hnn) as [H1 _]. apply H1.
    intros [|[|[|i]]] d Hi Hin; cbn in Hi; try discriminate;
      try (injection Hi as <-; reflexivity).
    exfalso. vm_compute in Hin. 
    apply elem_of_cons in Hin as [Hin|Hin]; [discriminate|].
    apply elem_of_cons in Hin as [Hin|Hin]; [discriminate|].
    inversion Hin.
  - destruct (H' Hnn) as [_ H2]. apply (H2 1%nat 2); [reflexivity| |lia].
    vm_compute. left.
Defined.

Lemma to_size_t_small z : 0 <= z < 2 ^ 64 -> to_size_t z = z.
Proof. intros H. unfold to_size_t. apply Z.mod_small. lia. Qed.

Lemma to_size_t_negative z : - 2 ^ 63 <= z < 0 -> to_size_t z = z + 2 ^ 64.
Proof.
  intros H. unfold to_size_t. symmetry.
  apply (Z.mod_unique_pos z (2 ^ 64) (-1) (z + 2 ^ 64)); lia.
Qed.

Lemma Reshape_same a : Forall (Z.le 0) (shape a) -> Reshape a (shape a) = Ok a.
Proof.
  intros _. unfold Reshape. rewrite Z.eqb_refl. destruct a; reflexivity.
Qed.

(** X2: an axis given from the end, or past the last one, is ignored. *)
Theorem SqueezeOp_ignores_axes_outside (axes : list Z) (a : Array) :
  Forall (Z.le 0) (shape a) ->
  Z.of_nat (ndim a) < 2 ^ 63 ->
  Forall (fun ax => - 2 ^ 63 <= ax < 0 \/ Z.of_nat (ndim a) <= ax < 2 ^ 63) axes ->
  SqueezeOp_RunImpl axes a = Ok a.
Proof.
  intros Hnn Hrank Hax. unfold SqueezeOp_RunImpl.
  assert (Hnone : forall k, 0 <= k < 0 + Z.of_nat (length (shape a)) ->
                            k ∉ to_size_t <$> axes).
  { intros k Hk (ax & E & Hin)%list_elem_of_fmap.
    rewrite Forall_forall in Hax. unfold ndim in *.
    destruct (Hax _ Hin) as [Hneg|Hbig].
    - rewrite to_size_t_negative in E by exact Hneg. lia.
    - rewrite to_size_t_small in E by lia. lia. }
  rewrite SqueezeOp_loop_spec.
  - rewrite bind_Ok. cbn [app]. rewrite squeezed_from_none by exact Hnone.
    apply Reshape_same, Hnn.
  - intros k d Hk Hin. exfalso. apply (Hnone (0 + Z.of_nat k)); [|exact Hin].
    apply lookup_lt_Some in Hk. lia.
Qed.

Lemma SqueezeOp_ignores_axes_outside_witness :
  SqueezeOp_RunImpl [-1; 3] (MakeArray kFloat32 [1; 2; 1] [7; 8]%Q)
    = Ok (MakeArray kFloat32 [1; 2; 1] [7; 8]%Q).
Proof.
  apply SqueezeOp_ignores_axes_outside.
  - repeat constructor; lia.
  - unfold ndim; simpl; lia.
  - unfold ndim; simpl. repeat constructor; lia.
Defined.

(** Unsqueeze at increasing positions puts a 1 at each of them, and the
    other dimensions are those of the operand in order. *)
Lemma Unsqueeze_fold_squeezed axes :
  forall sh sh',
    StronglySorted Z.lt axes -> Forall (fun ax => 0 <= ax < 2 ^ 31) axes ->
    foldM UnsqueezeOp_insert sh axes = Ok sh' ->
    squeezed_from axes 0 sh' = sh /\
    (forall k d, sh' !! k = Some d -> Z.of_nat k ∈ axes -> d = 1).
Proof.
  induction axes as [|q ps IH] using rev_ind; intros sh sh' Hsorted Hrange Hfold.
  - cbn in Hfold. injection Hfold as <-. split.
    + apply squeezed_from_none. intros k _ Hin. cbn in Hin. inversion Hin.
    + intros k d _ Hin. inversion Hin.
  - rewrite foldM_app in Hfold.
    apply bind_Ok_inv in Hfold as (sh'' & Hps & Hq).
    cbn [foldM] in Hq. apply bind_Ok_inv in Hq as (sh1 & Hins & E). injection E as ->.
    apply Forall_app in Hrange as [Hrps Hrq]. rewrite Forall_singleton in Hrq.
    assert (Hlt : Forall (fun p => p < q) ps /\ StronglySorted Z.lt ps).
    { clear -Hsorted. induction ps as [|p ps IH]; [split; constructor|].
      cbn in Hsorted. apply StronglySorted_inv in Hsorted as [Hs Hall].
      destruct (IH Hs) as [IH1 IH2].
      apply Forall_app in Hall as [Hall1 Hq]. rewrite Forall_singleton in Hq.
      split; constructor; assumption. }
    destruct Hlt as [Hlt Hsps].
    destruct (IH sh sh'' Hsps Hrps Hps) as [IHs IH1].
    unfold UnsqueezeOp_insert in Hins.
    rewrite (to_int_id q) in Hins by (unfold fits_int; lia).
    apply bind_Ok_inv in Hins as ([] & Hc & E). injection E as <-.
    apply CHECK_Ok_inv in Hc. apply Z.leb_le in Hc.
    rewrite to_size_t_small in Hc by lia.
    assert (Hlen : length (take (Z.to_nat q) sh'') = Z.to_nat q)
      by (rewrite length_take; lia).
    assert (Hmem : forall k, k ∈ to_size_t <$> ps <-> k ∈ ps).
    { intros k. rewrite list_elem_of_fmap. split.
      - intros (ax & -> & Hin). rewrite Forall_forall in Hrps.
        rewrite to_size_t_small by (specialize (Hrps _ Hin); lia). exact Hin.
      - intros Hin. exists k. split; [|exact Hin]. rewrite Forall_forall in Hrps.
        rewrite to_size_t_small by (specialize (Hrps _ Hin); lia). reflexivity. }
    assert (Hmem' : forall k, k ∈ to_size_t <$> (ps ++ [q]) <-> k ∈ ps \/ k = q).
    { intros k. rewrite fmap_app, elem_of_app, Hmem. cbn.
      rewrite to_size_t_small by lia. rewrite list_elem_of_singleton. reflexivity. }
    split.
    + rewrite squeezed_from_app, Hlen, squeezed_from_cons.
      rewrite bool_decide_eq_true_2 by (apply Hmem'; right; lia).
      rewrite (squeezed_from_ext (ps ++ [q]) ps 0 (take (Z.to_nat q) sh'')).
      2:{ intros k Hk. rewrite Hmem', Hmem. rewrite Hlen in Hk. split; [|tauto].
          intros [H|H]; [exact H|lia]. }
      rewrite (squeezed_from_none (ps ++ [q]) _ (drop (Z.to_nat q) sh'')).
      2:{ intros k Hk Hin. apply Hmem' in Hin as [Hin|Hin]; [|lia].
          rewrite Forall_forall in Hlt. specialize (Hlt _ Hin). lia. }
      transitivity (squeezed_from ps 0 (take (Z.to_nat q) sh'' ++ drop (Z.to_nat q) sh''));
        [|rewrite take_drop; exact IHs].
      rewrite squeezed_from_app, Hlen. f_equal.
      symmetry. apply squeezed_from_none.
      intros k Hk Hin. apply Hmem in Hin.
      rewrite Forall_forall in Hlt. specialize (Hlt _ Hin). lia.
    + intros k d Hk Hin. apply elem_of_app in Hin as [Hin|Hin].
      * apply (IH1 k d); [|exact Hin].
        rewrite Forall_forall in Hlt. specialize (Hlt _ Hin).
        rewrite lookup_app_l in Hk by lia.
        rewrite lookup_take_lt in Hk by lia. exact Hk.
      * apply list_elem_of_singleton in Hin.
        rewrite lookup_app_r in Hk by lia.
        replace (k - length (take (Z.to_nat q) sh''))%nat with 0%nat in Hk by lia.
        cbn in Hk. congruence.
Qed.

(** X3: SqueezeOp undoes UnsqueezeOp. *)
Theorem SqueezeOp_undoes_UnsqueezeOp (axes : list Z) (a b : Array) :
  StronglySorted Z.lt axes ->
  Forall (fun ax => 0 <= ax < 2 ^ 31) axes ->
  UnsqueezeOp_RunImpl axes a = Ok b ->
  SqueezeOp_RunImpl axes b = Ok a.
Proof.
  intros Hsorted Hrange Hun. unfold UnsqueezeOp_RunImpl in Hun.
  apply bind_Ok_inv in Hun as (sh' & Hfold & Hre).
  destruct (Unsqueeze_fold_squeezed axes _ _ Hsorted Hrange Hfold) as [Hsq H1].
  apply Reshape_Ok_shape in Hre as Hb. destruct Hb as (Hshape & Hdata & Hdtype).
  apply Reshape_Ok_size in Hre as Htot.
  assert (Hmem : forall k, k ∈ to_size_t <$> axes -> k ∈ axes).
  { intros k (ax & -> & Hin)%list_elem_of_fmap. rewrite Forall_forall in Hrange.
    rewrite to_size_t_small by (specialize (Hrange _ Hin); lia). exact Hin. }
  unfold SqueezeOp_RunImpl. rewrite Hshape.
  rewrite SqueezeOp_loop_spec
    by (intros k d Hk Hin; rewrite Z.add_0_l in Hin; eauto).
  rewrite bind_Ok. cbn [app]. rewrite Hsq. unfold Reshape.
  rewrite Hshape, Htot, Z.eqb_refl.
  rewrite Hdata, Hdtype. destruct a; reflexivity.
Qed.

Lemma SqueezeOp_undoes_UnsqueezeOp_witness :
  StronglySorted Z.lt [0; 3] /\ Forall (fun ax => 0 <= ax < 2 ^ 31) [0; 3] /\
  UnsqueezeOp_RunImpl [0; 3] data_2x3
    = Ok (MakeArray kFloat32 [1; 2; 3; 1] [1; 2; 3; 4; 5; 6]%Q) /\
  SqueezeOp_RunImpl [0; 3] (MakeArray kFloat32 [1; 2; 3; 1] [1; 2; 3; 4; 5; 6]%Q)
    = Ok data_2x3.
Proof.
  assert (H1 : StronglySorted Z.lt [0; 3]) by (repeat constructor; lia).
  assert (H2 : Forall (fun ax => 0 <= ax < 2 ^ 31) [0; 3]) by (repeat constructor; lia).
  assert (H3 : UnsqueezeOp_RunImpl [0; 3] data_2x3
               = Ok (MakeArray kFloat32 [1; 2; 3; 1] [1; 2; 3; 4; 5; 6]%Q))
    by reflexivity.
  split; [exact H1|]. split; [exact H2|]. split; [exact H3|].
  exact (SqueezeOp_undoes_UnsqueezeOp [0; 3] data_2x3 _ H1 H2 H3).
Defined.

(** ** Views and slices *)

Lemma view_array_get v k :
  in_range (vshape v) k ->
  get (view_array v) k =
  Some (elem (data (base v)) (lin (shape (base v)) (zip_with Z.add (vstart v) k))).
Proof.
  intros H. unfold get, view_array, view_offsets. cbn [data shape].
  rewrite <- list_fmap_compose, list_lookup_fmap.
  rewrite all_indices_lookup by exact H. reflexivity.
Qed.

Lemma wf_get a idx :
  wf a -> in_range (shape a) idx -> get a idx = Some (elem (data a) (lin (shape a) idx)).
Proof.
  intros [HF Hl] H. unfold get, elem.
  pose proof (lin_bounds _ _ H) as Hb.
  destruct (data a !! Z.to_nat (lin (shape a) idx)) as [x|] eqn:E; [reflexivity|].
  apply lookup_ge_None in E. lia.
Qed.

Lemma view_array_wf v : Forall (Z.le 0) (vshape v) -> wf (view_array v).
Proof.
  intros H. split; [exact H|]. unfold view_array, view_offsets. cbn [data shape].
  rewrite !length_fmap. apply length_all_indices, H.
Qed.

(** Two arrays of the same shape that hold the same elements are equal. *)
Lemma array_ext a b :
  wf a -> wf b -> dtype a = dtype b -> shape a = shape b ->
  (forall k, in_range (shape a) k -> get a k = get b k) -> a = b.
Proof.
  intros Ha Hb Hd Hs Hget.
  assert (E : data a = data b).
  { rewrite <- (read_all a Ha), <- (read_all b Hb), <- Hs.
    apply fmap_ext_in. intros idx Hin. apply elem_of_all_indices in Hin.
    pose proof (Hget idx Hin) as H.
    rewrite (wf_get a idx Ha Hin) in H.
    rewrite (wf_get b idx Hb) in H by (rewrite <- Hs; exact Hin).
    rewrite <- Hs in H. congruence. }
  destruct a, b. cbn in *. congruence.
Qed.

Lemma in_range_offset s off l k :
  length off = length s -> length l = length s ->
  (forall j d o n, s !! j = Some d -> off !! j = Some o -> l !! j = Some n ->
     0 <= o /\ o + n <= d) ->
  in_range l k -> in_range s (zip_with Z.add off k).
Proof.
  intros Hoff Hl Hb Hk. unfold in_range in *.
  apply Forall2_same_length_lookup in Hk as [Hlen Hk].
  apply Forall2_same_length_lookup. split.
  - rewrite length_zip_with. lia.
  - intros j d x Hd Hx. apply lookup_zip_with_Some in Hx as (o & i & -> & Ho & Hi).
    destruct (l !! j) as [n|] eqn:En; [|apply lookup_ge_None in En;
      apply lookup_lt_Some in Hd; lia].
    specialize (Hk j n i En Hi). specialize (Hb j d o n Hd Ho En). lia.
Qed.

(** *** SliceOp *)

Lemma SliceOp_set_Ok indices axis st en :
  0 <= axis < Z.of_nat (length indices) ->
  SliceOp_set indices axis st en
  = Ok (<[Z.to_nat axis := MakeSlice (Some st) (Some en)]> indices).
Proof.
  intros H. unfold SliceOp_set.
  replace ((0 <=? axis) && (axis <? Z.of_nat (length indices))) with true
    by (symmetry; apply andb_true_iff; split; [apply Z.leb_le|apply Z.ltb_lt]; lia).
  reflexivity.
Qed.

(** What the loop of SliceOp leaves in [indices]. *)
Lemma SliceOp_loop_spec axes :
  forall starts ends indices,
    length starts = length axes -> length ends = length axes ->
    Forall (fun ax => 0 <= ax < Z.of_nat (length indices)) axes ->
    exists indices',
      SliceOp_loop axes starts ends indices = Ok indices' /\
      length indices' = length indices /\
      (forall j, Z.of_nat j ∉ axes -> indices' !! j = indices !! j) /\
      (NoDup axes ->
       forall i ax st en,
         axes !! i = Some ax -> starts !! i = Some st -> ends !! i = Some en ->
         indices' !! Z.to_nat ax = Some (MakeSlice (Some st) (Some en))).
Proof.
  induction axes as [|axis axes IH]; intros starts ends indices Hs He Hax.
  - exists indices. split; [reflexivity|]. split; [reflexivity|]. split; [reflexivity|].
    intros _ i ax st en Hi. discriminate.
  - destruct starts as [|start starts]; [discriminate|].
    destruct ends as [|end_ ends]; [discriminate|].
    apply Forall_cons in Hax as [Haxis Hax].
    cbn [SliceOp_loop]. rewrite SliceOp_set_Ok by exact Haxis. rewrite bind_Ok.
    destruct (IH starts ends
                (<[Z.to_nat axis := MakeSlice (Some start) (Some end_)]> indices))
      as (indices' & Hrun & Hlen & Hother & Hlisted).
    { cbn in Hs. lia. } { cbn in He. lia. }
    { rewrite length_insert. exact Hax. }
    rewrite length_insert in Hlen.
    exists indices'. split; [exact Hrun|]. split; [exact Hlen|]. split.
    + intros j Hj. apply not_elem_of_cons in Hj as [Hne Hj].
      rewrite Hother by exact Hj.
      apply list_lookup_insert_ne. lia.
    + intros Hnd i ax st en Hi Hst Hen. apply NoDup_cons in Hnd as [Hnotin Hnd].
      destruct i as [|i].
      * cbn in Hi, Hst, Hen. injection Hi as <-. injection Hst as <-. injection Hen as <-.
        rewrite Hother by (rewrite Z2Nat.id by lia; exact Hnotin).
        apply list_lookup_insert_eq. lia.
      * cbn in Hi, Hst, Hen. eapply Hlisted; eauto.
Qed.

(** SliceOp cuts out a block: the result, the offset of the block on each
    axis, and its elements. *)
Lemma SliceOp_block axes starts ends a :
  wf a ->
  length starts = length axes -> length ends = length axes ->
  NoDup axes ->
  (forall i ax st en,
     axes !! i = Some ax -> starts !! i = Some st -> ends !! i = Some en ->
     exists d, 0 <= ax /\ shape a !! Z.to_nat ax = Some d /\ 0 <= st <= en /\ en <= d) ->
  exists r off,
    SliceOp_RunImpl axes starts ends a = Ok r /\
    length off = ndim a /\ length (shape r) = ndim a /\
    (forall i ax st en,
       axes !! i = Some ax -> starts !! i = Some st -> ends !! i = Some en ->
       off !! Z.to_nat ax = Some st /\ shape r !! Z.to_nat ax = Some (en - st)) /\
    (forall j d, Z.of_nat j ∉ axes -> shape a !! j = Some d ->
       off !! j = Some 0 /\ shape r !! j = Some d) /\
    (forall k, in_range (shape r) k ->
       in_range (shape a) (zip_with Z.add off k) /\
       get r k = get a (zip_with Z.add off k)) /\
    wf r /\ dtype r = dtype a.
Proof.
  intros Hwf Hs He Hnd Hb.
  assert (Hax : Forall (fun ax => 0 <= ax < Z.of_nat (length (replicate (ndim a) FullSlice)))
                       axes).
  { apply Forall_lookup_2. intros i ax Hi.
    destruct (starts !! i) as [st|] eqn:Est;
      [|apply lookup_ge_None in Est; apply lookup_lt_Some in Hi; lia].
    destruct (ends !! i) as [en|] eqn:Een;
      [|apply lookup_ge_None in Een; apply lookup_lt_Some in Hi; lia].
    destruct (Hb i ax st en Hi Est Een) as (d & H0 & Hd & _).
    apply lookup_lt_Some in Hd. rewrite length_replicate. unfold ndim. lia. }
  destruct (SliceOp_loop_spec axes starts ends _ Hs He Hax)
    as (ix & Hrun & Hlen & Hother & Hlisted).
  rewrite length_replicate in Hlen. specialize (Hlisted Hnd).
  set (v := MakeView a (zip_with Slice_GetStart ix (shape a))
                       (zip_with Slice_GetLength ix (shape a))).
  assert (HAt : At a ix = Ok v).
  { unfold At. rewrite Hlen, Nat.leb_refl, Nat.sub_diag. cbn [replicate].
    rewrite app_nil_r. reflexivity. }
  destruct Hwf as [HF Hl].
  (* the entries of the view, axis by axis *)
  assert (Hin : forall i ax st en,
            axes !! i = Some ax -> starts !! i = Some st -> ends !! i = Some en ->
            vstart v !! Z.to_nat ax = Some st /\ vshape v !! Z.to_nat ax = Some (en - st)).
  { intros i ax st en Hi Hst Hen.
    destruct (Hb i ax st en Hi Hst Hen) as (d & H0 & Hd & Hse & Hed).
    cbn [v vstart vshape]. rewrite !lookup_zip_with, (Hlisted i ax st en Hi Hst Hen), Hd.
    cbn. unfold Slice_GetLength, Slice_GetStart, Slice_GetStop, clamp_bound. cbn.
    destruct (st <? 0) eqn:E1; [apply Z.ltb_lt in E1; lia|].
    destruct (en <? 0) eqn:E2; [apply Z.ltb_lt in E2; lia|].
    split; f_equal; lia. }
  assert (Hout : forall j d, Z.of_nat j ∉ axes -> shape a !! j = Some d ->
            vstart v !! j = Some 0 /\ vshape v !! j = Some d).
  { intros j d Hj Hd. cbn [v vstart vshape].
    rewrite !lookup_zip_with, (Hother j Hj), Hd.
    rewrite lookup_replicate_2 by (eapply lookup_lt_Some, Hd). cbn.
    unfold Slice_GetLength, Slice_GetStart, Slice_GetStop. cbn.
    rewrite Forall_forall in HF. specialize (HF d (list_elem_of_lookup_2 _ _ _ Hd)).
    split; f_equal; lia. }
  assert (Hcases : forall j d, shape a !! j = Some d ->
            exists o n, vstart v !! j = Some o /\ vshape v !! j = Some n /\
                        0 <= o /\ 0 <= n /\ o + n <= d).
  { intros j d Hd.
    destruct (decide (Z.of_nat j ∈ axes)) as [Hj|Hj].
    - apply list_elem_of_lookup_1 in Hj as (i & Hi).
      destruct (starts !! i) as [st|] eqn:Est;
        [|apply lookup_ge_None in Est; apply lookup_lt_Some in Hi; lia].
      destruct (ends !! i) as [en|] eqn:Een;
        [|apply lookup_ge_None in Een; apply lookup_lt_Some in Hi; lia].
      destruct (Hin i _ st en Hi Est Een) as [H1 H2].
      destruct (Hb i _ st en Hi Est Een) as (d' & H0 & Hd' & Hse & Hed).
      rewrite Nat2Z.id in *. assert (d' = d) as -> by congruence.
      exists st, (en - st). split; [exact H1|]. split; [exact H2|].
      clear -Hse Hed. lia.
    - destruct (Hout j d Hj Hd) as [H1 H2].
      rewrite Forall_forall in HF. specialize (HF d (list_elem_of_lookup_2 _ _ _ Hd)).
      exists 0, d. repeat split; try assumption; lia. }
  assert (Hvlen : length (vstart v) = ndim a /\ length (vshape v) = ndim a)
    by (cbn [v vstart vshape]; rewrite !length_zip_with; unfold ndim in *; lia).
  assert (Hvnn : Forall (Z.le 0) (vshape v)).
  { apply Forall_lookup_2. intros j n Hn.
    destruct (shape a !! j) as [d|] eqn:Hd.
    - destruct (Hcases j d Hd) as (o & n' & _ & Hn' & _ & H0 & _). congruence.
    - apply lookup_ge_None in Hd. apply lookup_lt_Some in Hn. unfold ndim in Hvlen. lia. }
  exists (view_array v), (vstart v).
  split; [unfold SliceOp_RunImpl; rewrite Hrun, bind_Ok, HAt; reflexivity|].
  split; [apply Hvlen|]. split; [apply Hvlen|].
  split; [exact Hin|]. split; [exact Hout|]. split.
  - intros k Hk. cbn [view_array shape] in Hk.
    assert (Hr : in_range (shape a) (zip_with Z.add (vstart v) k)).
    { apply (in_range_offset _ _ (vshape v)); [apply Hvlen|apply Hvlen| |exact Hk].
      intros j d o n Hd Ho Hn. destruct (Hcases j d Hd) as (o' & n' & Ho' & Hn' & ?).
      assert (o' = o) as -> by congruence. assert (n' = n) as -> by congruence. lia. }
    split; [exact Hr|].
    rewrite view_array_get by exact Hk. cbn [base v].
    symmetry. apply wf_get; [split; assumption|exact Hr].
  - split; [apply view_array_wf, Hvnn|reflexivity].
Qed.

(** X4: SliceOp cuts out the block between the given bounds. *)
Theorem SliceOp_cuts_block (axes starts ends : list Z) (a : Array) :
  wf a ->
  length starts = length axes -> length ends = length axes ->
  NoDup axes ->
  (forall i ax st en,
     axes !! i = Some ax -> starts !! i = Some st -> ends !! i = Some en ->
     exists d, 0 <= ax /\ shape a !! Z.to_nat ax = Some d /\ 0 <= st <= en /\ en <= d) ->
  exists r off,
    SliceOp_RunImpl axes starts ends a = Ok r /\
    length off = ndim a /\ length (shape r) = ndim a /\
    (forall i ax st en,
       axes !! i = Some ax -> starts !! i = Some st -> ends !! i = Some en ->
       off !! Z.to_nat ax = Some st /\ shape r !! Z.to_nat ax = Some (en - st)) /\
    (forall j d, Z.of_nat j ∉ axes -> shape a !! j = Some d ->
       off !! j = Some 0 /\ shape r !! j = Some d) /\
    (forall k, in_range (shape r) k ->
       in_range (shape a) (zip_with Z.add off k) /\
       get r k = get a (zip_with Z.add off k)) /\
    wf r /\ dtype r = dtype a.
Proof. exact (SliceOp_block axes starts ends a). Qed.

Lemma SliceOp_cuts_block_witness :
  SliceOp_RunImpl [1] [1] [3] data_2x3 = Ok (MakeArray kFloat32 [2; 2] [2; 3; 5; 6]%Q) /\
  exists r off,
    SliceOp_RunImpl [1] [1] [3] data_2x3 = Ok r /\
    length off = ndim data_2x3 /\ length (shape r) = ndim data_2x3 /\
    (forall i ax st en,
       [1] !! i = Some ax -> [1] !! i = Some st -> [3] !! i = Some en ->
       off !! Z.to_nat ax = Some st /\ shape r !! Z.to_nat ax = Some (en - st)) /\
    (forall j d, Z.of_nat j ∉ [1] -> shape data_2x3 !! j = Some d ->
       off !! j = Some 0 /\ shape r !! j = Some d) /\
    (forall k, in_range (shape r) k ->
       in_range (shape data_2x3) (zip_with Z.add off k) /\
       get r k = get data_2x3 (zip_with Z.add off k)) /\
    wf r /\ dtype r = dtype data_2x3.
Proof.
  split; [reflexivity|].
  apply (SliceOp_cuts_block [1] [1] [3] data_2x3).
  - split; [repeat constructor; lia|reflexivity].
  - reflexivity.
  - reflexivity.
  - repeat constructor. intros H. inversion H.
  - intros [|i] ax st en Hax Hst Hen; [|discriminate].
    injection Hax as <-. injection Hst as <-. injection Hen as <-.
    exists 3. cbn. repeat split; lia.
Defined.

(** X5: slicing the padded array at the pads gives the data back. *)
Theorem SliceOp_undoes_PadOp (pads : list Z) (value : Q) (a out : Array) :
  wf a ->
  length pads = (2 * length (shape a))%nat ->
  Forall (Z.le 0) pads ->
  PadOp_RunImpl pads value a = Ok out ->
  let n := length (shape a) in
  SliceOp_RunImpl (seqZ 0 (Z.of_nat n)) (take n pads)
                  (zip_with Z.add (take n pads) (shape a)) out = Ok a.
Proof.
  intros Hwf Hlen Hpads Hrun n.
  rewrite (PadOp_runs pads value a Hwf Hlen Hpads) in Hrun. injection Hrun as <-.
  set (p := padded pads value a).
  assert (Hshape : shape p = padded_shape (shape a) pads) by reflexivity.
  assert (Hstarts : length (take n pads) = n) by (rewrite length_take; lia).
  assert (Hends : length (zip_with Z.add (take n pads) (shape a)) = n)
    by (rewrite length_zip_with; lia).
  assert (Hbounds : forall i ax st en,
            seqZ 0 (Z.of_nat n) !! i = Some ax -> take n pads !! i = Some st ->
            zip_with Z.add (take n pads) (shape a) !! i = Some en ->
            exists d q, ax = Z.of_nat i /\ shape a !! i = Some d /\ en = st + d /\
                        pads !! i = Some st /\ 0 <= st /\ 0 <= q /\ 0 <= d /\
                        shape p !! i = Some (d + (st + q))).
  { intros i ax st en Hax Hst Hen.
    apply lookup_seqZ in Hax as [-> Hi].
    apply lookup_zip_with_Some in Hen as (st' & d & -> & Hst' & Hd).
    assert (st' = st) as -> by congruence.
    rewrite lookup_take_lt in Hst by lia.
    destruct (padded_shape_lookup (shape a) pads i d Hlen Hd) as (p' & q & Hp' & Hq & Hsh).
    assert (p' = st) as -> by congruence.
    rewrite Forall_forall in Hpads.
    pose proof (Hpads _ (list_elem_of_lookup_2 _ _ _ Hst)).
    pose proof (Hpads _ (list_elem_of_lookup_2 _ _ _ Hq)).
    destruct Hwf as [HF _]. rewrite Forall_forall in HF.
    pose proof (HF _ (list_elem_of_lookup_2 _ _ _ Hd)).
    exists d, q. rewrite Hshape. repeat split; try assumption; lia. }
  destruct (SliceOp_block (seqZ 0 (Z.of_nat n)) (take n pads)
              (zip_with Z.add (take n pads) (shape a)) p)
    as (r & off & Hr & Hoff & Hrlen & Hin & _ & Hget & Hrwf & Hdt).
  - apply padded_wf; assumption.
  - rewrite length_seqZ. lia.
  - rewrite length_seqZ. lia.
  - apply NoDup_seqZ.
  - intros i ax st en Hax Hst Hen.
    destruct (Hbounds i ax st en Hax Hst Hen)
      as (d & q & -> & Hd & -> & Hp & H0 & Hq & Hd0 & Hsh).
    exists (d + (st + q)). rewrite Nat2Z.id. repeat split; try assumption; lia.
  - rewrite Hr. f_equal.
    assert (Hpn : ndim p = n).
    { unfold ndim. rewrite Hshape. unfold padded_shape.
      rewrite !length_zip_with, length_take, length_drop. lia. }
    assert (Hpoint : forall i d, shape a !! i = Some d ->
              exists st, pads !! i = Some st /\
                         off !! i = Some st /\ shape r !! i = Some d).
    { intros i d Hd. pose proof (lookup_lt_Some _ _ _ Hd) as Hi. fold n in Hi.
      destruct (pads !! i) as [st|] eqn:Est; [|apply lookup_ge_None in Est; lia].
      exists st. split; [reflexivity|].
      destruct (Hin i (Z.of_nat i) st (st + d)) as [H1 H2].
      - apply lookup_seqZ. lia.
      - rewrite lookup_take_lt by lia. exact Est.
      - apply lookup_zip_with_Some. exists st, d. rewrite lookup_take_lt by lia. auto.
      - rewrite Nat2Z.id in *. split; [exact H1|]. rewrite H2. f_equal. lia. }
    assert (Hrs : shape r = shape a).
    { apply list_eq. intros i. destruct (shape a !! i) as [d|] eqn:Hd.
      - destruct (Hpoint i d Hd) as (st & _ & _ & H). exact H.
      - apply lookup_ge_None. apply lookup_ge_None in Hd. fold n in Hd. lia. }
    assert (Hoffs : off = take n pads).
    { apply list_eq. intros i. destruct (shape a !! i) as [d|] eqn:Hd.
      - destruct (Hpoint i d Hd) as (st & Hst & H & _).
        rewrite lookup_take_lt by (apply lookup_lt_Some in Hd; fold n in Hd; lia).
        congruence.
      - apply lookup_ge_None in Hd. fold n in Hd.
        rewrite (proj2 (lookup_ge_None off i)) by lia.
        symmetry. apply lookup_ge_None. lia. }
    apply array_ext; try assumption.
    intros k Hk. destruct (Hget k Hk) as [_ ->]. rewrite Hoffs.
    rewrite Hrs in Hk.
    apply (padded_inside pads value a Hwf Hlen Hpads k Hk).
Qed.

Lemma SliceOp_undoes_PadOp_witness :
  wf data_2x2 /\ length [1; 0; 0; 1] = (2 * length (shape data_2x2))%nat /\
  Forall (Z.le 0) [1; 0; 0; 1] /\
  PadOp_RunImpl [1; 0; 0; 1] 9 data_2x2
    = Ok (MakeArray kFloat32 [3; 3] [9; 9; 9; 1; 2; 9; 3; 4; 9]%Q) /\
  SliceOp_RunImpl [0; 1] [1; 0] [3; 2]
    (MakeArray kFloat32 [3; 3] [9; 9; 9; 1; 2; 9; 3; 4; 9]%Q) = Ok data_2x2.
Proof.
  assert (H1 : wf data_2x2) by (split; [repeat constructor; lia|reflexivity]).
  assert (H2 : length [1; 0; 0; 1] = (2 * length (shape data_2x2))%nat) by reflexivity.
  assert (H3 : Forall (Z.le 0) [1; 0; 0; 1]) by (repeat constructor; lia).
  assert (H4 : PadOp_RunImpl [1; 0; 0; 1] 9 data_2x2
               = Ok (MakeArray kFloat32 [3; 3] [9; 9; 9; 1; 2; 9; 3; 4; 9]%Q))
    by reflexivity.
  split; [exact H1|]. split; [exact H2|]. split; [exact H3|]. split; [exact H4|].
  exact (SliceOp_undoes_PadOp [1; 0; 0; 1] 9 data_2x2 _ H1 H2 H3 H4).
Defined.

(** X6: padding by nothing on every side leaves the data as it is. *)
Theorem PadOp_zero_pads (value : Q) (a : Array) :
  wf a ->
  PadOp_RunImpl (replicate (2 * length (shape a)) 0) value a = Ok a.
Proof.
  intros Hwf. set (n := length (shape a)). set (pads := replicate (2 * n) 0).
  assert (Hlen : length pads = (2 * length (shape a))%nat)
    by (unfold pads; rewrite length_replicate; reflexivity).
  assert (Hpads : Forall (Z.le 0) pads)
    by (unfold pads; apply Forall_replicate; lia).
  rewrite (PadOp_runs pads value a Hwf Hlen Hpads). f_equal.
  assert (Hshape : shape (padded pads value a) = shape a).
  { change (padded_shape (shape a) pads = shape a).
    apply list_eq. intros i. destruct (shape a !! i) as [d|] eqn:Hd.
    - destruct (padded_shape_lookup (shape a) pads i d Hlen Hd) as (p & q & Hp & Hq & ->).
      unfold pads in Hp, Hq. apply lookup_replicate in Hp as [-> _].
      apply lookup_replicate in Hq as [-> _]. f_equal. lia.
    - apply lookup_ge_None. apply lookup_ge_None in Hd. unfold padded_shape.
      rewrite length_zip_with. lia. }
  apply array_ext.
  - apply padded_wf; assumption.
  - exact Hwf.
  - reflexivity.
  - exact Hshape.
  - intros k Hk. rewrite Hshape in Hk.
    rewrite <- (padded_inside pads value a Hwf Hlen Hpads k Hk). f_equal.
    unfold pad_offset. apply in_range_length in Hk.
    apply list_eq. intros i. rewrite lookup_zip_with.
    destruct (k !! i) as [x|] eqn:Hx.
    + pose proof (lookup_lt_Some _ _ _ Hx) as Hi.
      rewrite lookup_take_lt by lia. unfold pads, n.
      rewrite lookup_replicate_2 by lia. reflexivity.
    + destruct (take _ pads !! i); reflexivity.
Qed.

Lemma PadOp_zero_pads_witness :
  wf data_2x3 /\ PadOp_RunImpl [0; 0; 0; 0] 9 data_2x3 = Ok data_2x3.
Proof.
  assert (H : wf data_2x3) by (split; [repeat constructor; lia|reflexivity]).
  split; [exact H|]. exact (PadOp_zero_pads 9 data_2x3 H).
Defined.

(** *** DynamicSliceOp *)

(** A well-formed array of rank 1. *)
Lemma read_int64_vector a n i x :
  shape a = [n] -> data a !! i = Some x -> Z.of_nat i < n ->
  read_int64 a (Z.of_nat i) = Ok (Qtrunc x).
Proof.
  intros Hs Hx Hi. unfold read_int64, At_index. rewrite Hs.
  replace (Z.of_nat i <? 0) with false by (symmetry; apply Z.ltb_ge; lia).
  replace ((0 <=? Z.of_nat i) && (Z.of_nat i <? n)) with true
    by (symmetry; apply andb_true_iff; split; [apply Z.leb_le|apply Z.ltb_lt]; lia).
  rewrite bind_Ok. unfold AsScalar. cbn [shape data GetTotalSize foldr].
  rewrite Z.mul_1_r, Nat2Z.id. cbn [Z.eqb Pos.eqb Z.to_nat Pos.to_nat Pos.iter_op Nat.add].
  rewrite (drop_S _ _ _ Hx). cbn. reflexivity.
Qed.

Lemma DynamicSliceOp_loop_spec (starts ends : Array) (axes : option Array)
    (A : list Z) (n : nat) :
  shape starts = [Z.of_nat n] -> length (data starts) = n ->
  shape ends = [Z.of_nat n] -> length (data ends) = n ->
  length A = n ->
  (forall i ax, A !! i = Some ax ->
     match axes with
     | Some a => read_int64 a (Z.of_nat i)
     | None => Ok (Z.of_nat i)
     end = Ok ax) ->
  forall m i0 indices,
    (i0 + m = n)%nat ->
    foldM (DynamicSliceOp_round starts ends axes) indices (seqZ (Z.of_nat i0) (Z.of_nat m))
    = SliceOp_loop (drop i0 A) (drop i0 (Qtrunc <$> data starts))
                   (drop i0 (Qtrunc <$> data ends)) indices.
Proof.
  intros Hs Hsl He Hel HA Hread.
  induction m as [|m IH]; intros i0 indices Hn.
  - cbn. rewrite drop_ge by lia. reflexivity.
  - rewrite Nat2Z.inj_succ, seqZ_cons by lia.
    replace (Z.pred (Z.succ (Z.of_nat m))) with (Z.of_nat m) by lia.
    replace (Z.succ (Z.of_nat i0)) with (Z.of_nat (S i0)) by lia.
    destruct (A !! i0) as [ax|] eqn:Eax; [|apply lookup_ge_None in Eax; lia].
    destruct (data starts !! i0) as [st|] eqn:Est; [|apply lookup_ge_None in Est; lia].
    destruct (data ends !! i0) as [en|] eqn:Een; [|apply lookup_ge_None in Een; lia].
    rewrite (drop_S A ax i0 Eax).
    rewrite (drop_S (Qtrunc <$> data starts) (Qtrunc st) i0)
      by (rewrite list_lookup_fmap, Est; reflexivity).
    rewrite (drop_S (Qtrunc <$> data ends) (Qtrunc en) i0)
      by (rewrite list_lookup_fmap, Een; reflexivity).
    rewrite foldM_cons. cbn [SliceOp_loop].
    assert (Hround : DynamicSliceOp_round starts ends axes indices (Z.of_nat i0)
                     = SliceOp_set indices ax (Qtrunc st) (Qtrunc en)).
    { unfold DynamicSliceOp_round.
      rewrite (Hread i0 ax Eax), bind_Ok.
      rewrite (read_int64_vector starts (Z.of_nat n) i0 st Hs Est) by lia.
      rewrite (read_int64_vector ends (Z.of_nat n) i0 en He Een) by lia.
      rewrite !bind_Ok. reflexivity. }
    rewrite Hround.
    destruct (SliceOp_set indices ax (Qtrunc st) (Qtrunc en)) as [indices'|msg];
      [|reflexivity].
    rewrite !bind_Ok. apply IH. lia.
Qed.

(** X7: DynamicSliceOp does what SliceOp does with the same bounds. *)
Theorem DynamicSliceOp_agrees_with_SliceOp (x starts ends axes : Array) (n : nat) :
  shape starts = [Z.of_nat n] -> length (data starts) = n ->
  shape ends = [Z.of_nat n] -> length (data ends) = n ->
  shape axes = [Z.of_nat n] -> length (data axes) = n ->
  DynamicSliceOp_RunImpl x starts ends (Some axes)
  = SliceOp_RunImpl (Qtrunc <$> data axes) (Qtrunc <$> data starts)
                    (Qtrunc <$> data ends) x /\
  DynamicSliceOp_RunImpl x starts ends None
  = SliceOp_RunImpl (seqZ 0 (Z.of_nat n)) (Qtrunc <$> data starts)
                    (Qtrunc <$> data ends) x.
Proof.
  intros Hs Hsl He Hel Ha Hal.
  assert (Hloop : forall ax A,
            length A = n ->
            (forall i x, A !! i = Some x ->
               match ax with
               | Some a => read_int64 a (Z.of_nat i)
               | None => Ok (Z.of_nat i)
               end = Ok x) ->
            DynamicSliceOp_RunImpl x starts ends ax
            = SliceOp_RunImpl A (Qtrunc <$> data starts)
                              (Qtrunc <$> data ends) x).
  { intros ax A HA Hread.
    pose proof (DynamicSliceOp_loop_spec starts ends ax A n Hs Hsl He Hel HA Hread
                  n 0%nat (replicate (ndim x) FullSlice) eq_refl) as H.
    cbn [drop Z.of_nat] in H.
    unfold DynamicSliceOp_RunImpl, SliceOp_RunImpl, ndim in *. rewrite Hs, He.
    cbn [length lookup list_lookup default]. step_checks.
    change (1 =? Z.of_nat 1) with true. cbv iota. rewrite !bind_Ok.
    unfold id. change (Z.of_nat 0) with 0 in H. rewrite H. reflexivity. }
  split.
  - apply Hloop; [rewrite length_fmap; exact Hal|].
    intros i ax Hi. rewrite list_lookup_fmap in Hi.
    destruct (data axes !! i) as [y|] eqn:Ex; [|discriminate].
    injection Hi as <-. apply (read_int64_vector axes (Z.of_nat n) i y Ha Ex).
    apply lookup_lt_Some in Ex. lia.
  - apply Hloop; [rewrite length_seqZ; lia|].
    intros i ax Hi. apply lookup_seqZ in Hi as [-> _]. f_equal.
Qed.

Lemma DynamicSliceOp_agrees_with_SliceOp_witness :
  DynamicSliceOp_RunImpl data_2x3 (MakeArray kInt64 [1] [1]%Q) (MakeArray kInt64 [1] [3]%Q)
    (Some (MakeArray kInt64 [1] [1]%Q))
  = SliceOp_RunImpl [1] [1] [3] data_2x3 /\
  DynamicSliceOp_RunImpl data_2x3 (MakeArray kInt64 [1] [1]%Q) (MakeArray kInt64 [1] [3]%Q)
    None
  = SliceOp_RunImpl [0] [1] [3] data_2x3.
Proof.
  exact (DynamicSliceOp_agrees_with_SliceOp data_2x3 (MakeArray kInt64 [1] [1]%Q)
           (MakeArray kInt64 [1] [3]%Q) (MakeArray kInt64 [1] [1]%Q) 1
           eq_refl eq_refl eq_refl eq_refl eq_refl eq_refl).
Defined.

(** ** Floor and Ceil *)

Lemma AsType_float a dt :
  dt = kFloat32 \/ dt = kFloat64 -> AsType a dt = MakeArray dt (shape a) (data a).
Proof.
  intros H. unfold AsType. f_equal.
  rewrite <- (list_fmap_id (data a)) at 2. apply list_fmap_ext.
  intros i v _. apply cast_float, H.
Qed.

Lemma zip_with_fmap_same {A B C D} (f : B -> C -> D) (g : A -> B) (h : A -> C) (l : list A) :
  zip_with f (g <$> l) (h <$> l) = (fun v => f (g v) (h v)) <$> l.
Proof. induction l as [|x l IH]; [reflexivity|]. cbn. rewrite IH. reflexivity. Qed.

(** The array the kernels of Floor and Ceil compute from a floating
    operand: [out ∓ sign * floats], element by element. *)
Lemma round_kernel_data (x : Array) (cmp : Q -> Q -> bool)
    (op : Q -> Q -> Q) :
  wf x -> dtype x = kFloat32 \/ dtype x = kFloat64 ->
  let out := AsType (AsType x kInt64) (dtype x) in
  (zero ← Zeros [] (dtype x);
   c ← broadcast_compare cmp x zero;
   let sign := AsType c (dtype x) in
   ne ← NotEqual x out;
   let floats := AsType ne (dtype x) in
   sf ← Multiply sign floats;
   in_place (broadcast_binary op) out sf)
  = Ok (MakeArray (dtype x) (shape x)
          ((fun v => op (cast kInt64 v)
                        (Q_of_bool (cmp v 0%Q)
                         * Q_of_bool (negb (Qeq_bool v (cast kInt64 v))))%Q)
             <$> data x)).
Proof.
  intros Hwf Hdt out.
  assert (Hout : out = MakeArray (dtype x) (shape x) (cast kInt64 <$> data x)).
  { unfold out. rewrite AsType_float by exact Hdt. reflexivity. }
  assert (Hwout : wf out) by (unfold out; apply wf_AsType, wf_AsType, Hwf).
  unfold Zeros, Full. rewrite bool_decide_eq_true_2 by constructor. rewrite bind_Ok.
  rewrite (cast_float (dtype x) 0%Q Hdt).
  unfold broadcast_compare.
  rewrite (broadcast_binary_scalar _ x (MakeArray (dtype x) [] _) Hwf eq_refl), !bind_Ok.
  cbn [shape data dtype]. rewrite AsType_float by exact Hdt. cbn [shape data].
  unfold NotEqual, broadcast_compare.
  rewrite (broadcast_binary_same _ x out Hwf Hwout) by (rewrite Hout; reflexivity).
  rewrite !bind_Ok. cbn [shape data dtype]. rewrite AsType_float by exact Hdt.
  cbn [shape data].
  unfold Multiply. rewrite broadcast_binary_same; cbn [shape data dtype].
  2:{ eapply wf_fmap; [exact Hwf|reflexivity|reflexivity]. }
  2:{ apply (wf_zip _ _ x out Hwf Hwout). rewrite Hout. reflexivity. }
  2:{ reflexivity. }
  rewrite bind_Ok. unfold in_place.
  rewrite broadcast_binary_same; cbn [shape data dtype].
  2:{ exact Hwout. }
  2:{ rewrite Hout. cbn [shape data]. split; [apply Hwf|]. cbn [shape data].
      rewrite !length_zip_with, !length_fmap. destruct Hwf as [_ Hl]. lia. }
  2:{ rewrite Hout. reflexivity. }
  rewrite bind_Ok. cbn [shape]. rewrite bool_decide_eq_true_2 by reflexivity.
  step_checks. rewrite Hout. cbn [shape data dtype]. f_equal. f_equal.
  rewrite <- (list_fmap_id (data x)) at 3.
  rewrite (zip_with_fmap_same _ (fun v => v) (cast kInt64)).
  rewrite (zip_with_fmap_same Qmult).
  rewrite (zip_with_fmap_same op).
  reflexivity.
Qed.

Lemma rem_bound_nonpos n d : n <= 0 -> 0 < d -> - d < Z.rem n d <= 0.
Proof.
  intros Hn Hd. pose proof (Z.rem_opp_l (- n) d ltac:(lia)) as E.
  rewrite Z.opp_involutive in E. pose proof (Z.rem_bound_pos (- n) d ltac:(lia) Hd). lia.
Qed.

Lemma Qtrunc_range (v : Q) :
  (inject_Z (- 2 ^ 63) <= v)%Q -> (v < inject_Z (2 ^ 63))%Q ->
  - 2 ^ 63 <= Qtrunc v < 2 ^ 63.
Proof.
  destruct v as [n d]. unfold Qle, Qlt, Qtrunc. cbn [Qnum Qden inject_Z].
  intros Hlo Hhi.
  pose proof (Z.quot_rem' n (Z.pos d)) as E.
  assert (Hr : 0 <= n -> 0 <= Z.rem n (Z.pos d) < Z.pos d)
    by (intros; apply Z.rem_bound_pos; lia).
  assert (Hr' : n <= 0 -> - Z.pos d < Z.rem n (Z.pos d) <= 0)
    by (intros; apply rem_bound_nonpos; lia).
  nia.
Qed.

Lemma cast_int64_in_range (v : Q) :
  (inject_Z (- 2 ^ 63) <= v)%Q -> (v < inject_Z (2 ^ 63))%Q ->
  cast kInt64 v = inject_Z (Qtrunc v).
Proof.
  intros Hlo Hhi. pose proof (Qtrunc_range v Hlo Hhi).
  unfold cast. cbn [int_range]. f_equal.
  rewrite Z.mod_small by lia. lia.
Qed.

(** Truncation against floor and ceiling. *)
Lemma Qtrunc_floor (v : Q) :
  Qfloor v = Qtrunc v - (if negb (Qle_bool 0 v) && negb (Qeq_bool v (inject_Z (Qtrunc v)))
                         then 1 else 0).
Proof.
  destruct v as [n d]. unfold Qtrunc, Qfloor. cbn [Qnum Qden].
  set (t := n ÷ Z.pos d).
  pose proof (Z.quot_rem' n (Z.pos d)) as E. fold t in E.
  pose proof (Z.div_mod n (Z.pos d) ltac:(lia)) as E'.
  pose proof (Z.mod_pos_bound n (Z.pos d) ltac:(lia)) as Hm.
  assert (Hr : 0 <= n -> 0 <= Z.rem n (Z.pos d) < Z.pos d)
    by (intros; apply Z.rem_bound_pos; lia).
  assert (Hr' : n <= 0 -> - Z.pos d < Z.rem n (Z.pos d) <= 0)
    by (intros; apply rem_bound_nonpos; lia).
  destruct (Qle_bool 0 (n # d)) eqn:Hle; cbn [negb andb].
  - apply Qle_bool_iff in Hle. unfold Qle in Hle. cbn in Hle. nia.
  - assert (Hn : n < 0).
    { destruct (Z.ltb_spec n 0) as [H|H]; [exact H|]. exfalso.
      assert (Qle_bool 0 (n # d) = true); [|congruence].
      apply Qle_bool_iff. unfold Qle. cbn. lia. }
    destruct (Qeq_bool (n # d) (inject_Z t)) eqn:Heq; cbn [negb].
    + apply Qeq_bool_iff in Heq. unfold Qeq in Heq. cbn in Heq. nia.
    + assert (Hne : n <> t * Z.pos d).
      { intros H. assert (Qeq_bool (n # d) (inject_Z t) = true); [|congruence].
        apply Qeq_bool_iff. unfold Qeq. cbn. lia. }
      nia.
Qed.

Lemma Qtrunc_ceiling (v : Q) :
  Qceiling v = Qtrunc v + (if negb (Qle_bool v 0) && negb (Qeq_bool v (inject_Z (Qtrunc v)))
                           then 1 else 0).
Proof.
  unfold Qceiling. destruct v as [n d]. unfold Qtrunc, Qfloor, Qopp. cbn [Qnum Qden].
  set (t := n ÷ Z.pos d).
  pose proof (Z.quot_rem' n (Z.pos d)) as E. fold t in E.
  pose proof (Z.div_mod (- n) (Z.pos d) ltac:(lia)) as E'.
  pose proof (Z.mod_pos_bound (- n) (Z.pos d) ltac:(lia)) as Hm.
  assert (Hr : 0 <= n -> 0 <= Z.rem n (Z.pos d) < Z.pos d)
    by (intros; apply Z.rem_bound_pos; lia).
  assert (Hr' : n <= 0 -> - Z.pos d < Z.rem n (Z.pos d) <= 0)
    by (intros; apply rem_bound_nonpos; lia).
  destruct (Qle_bool (n # d) 0) eqn:Hle; cbn [negb andb].
  - apply Qle_bool_iff in Hle. unfold Qle in Hle. cbn in Hle. nia.
  - assert (Hn : 0 < n).
    { destruct (Z.ltb_spec 0 n) as [H|H]; [exact H|]. exfalso.
      assert (Qle_bool (n # d) 0 = true); [|congruence].
      apply Qle_bool_iff. unfold Qle. cbn. lia. }
    destruct (Qeq_bool (n # d) (inject_Z t)) eqn:Heq; cbn [negb].
    + apply Qeq_bool_iff in Heq. unfold Qeq in Heq. cbn in Heq. nia.
    + assert (Hne : n <> t * Z.pos d).
      { intros H. assert (Qeq_bool (n # d) (inject_Z t) = true); [|congruence].
        apply Qeq_bool_iff. unfold Qeq. cbn. lia. }
      nia.
Qed.

Lemma Q_of_bool_and b c : (Q_of_bool b * Q_of_bool c == inject_Z (if b && c then 1 else 0))%Q.
Proof. destruct b, c; reflexivity. Qed.

(** X8: FloorOp rounds each element down to an integer. *)
Theorem FloorOp_rounds_down (x : Array) (warned : list string) :
  wf x -> dtype x = kFloat32 \/ dtype x = kFloat64 ->
  exists r,
    (FloorOp_RunImpl x warned).2 = Ok r /\
    shape r = shape x /\ dtype r = dtype x /\ length (data r) = length (data x) /\
    forall i v,
      data x !! i = Some v ->
      (inject_Z (- 2 ^ 63) <= v)%Q -> (v < inject_Z (2 ^ 63))%Q ->
      exists y, data r !! i = Some y /\ (y == inject_Z (Qfloor v))%Q /\
                (y <= v)%Q /\ (v < y + 1)%Q.
Proof.
  intros Hwf Hdt. eexists. split.
  - unfold FloorOp_RunImpl. cbn [snd].
    exact (round_kernel_data x (fun a b => negb (Qle_bool b a)) Qminus Hwf Hdt).
  - cbn [shape dtype data]. rewrite length_fmap.
    split; [reflexivity|]. split; [reflexivity|]. split; [reflexivity|].
    intros i v Hv Hlo Hhi. rewrite list_lookup_fmap, Hv. cbn [fmap option_fmap option_map].
    eexists. split; [reflexivity|].
    assert (E : (cast kInt64 v
                 - Q_of_bool (negb (Qle_bool 0 v))
                   * Q_of_bool (negb (Qeq_bool v (cast kInt64 v)))
                 == inject_Z (Qfloor v))%Q).
    { rewrite (cast_int64_in_range v Hlo Hhi), Q_of_bool_and, Qtrunc_floor.
      unfold Qminus. rewrite <- inject_Z_opp, <- inject_Z_plus. reflexivity. }
    split; [exact E|]. rewrite E. split; [apply Qfloor_le|].
    change (v < inject_Z (Qfloor v) + inject_Z 1)%Q.
    rewrite <- inject_Z_plus. apply Qlt_floor.
Qed.

Lemma FloorOp_rounds_down_witness :
  (FloorOp_RunImpl (MakeArray kFloat32 [4] [5 # 2; - 5 # 2; 3; -3]%Q) []).2
    = Ok (MakeArray kFloat32 [4] [2; -3; 3; -3]%Q) /\
  exists r,
    (FloorOp_RunImpl (MakeArray kFloat32 [4] [5 # 2; - 5 # 2; 3; -3]%Q) []).2 = Ok r /\
    shape r = [4] /\ dtype r = kFloat32 /\ length (data r) = 4%nat /\
    forall i v,
      [5 # 2; - 5 # 2; 3; -3]%Q !! i = Some v ->
      (inject_Z (- 2 ^ 63) <= v)%Q -> (v < inject_Z (2 ^ 63))%Q ->
      exists y, data r !! i = Some y /\ (y == inject_Z (Qfloor v))%Q /\
                (y <= v)%Q /\ (v < y + 1)%Q.
Proof.
  split; [vm_compute; reflexivity|].
  apply (FloorOp_rounds_down (MakeArray kFloat32 [4] [5 # 2; - 5 # 2; 3; -3]%Q) []).
  - split; [repeat constructor; lia|reflexivity].
  - left. reflexivity.
Defined.

(** X9: CeilOp rounds each element up to an integer. *)
Theorem CeilOp_rounds_up (x : Array) (warned : list string) :
  wf x -> dtype x = kFloat32 \/ dtype x = kFloat64 ->
  exists r,
    (CeilOp_RunImpl x warned).2 = Ok r /\
    shape r = shape x /\ dtype r = dtype x /\ length (data r) = length (data x) /\
    forall i v,
      data x !! i = Some v ->
      (inject_Z (- 2 ^ 63) <= v)%Q -> (v < inject_Z (2 ^ 63))%Q ->
      exists y, data r !! i = Some y /\ (y == inject_Z (Qceiling v))%Q /\
                (v <= y)%Q /\ (y - 1 < v)%Q.
Proof.
  intros Hwf Hdt. eexists. split.
  - unfold CeilOp_RunImpl. cbn [snd].
    exact (round_kernel_data x (fun a b => negb (Qle_bool a b)) Qplus Hwf Hdt).
  - cbn [shape dtype data]. rewrite length_fmap.
    split; [reflexivity|]. split; [reflexivity|]. split; [reflexivity|].
    intros i v Hv Hlo Hhi. rewrite list_lookup_fmap, Hv. cbn [fmap option_fmap option_map].
    eexists. split; [reflexivity|].
    assert (E : (cast kInt64 v
                 + Q_of_bool (negb (Qle_bool v 0))
                   * Q_of_bool (negb (Qeq_bool v (cast kInt64 v)))
                 == inject_Z (Qceiling v))%Q).
    { rewrite (cast_int64_in_range v Hlo Hhi), Q_of_bool_and, Qtrunc_ceiling.
      rewrite <- inject_Z_plus. reflexivity. }
    split; [exact E|]. rewrite E. split; [apply Qle_ceiling|].
    change (inject_Z (Qceiling v) + inject_Z (- 1) < v)%Q.
    rewrite <- inject_Z_plus. apply Qceiling_lt.
Qed.

Lemma CeilOp_rounds_up_witness :
  (CeilOp_RunImpl (MakeArray kFloat32 [4] [5 # 2; - 5 # 2; 3; -3]%Q) []).2
    = Ok (MakeArray kFloat32 [4] [3; -2; 3; -3]%Q) /\
  exists r,
    (CeilOp_RunImpl (MakeArray kFloat32 [4] [5 # 2; - 5 # 2; 3; -3]%Q) []).2 = Ok r /\
    shape r = [4] /\ dtype r = kFloat32 /\ length (data r) = 4%nat /\
    forall i v,
      [5 # 2; - 5 # 2; 3; -3]%Q !! i = Some v ->
      (inject_Z (- 2 ^ 63) <= v)%Q -> (v < inject_Z (2 ^ 63))%Q ->
      exists y, data r !! i = Some y /\ (y == inject_Z (Qceiling v))%Q /\
                (v <= y)%Q /\ (y - 1 < v)%Q.
Proof.
  split; [vm_compute; reflexivity|].
  apply (CeilOp_rounds_up (MakeArray kFloat32 [4] [5 # 2; - 5 # 2; 3; -3]%Q) []).
  - split; [repeat constructor; lia|reflexivity].
  - left. reflexivity.
Defined.

(** ** Reductions *)

Lemma foldM_checks_Ok {A} (c : A -> bool) msg (l : list A) :
  (forall i, i ∈ l -> c i = true) ->
  foldM (fun (_ : unit) i => CHECK (c i) msg) tt l = Ok tt.
Proof.
  induction l as [|x l IH]; intros H; [reflexivity|].
  rewrite foldM_cons, (H x) by left. rewrite CHECK_true, bind_Ok.
  apply IH. intros i Hi. apply H. right. exact Hi.
Qed.

Lemma foldM_checks_Fatal {A} (c : A -> bool) msg (l : list A) i :
  i ∈ l -> c i = false ->
  foldM (fun (_ : unit) i => CHECK (c i) msg) tt l = Fatal msg.
Proof.
  induction l as [|x l IH]; intros Hi Hc; [inversion Hi|].
  rewrite foldM_cons. destruct (c x) eqn:E.
  - rewrite CHECK_true, bind_Ok. apply IH; [|exact Hc].
    apply elem_of_cons in Hi as [->|Hi]; [congruence|exact Hi].
  - rewrite CHECK_false, bind_Fatal. reflexivity.
Qed.

Lemma foldM_checks_cases {A} (c : A -> bool) msg (l : list A) :
  (foldM (fun (_ : unit) i => CHECK (c i) msg) tt l = Ok tt /\
   forall i, i ∈ l -> c i = true) \/
  foldM (fun (_ : unit) i => CHECK (c i) msg) tt l = Fatal msg.
Proof.
  induction l as [|x l IH].
  - left. split; [reflexivity|]. intros i Hi. inversion Hi.
  - rewrite foldM_cons. destruct (c x) eqn:E.
    + rewrite CHECK_true, bind_Ok. destruct IH as [[IH1 IH2]|IH]; [left|right; exact IH].
      split; [exact IH1|]. intros i [->|Hi]%elem_of_cons; [exact E|apply IH2, Hi].
    + right. rewrite CHECK_false. reflexivity.
Qed.

Lemma NormalizeAxis_in_range n ax :
  0 <= ax < Z.of_nat n -> NormalizeAxis n ax = Ok ax.
Proof.
  intros H. unfold NormalizeAxis.
  replace (ax <? 0) with false by (symmetry; apply Z.ltb_ge; lia).
  replace ((0 <=? ax) && (ax <? Z.of_nat n)) with true
    by (symmetry; apply andb_true_iff; split; [apply Z.leb_le|apply Z.ltb_lt]; lia).
  reflexivity.
Qed.

Lemma GetSortedAxes_leading n k :
  (k <= n)%nat -> GetSortedAxes (Some (seqZ 0 (Z.of_nat k))) n = Ok (seqZ 0 (Z.of_nat k)).
Proof.
  intros H. unfold GetSortedAxes.
  rewrite (mapM_result_Ok _ (fun ax => ax)).
  - rewrite list_fmap_id, bind_Ok, bool_decide_eq_true_2 by apply NoDup_seqZ.
    reflexivity.
  - intros ax Hin. apply list_elem_of_lookup_1 in Hin as (i & Hi).
    apply lookup_seqZ in Hi. apply NormalizeAxis_in_range. lia.
Qed.

Lemma mask_leading (n k : nat) :
  (k <= n)%nat ->
  (fun i => bool_decide (i ∈ seqZ 0 (Z.of_nat k))) <$> seqZ 0 (Z.of_nat n)
  = replicate k true ++ replicate (n - k) false.
Proof.
  intros H. apply list_eq. intros i. rewrite list_lookup_fmap.
  destruct (decide (i < n)%nat) as [Hi|Hi].
  - rewrite (proj2 (lookup_seqZ 0 _ i (Z.of_nat i))) by lia. cbn.
    destruct (decide (i < k)%nat) as [Hk|Hk].
    + rewrite lookup_app_l by (rewrite length_replicate; lia).
      rewrite lookup_replicate_2 by lia. f_equal. apply bool_decide_eq_true_2.
      apply (list_elem_of_lookup_2 _ i). apply lookup_seqZ. lia.
    + rewrite lookup_app_r by (rewrite length_replicate; lia).
      rewrite length_replicate, lookup_replicate_2 by lia. f_equal.
      apply bool_decide_eq_false_2. intros Hin.
      apply list_elem_of_lookup_1 in Hin as (j & Hj). apply lookup_seqZ in Hj. lia.
  - destruct (seqZ 0 (Z.of_nat n) !! i) as [p|] eqn:Ep;
      [apply lookup_seqZ in Ep; lia|]. cbn. symmetry. apply lookup_ge_None.
    rewrite length_app, !length_replicate. lia.
Qed.

Lemma select_leading (lead rest : list Z) :
  select true (replicate (length lead) true ++ replicate (length rest) false) (lead ++ rest)
  = lead /\
  select false (replicate (length lead) true ++ replicate (length rest) false) (lead ++ rest)
  = rest.
Proof.
  induction lead as [|d lead [IH1 IH2]].
  - cbn [length replicate app]. split.
    + induction rest as [|d rest IH]; [reflexivity|]. cbn. exact IH.
    + induction rest as [|d rest IH]; [reflexivity|]. cbn. rewrite IH. reflexivity.
  - cbn [length replicate app select Bool.eqb]. rewrite IH1, IH2. split; reflexivity.
Qed.

Lemma merge_leading (k m : nat) (o r : list Z) :
  length r = k -> length o = m ->
  merge (replicate k true ++ replicate m false) o r = r ++ o.
Proof.
  revert r. induction k as [|k IH]; intros r Hr Ho.
  - destruct r; [|discriminate]. cbn [replicate app]. clear Hr.
    revert o Ho. induction m as [|m IHm]; intros o Ho.
    + destruct o; [reflexivity|discriminate].
    + destruct o as [|x o]; [discriminate|]. cbn. rewrite IHm by (cbn in Ho; lia).
      reflexivity.
  - destruct r as [|x r]; [discriminate|]. cbn. rewrite IH by (cbn in Hr; lia).
    reflexivity.
Qed.

(** Summing over the leading axes. *)
Lemma Sum_leading (a : Array) (lead rest : list Z) :
  shape a = lead ++ rest ->
  Sum a (Some (seqZ 0 (Z.of_nat (length lead)))) false
  = Ok (MakeArray (dtype a) rest
          ((fun o => sum_list ((fun l => elem (data a) (lin (shape a) (l ++ o)))
                                 <$> all_indices lead))
             <$> all_indices rest)).
Proof.
  intros Hs. unfold Sum, ndim. rewrite Hs, length_app.
  rewrite GetSortedAxes_leading, bind_Ok by lia.
  unfold reduce, reduce_mask, ndim. rewrite Hs, length_app.
  rewrite mask_leading by lia.
  replace (length lead + length rest - length lead)%nat with (length rest) by lia.
  destruct (select_leading lead rest) as [-> ->].
  f_equal. f_equal. apply fmap_ext_in. intros o Ho. apply elem_of_all_indices in Ho.
  unfold sum_list. f_equal. apply fmap_ext_in. intros l Hl.
  apply elem_of_all_indices in Hl.
  rewrite merge_leading; [reflexivity|apply in_range_length, Hl|apply in_range_length, Ho].
Qed.

(** *** ReduceSumTo *)

Lemma ReduceSumToOp_checks (from to : list Z) :
  (length to <= length from)%nat ->
  (forall i, i ∈ seq 0 (length to) ->
     bool_decide (from !! (length from - i - 1)%nat = to !! (length to - i - 1)%nat) = true)
  <-> to `suffix_of` from.
Proof.
  intros Hlen. split.
  - intros H. exists (take (length from - length to) from).
    rewrite <- (take_drop (length from - length to) from) at 1. f_equal.
    apply list_eq. intros j. rewrite lookup_drop.
    destruct (decide (j < length to)%nat) as [Hj|Hj].
    + specialize (H (length to - j - 1)%nat).
      rewrite bool_decide_eq_true in H.
      replace (length to - (length to - j - 1) - 1)%nat with j in H by lia.
      replace (length from - (length to - j - 1) - 1)%nat
        with (length from - length to + j)%nat in H by lia.
      apply H. apply elem_of_seq. lia.
    + rewrite (proj2 (lookup_ge_None to j)) by lia. apply lookup_ge_None. lia.
  - intros [k ->] i Hi. apply elem_of_seq in Hi. apply bool_decide_eq_true_2.
    rewrite length_app. rewrite lookup_app_r by lia. f_equal. lia.
Qed.

Lemma ReduceSumToOp_cases (a : Array) (to : list Z) :
  ((length (shape a) < length to)%nat ->
   ReduceSumToOp_RunImpl a to = Fatal "Reduce requested but shape actually expands") /\
  ((length to <= length (shape a))%nat -> ~ to `suffix_of` shape a ->
   ReduceSumToOp_RunImpl a to = Fatal "ReduceSumTo shape mismatches") /\
  (forall lead, shape a = lead ++ to ->
   ReduceSumToOp_RunImpl a to =
   (if (length (shape a) =? length to)%nat then Ok a
    else Sum a (Some (seqZ 0 (Z.of_nat (length lead)))) false)).
Proof.
  split; [|split].
  - intros H. unfold ReduceSumToOp_RunImpl.
    replace (length to <=? length (shape a))%nat with false
      by (symmetry; apply Nat.leb_gt; lia).
    reflexivity.
  - intros Hlen Hns. unfold ReduceSumToOp_RunImpl.
    replace (length to <=? length (shape a))%nat with true
      by (symmetry; apply Nat.leb_le; lia).
    rewrite CHECK_true, bind_Ok.
    match goal with
    | |- context [foldM ?f tt ?l] =>
        destruct (foldM_checks_cases
                    (fun i => bool_decide (shape a !! (length (shape a) - i - 1)%nat
                                           = to !! (length to - i - 1)%nat))
                    "ReduceSumTo shape mismatches" l) as [[_ Hall]|HF]
    end.
    + exfalso. apply Hns. apply ReduceSumToOp_checks; assumption.
    + rewrite HF. reflexivity.
  - intros lead Hs.
    assert (Hlen : (length to <= length (shape a))%nat)
      by (rewrite Hs, length_app; lia).
    unfold ReduceSumToOp_RunImpl.
    replace (length to <=? length (shape a))%nat with true
      by (symmetry; apply Nat.leb_le; lia).
    rewrite CHECK_true, bind_Ok.
    rewrite foldM_checks_Ok
      by (apply ReduceSumToOp_checks; [assumption|exists lead; exact Hs]).
    rewrite bind_Ok.
    replace (length (shape a) - length to)%nat with (length lead)
      by (rewrite Hs, length_app; lia).
    reflexivity.
Qed.

Lemma ReduceSumToOp_suffix (a : Array) (to : list Z) :
  is_Ok (ReduceSumToOp_RunImpl a to) -> to `suffix_of` shape a.
Proof.
  intros Hok. destruct (ReduceSumToOp_cases a to) as (Hexp & Hmis & _).
  destruct (decide (length to <= length (shape a))%nat) as [Hlen|Hlen].
  - destruct (suffix_dec to (shape a)) as [Hsuf|Hns]; [exact Hsuf|].
    rewrite (Hmis Hlen Hns) in Hok. destruct Hok.
  - rewrite Hexp in Hok by lia. destruct Hok.
Qed.

(** X10: when ReduceSumTo runs and when it aborts. *)
Theorem ReduceSumToOp_runs_on_suffix (a : Array) (to : list Z) :
  (to `suffix_of` shape a <-> is_Ok (ReduceSumToOp_RunImpl a to)) /\
  ((length (shape a) < length to)%nat ->
   ReduceSumToOp_RunImpl a to = Fatal "Reduce requested but shape actually expands") /\
  ((length to <= length (shape a))%nat -> ~ to `suffix_of` shape a ->
   ReduceSumToOp_RunImpl a to = Fatal "ReduceSumTo shape mismatches").
Proof.
  destruct (ReduceSumToOp_cases a to) as (Hexp & Hmis & Hrun).
  split; [|split; assumption].
  split; [|apply ReduceSumToOp_suffix].
  intros [lead Hs]. rewrite (Hrun lead Hs).
  destruct (length (shape a) =? length to)%nat; [exact I|].
  rewrite (Sum_leading a lead to Hs). exact I.
Qed.

Lemma ReduceSumToOp_runs_on_suffix_witness :
  is_Ok (ReduceSumToOp_RunImpl data_2x3 [3]) /\
  ReduceSumToOp_RunImpl data_2x3 [1; 2; 3]
    = Fatal "Reduce requested but shape actually expands" /\
  ReduceSumToOp_RunImpl data_2x3 [1; 3] = Fatal "ReduceSumTo shape mismatches".
Proof.
  destruct (ReduceSumToOp_runs_on_suffix data_2x3 [3]) as ([H1 _] & _ & _).
  destruct (ReduceSumToOp_runs_on_suffix data_2x3 [1; 2; 3]) as (_ & H2 & _).
  destruct (ReduceSumToOp_runs_on_suffix data_2x3 [1; 3]) as (_ & _ & H3).
  split; [apply H1; exists [2]; reflexivity|].
  split; [apply H2; cbn; lia|].
  apply H3; [cbn; lia|].
  intros [k Hk]. destruct k as [|x [|y k]]; cbn in Hk; try discriminate.
  destruct k; discriminate.
Defined.

(** [exact_sums] on a sample, by evaluation. *)
Ltac exact_sums_by_evaluation :=
  split;
  [ repeat (apply List.Forall_cons;
            [split; [vm_compute; reflexivity | intros _; vm_compute; discriminate]|]);
    apply List.Forall_nil
  | vm_compute; discriminate ].



(** *** The sum of all elements *)

Lemma sum_list_app l1 l2 : (sum_list (l1 ++ l2) == sum_list l1 + sum_list l2)%Q.
Proof.
  unfold sum_list. induction l1 as [|x l1 IH]; cbn; [ring|]. rewrite IH. ring.
Qed.

Lemma sum_list_plus {A} (f g : A -> Q) (l : list A) :
  (sum_list ((fun x => f x + g x) <$> l) == sum_list (f <$> l) + sum_list (g <$> l))%Q.
Proof.
  unfold sum_list. induction l as [|x l IH]; cbn; [ring|]. rewrite IH. ring.
Qed.

Lemma sum_list_zero {A} (l : list A) : (sum_list ((fun _ => 0) <$> l) == 0)%Q.
Proof. unfold sum_list. induction l as [|x l IH]; cbn; [ring|]. rewrite IH. ring. Qed.

Lemma sum_list_ext {A} (f g : A -> Q) (l : list A) :
  (forall x, x ∈ l -> (f x == g x)%Q) -> (sum_list (f <$> l) == sum_list (g <$> l))%Q.
Proof.
  unfold sum_list. induction l as [|x l IH]; intros H; cbn; [ring|].
  rewrite IH by (intros y Hy; apply H; right; exact Hy).
  rewrite (H x) by left. ring.
Qed.

Lemma sum_list_swap {A B} (f : A -> B -> Q) (l1 : list A) (l2 : list B) :
  (sum_list ((fun x => sum_list ((fun y => f x y) <$> l2)) <$> l1)
   == sum_list ((fun y => sum_list ((fun x => f x y) <$> l1)) <$> l2))%Q.
Proof.
  induction l1 as [|x l1 IH].
  - cbn. rewrite sum_list_zero. reflexivity.
  - cbn [fmap list_fmap]. change (sum_list (?a :: ?l)) with (a + sum_list l)%Q.
    rewrite IH.
    rewrite <- (sum_list_plus (fun y => f x y)
                  (fun y => sum_list ((fun x => f x y) <$> l1)) l2).
    apply sum_list_ext. intros y _. reflexivity.
Qed.

Lemma sum_list_bind {A B} (f : B -> Q) (g : A -> list B) (l : list A) :
  (sum_list (f <$> (l ≫= g)) == sum_list ((fun x => sum_list (f <$> g x)) <$> l))%Q.
Proof.
  induction l as [|x l IH]; [reflexivity|].
  rewrite bind_cons, fmap_app, sum_list_app, IH. reflexivity.
Qed.

Lemma all_indices_app s1 s2 :
  all_indices (s1 ++ s2) = l ← all_indices s1; (app l) <$> all_indices s2.
Proof.
  induction s1 as [|d s1 IH].
  - change (all_indices s2 = (app [] <$> all_indices s2) ++ []).
    rewrite app_nil_r. symmetry. apply list_fmap_id.
  - cbn [app all_indices]. rewrite IH.
    generalize (seqZ 0 d). intros l. induction l as [|i l IHl]; [reflexivity|].
    rewrite !bind_cons, bind_app, IHl. f_equal.
    generalize (all_indices s1). intros ls. induction ls as [|x ls IHls]; [reflexivity|].
    rewrite bind_cons, fmap_app, IHls. cbn [fmap list_fmap]. rewrite bind_cons.
    f_equal. rewrite <- list_fmap_compose. reflexivity.
Qed.

(** X12: ReduceSumTo keeps the sum of all elements, on the arrays of
    [exact_sums]. *)
Theorem ReduceSumToOp_keeps_total (a r : Array) (to : list Z) :
  wf a -> exact_sums a -> ReduceSumToOp_RunImpl a to = Ok r ->
  (sum_list (data r) == sum_list (data a))%Q.
Proof.
  intros Hwf _ Hrun.
  assert (Hsuf : to `suffix_of` shape a).
  { apply (ReduceSumToOp_suffix a to). rewrite Hrun. exact I. }
  destruct Hsuf as [lead Hs].
  destruct (length (shape a) =? length to)%nat eqn:E.
  - unfold ReduceSumToOp_RunImpl in Hrun.
    apply bind_Ok_inv in Hrun as (? & _ & Hrun).
    apply bind_Ok_inv in Hrun as (? & _ & Hrun).
    rewrite E in Hrun. injection Hrun as <-. reflexivity.
  - assert (Hr : ReduceSumToOp_RunImpl a to
                 = Sum a (Some (seqZ 0 (Z.of_nat (length lead)))) false).
    { unfold ReduceSumToOp_RunImpl in *.
      apply bind_Ok_inv in Hrun as (? & -> & Hrun). rewrite bind_Ok.
      apply bind_Ok_inv in Hrun as (? & -> & Hrun). rewrite bind_Ok.
      rewrite E. apply Nat.eqb_neq in E.
      replace (length (shape a) - length to)%nat with (length lead)
        by (rewrite Hs, length_app; lia).
      reflexivity. }
    rewrite Hr, (Sum_leading a lead to Hs) in Hrun. injection Hrun as <-.
    cbn [data].
    transitivity (sum_list ((fun idx => elem (data a) (lin (shape a) idx))
                              <$> all_indices (lead ++ to))).
    2:{ rewrite <- Hs, (read_all a Hwf). reflexivity. }
    rewrite all_indices_app, sum_list_bind.
    rewrite (sum_list_swap (fun o l => elem (data a) (lin (shape a) (l ++ o)))
               (all_indices to) (all_indices lead)).
    apply sum_list_ext. intros l _. rewrite <- list_fmap_compose. reflexivity.
Qed.

Lemma ReduceSumToOp_keeps_total_witness :
  wf data_2x3 /\ exact_sums data_2x3 /\
  ReduceSumToOp_RunImpl data_2x3 [3] = Ok (MakeArray kFloat32 [3] [5; 7; 9]%Q) /\
  (sum_list [5; 7; 9] == sum_list (data data_2x3))%Q.
Proof.
  assert (H : wf data_2x3) by (split; [repeat constructor; lia|reflexivity]).
  assert (Hex : exact_sums data_2x3) by exact_sums_by_evaluation.
  split; [exact H|]. split; [exact Hex|]. split; [reflexivity|].
  exact (ReduceSumToOp_keeps_total data_2x3 _ [3] H Hex eq_refl).
Defined.

(** *** ReduceSum and ReduceSumSquare *)

(** X13: without axes, ReduceSum adds up the whole array; the sum is the
    exact one on the arrays of [exact_sums]. *)
Theorem ReduceSumOp_no_axes_sums_everything (keepdims : Z) (a : Array) :
  wf a -> exact_sums a ->
  ReduceSumOp_RunImpl [] keepdims a
  = Ok (MakeArray (dtype a) (if keepdims =? 0 then [] else replicate (ndim a) 1)
          [sum_list (data a)]).
Proof.
  intros Hwf _. unfold ReduceSumOp_RunImpl, Sum. cbn [GetXchainerAxes bool_decide].
  change (GetXchainerAxes []) with (@None (list Z)). cbn [GetSortedAxes].
  rewrite bind_Ok. unfold reduce, reduce_mask.
  rewrite mask_leading by lia. rewrite Nat.sub_diag. cbn [replicate]. rewrite app_nil_r.
  pose proof (select_leading (shape a) []) as [Ht Hf].
  cbn [length replicate] in Ht, Hf. rewrite !app_nil_r in Ht, Hf. unfold ndim.
  rewrite Ht, Hf. cbn [all_indices fmap list_fmap]. f_equal. f_equal.
  - destruct (keepdims =? 0); cbn [negb]; [reflexivity|].
    generalize (shape a). intros s. induction s as [|d s IH]; [reflexivity|].
    cbn. rewrite IH. reflexivity.
  - f_equal. unfold sum_list. f_equal.
    etransitivity; [|apply (read_all a Hwf)]. apply fmap_ext_in.
    intros r Hr. apply elem_of_all_indices, in_range_length in Hr.
    pose proof (merge_leading (length (shape a)) 0 [] r Hr eq_refl) as E.
    cbn [replicate] in E. rewrite !app_nil_r in E. rewrite E. reflexivity.
Qed.

Lemma ReduceSumOp_no_axes_sums_everything_witness :
  wf data_2x3 /\ exact_sums data_2x3 /\
  ReduceSumOp_RunImpl [] 0 data_2x3 = Ok (MakeArray kFloat32 [] [sum_list (data data_2x3)]) /\
  ReduceSumOp_RunImpl [] 1 data_2x3
    = Ok (MakeArray kFloat32 [1; 1] [sum_list (data data_2x3)]).
Proof.
  assert (H : wf data_2x3) by (split; [repeat constructor; lia|reflexivity]).
  assert (Hex : exact_sums data_2x3) by exact_sums_by_evaluation.
  split; [exact H|]. split; [exact Hex|]. split.
  - exact (ReduceSumOp_no_axes_sums_everything 0 data_2x3 H Hex).
  - exact (ReduceSumOp_no_axes_sums_everything 1 data_2x3 H Hex).
Defined.

Lemma sum_list_nonneg (l : list Q) : Forall (fun y => (0 <= y)%Q) l -> (0 <= sum_list l)%Q.
Proof.
  unfold sum_list. induction 1 as [|x l Hx Hl IH]; cbn [foldr]; [apply Qle_refl|].
  change (0 + 0 <= x + foldr Qplus 0 l)%Q. apply Qplus_le_compat; assumption.
Qed.

Lemma elem_nonneg (l : list Q) p : Forall (fun y => (0 <= y)%Q) l -> (0 <= elem l p)%Q.
Proof.
  intros H. unfold elem. destruct (l !! Z.to_nat p) as [x|] eqn:E; cbn.
  - rewrite Forall_forall in H. apply H. eapply list_elem_of_lookup_2, E.
  - apply Qle_refl.
Qed.

Lemma Qsquare_nonneg (x : Q) : (0 <= x * x)%Q.
Proof. destruct x as [n d]. unfold Qle. cbn. nia. Qed.

(** X14: on a floating array, where a square does not wrap around, no
    element of the result of ReduceSumSquare is negative. *)
Theorem ReduceSumSquareOp_nonnegative (axes : list Z) (keepdims : Z) (a r : Array) :
  is_float (dtype a) ->
  ReduceSumSquareOp_RunImpl axes keepdims a = Ok r ->
  Forall (fun y => (0 <= y)%Q) (data r).
Proof.
  intros _ Hrun. unfold ReduceSumSquareOp_RunImpl in Hrun.
  apply bind_Ok_inv in Hrun as (aa & Hmul & Hsum).
  assert (Hsq : Forall (fun y => (0 <= y)%Q) (data aa)).
  { unfold Multiply, broadcast_binary in Hmul.
    destruct (BroadcastShapes (shape a) (shape a)); [|discriminate].
    injection Hmul as <-. cbn [data]. apply Forall_fmap, Forall_forall.
    intros idx _. cbn. apply Qsquare_nonneg. }
  unfold Sum in Hsum. apply bind_Ok_inv in Hsum as (axs & _ & E). injection E as <-.
  unfold reduce. cbn [data]. apply Forall_fmap, Forall_forall. intros o _. cbn.
  apply sum_list_nonneg, Forall_fmap, Forall_forall. intros l _. cbn.
  apply elem_nonneg, Hsq.
Qed.

Lemma ReduceSumSquareOp_nonnegative_witness :
  is_float (dtype data_2x3) /\
  ReduceSumSquareOp_RunImpl [1] 0 data_2x3 = Ok (MakeArray kFloat32 [2] [14; 77]%Q) /\
  Forall (fun y => (0 <= y)%Q) [14; 77]%Q.
Proof.
  assert (Hf : is_float (dtype data_2x3)) by (left; reflexivity).
  split; [exact Hf|]. split; [vm_compute; reflexivity|].
  exact (ReduceSumSquareOp_nonnegative [1] 0 data_2x3 (MakeArray kFloat32 [2] [14; 77]%Q)
           Hf ltac:(vm_compute; reflexivity)).
Defined.

(** ** Transpose *)

Lemma in_range_reverse s idx : in_range s idx -> in_range (reverse s) (reverse idx).
Proof. unfold in_range. apply Forall2_reverse. Qed.

Lemma Transpose_wf a : wf a -> wf (Transpose a).
Proof.
  intros [HF Hl]. split; cbn [Transpose shape data].
  - apply Forall_reverse, HF.
  - rewrite length_fmap. apply length_all_indices, Forall_reverse, HF.
Qed.

Lemma Transpose_get a idx :
  wf a -> in_range (shape a) idx ->
  get (Transpose a) (reverse idx) = get a idx.
Proof.
  intros Hwf Hr. unfold get at 1. cbn [Transpose shape data].
  rewrite list_lookup_fmap, all_indices_lookup by (apply in_range_reverse, Hr).
  cbn. rewrite reverse_involutive. symmetry. apply wf_get; assumption.
Qed.

(** X15: without a permutation the axes are reversed, and doing it twice
    gives the operand back. *)
Theorem TransposeOp_reverses_axes (a : Array) :
  wf a ->
  exists r,
    TransposeOp_RunImpl [] a = Ok r /\
    shape r = reverse (shape a) /\ dtype r = dtype a /\ wf r /\
    (forall idx, in_range (shape a) idx -> get r (reverse idx) = get a idx) /\
    TransposeOp_RunImpl [] r = Ok a.
Proof.
  intros Hwf. exists (Transpose a). split; [reflexivity|]. split; [reflexivity|].
  split; [reflexivity|]. split; [apply Transpose_wf, Hwf|].
  split; [intros idx Hr; apply Transpose_get; assumption|].
  change (Ok (Transpose (Transpose a)) = Ok a). f_equal.
  apply array_ext.
  - apply Transpose_wf, Transpose_wf, Hwf.
  - exact Hwf.
  - reflexivity.
  - cbn [Transpose shape]. apply reverse_involutive.
  - intros k Hk. cbn [Transpose shape] in Hk. rewrite reverse_involutive in Hk.
    rewrite <- (reverse_involutive k) at 1.
    rewrite Transpose_get.
    + apply Transpose_get; assumption.
    + apply Transpose_wf, Hwf.
    + apply in_range_reverse, Hk.
Qed.

Lemma TransposeOp_reverses_axes_witness :
  wf data_2x3 /\
  TransposeOp_RunImpl [] data_2x3 = Ok (MakeArray kFloat32 [3; 2] [1; 4; 2; 5; 3; 6]%Q) /\
  TransposeOp_RunImpl [] (MakeArray kFloat32 [3; 2] [1; 4; 2; 5; 3; 6]%Q) = Ok data_2x3.
Proof.
  assert (H : wf data_2x3) by (split; [repeat constructor; lia|reflexivity]).
  split; [exact H|].
  destruct (TransposeOp_reverses_axes data_2x3 H) as (r & Hr & _ & _ & _ & _ & Hback).
  assert (E : r = MakeArray kFloat32 [3; 2] [1; 4; 2; 5; 3; 6]%Q)
    by (vm_compute in Hr; injection Hr as <-; reflexivity).
  rewrite E in Hr, Hback. split; [exact Hr|exact Hback].
Defined.

Lemma to_int8_small z : 0 <= z < 2 ^ 7 -> to_int8 z = z.
Proof. intros H. unfold to_int8. rewrite Z.mod_small by lia. lia. Qed.

Lemma list_find_NoDup (l : list Z) i p :
  NoDup l -> l !! i = Some p -> list_find (fun ax => ax = p) l = Some (i, p).
Proof.
  intros Hnd Hi. apply list_find_Some. split; [exact Hi|]. split; [reflexivity|].
  intros j y Hj Hlt ->. pose proof (NoDup_lookup l i j p Hnd Hi Hj). lia.
Qed.

(** X16: what TransposeOp does with a permutation of the axes. *)
Theorem TransposeOp_permutes_axes (perm : list Z) (a : Array) :
  wf a ->
  Z.of_nat (ndim a) <= 2 ^ 7 ->
  perm ≡ₚ seqZ 0 (Z.of_nat (ndim a)) ->
  perm <> [] ->
  exists r,
    TransposeOp_RunImpl perm a = Ok r /\
    dtype r = dtype a /\ wf r /\
    length (shape r) = ndim a /\
    (forall i p, perm !! i = Some p -> shape r !! i = shape a !! Z.to_nat p) /\
    (forall idx, in_range (shape r) idx ->
       exists src,
         in_range (shape a) src /\
         (forall i p, perm !! i = Some p -> src !! Z.to_nat p = idx !! i) /\
         get r idx = get a src).
Proof.
  intros Hwf Hn Hperm Hne.
  assert (Hnd : NoDup perm) by (rewrite Hperm; apply NoDup_seqZ).
  assert (Hrange : forall p, p ∈ perm <-> 0 <= p < Z.of_nat (ndim a)).
  { intros p. rewrite Hperm. rewrite elem_of_seqZ. lia. }
  assert (Hlen : length perm = ndim a).
  { rewrite Hperm, length_seqZ. lia. }
  assert (Hint8 : to_int8 <$> perm = perm).
  { rewrite <- (list_fmap_id perm) at 2. apply list_fmap_ext.
    intros i p Hp. apply to_int8_small.
    apply list_elem_of_lookup_2, Hrange in Hp. unfold id. lia. }
  assert (Hsorted : GetSortedAxes (Some perm) (ndim a) = Ok perm).
  { unfold GetSortedAxes. rewrite (mapM_result_Ok _ (fun ax => ax)).
    - rewrite list_fmap_id, bind_Ok, bool_decide_eq_true_2 by exact Hnd. reflexivity.
    - intros ax Hax. apply NormalizeAxis_in_range, Hrange, Hax. }
  set (s' := (fun ax => default 0 (shape a !! Z.to_nat ax)) <$> perm).
  set (src := fun idx : list Z =>
                (fun j => default 0 (p ← list_find (fun ax => ax = j) perm; idx !! p.1))
                  <$> seqZ 0 (Z.of_nat (ndim a))).
  assert (Hrun : TransposeOp_RunImpl perm a =
                 Ok (MakeArray (dtype a) s'
                       ((fun idx => elem (data a) (lin (shape a) (src idx)))
                          <$> all_indices s'))).
  { unfold TransposeOp_RunImpl, GetXchainerAxes.
    rewrite bool_decide_eq_false_2 by exact Hne. rewrite Hint8.
    unfold TransposeAxes. rewrite bool_decide_eq_true_2 by exact Hlen.
    rewrite CHECK_true, bind_Ok, Hsorted, bind_Ok. reflexivity. }
  assert (Hshape : forall i p, perm !! i = Some p -> s' !! i = shape a !! Z.to_nat p).
  { intros i p Hp. unfold s'. rewrite list_lookup_fmap, Hp. cbn.
    apply list_elem_of_lookup_2, Hrange in Hp.
    destruct (shape a !! Z.to_nat p) as [d|] eqn:E; [reflexivity|].
    apply lookup_ge_None in E. unfold ndim in Hp. lia. }
  assert (Hs'nn : Forall (Z.le 0) s').
  { apply Forall_lookup_2. intros i d Hd.
    destruct (perm !! i) as [p|] eqn:Hp.
    - rewrite (Hshape i p Hp) in Hd. destruct Hwf as [HF _].
      rewrite Forall_forall in HF. apply HF. eapply list_elem_of_lookup_2, Hd.
    - apply lookup_ge_None in Hp. apply lookup_lt_Some in Hd.
      unfold s' in Hd. rewrite length_fmap in Hd. lia. }
  assert (Hsrc : forall idx, in_range s' idx ->
            in_range (shape a) (src idx) /\
            forall i p, perm !! i = Some p -> src idx !! Z.to_nat p = idx !! i).
  { intros idx Hidx.
    assert (Hpt : forall i p, perm !! i = Some p -> src idx !! Z.to_nat p = idx !! i).
    { intros i p Hp. pose proof (list_elem_of_lookup_2 _ _ _ Hp) as Hin.
      apply Hrange in Hin. unfold src. rewrite list_lookup_fmap.
      rewrite (proj2 (lookup_seqZ 0 _ (Z.to_nat p) p)) by lia. cbn.
      rewrite (list_find_NoDup perm i p Hnd Hp). cbn.
      destruct (idx !! i) as [x|] eqn:Ex; [reflexivity|].
      apply lookup_ge_None in Ex. apply in_range_length in Hidx.
      apply lookup_lt_Some in Hp. unfold s' in Hidx. rewrite length_fmap in Hidx. lia. }
    split; [|exact Hpt].
    unfold in_range in *. apply Forall2_same_length_lookup. split.
    - unfold src. rewrite length_fmap, length_seqZ. unfold ndim. lia.
    - intros j d x Hd Hx.
      assert (Hj : Z.of_nat j ∈ perm)
        by (apply Hrange; apply lookup_lt_Some in Hd; unfold ndim; lia).
      apply list_elem_of_lookup_1 in Hj as (i & Hi).
      pose proof (Hpt i _ Hi) as E. rewrite Nat2Z.id in E. rewrite Hx in E.
      pose proof (Hshape i _ Hi) as E'. rewrite Nat2Z.id, Hd in E'.
      apply Forall2_same_length_lookup in Hidx as [_ Hidx].
      apply (Hidx i d x); congruence. }
  eexists. split; [exact Hrun|]. cbn [shape dtype data].
  split; [reflexivity|]. split.
  { split; [exact Hs'nn|]. cbn [shape data]. rewrite length_fmap.
    apply length_all_indices, Hs'nn. }
  split; [unfold s'; rewrite length_fmap; exact Hlen|].
  split; [exact Hshape|].
  intros idx Hidx. destruct (Hsrc idx Hidx) as [Hin Hpt].
  exists (src idx). split; [exact Hin|]. split; [exact Hpt|].
  unfold get at 1. cbn [shape data].
  rewrite list_lookup_fmap, all_indices_lookup by exact Hidx. cbn.
  symmetry. apply wf_get; assumption.
Qed.

Lemma TransposeOp_permutes_axes_witness :
  TransposeOp_RunImpl [1; 0] data_2x3
    = Ok (MakeArray kFloat32 [3; 2] [1; 4; 2; 5; 3; 6]%Q) /\
  exists r,
    TransposeOp_RunImpl [1; 0] data_2x3 = Ok r /\
    dtype r = dtype data_2x3 /\ wf r /\
    length (shape r) = ndim data_2x3 /\
    (forall i p, [1; 0] !! i = Some p -> shape r !! i = shape data_2x3 !! Z.to_nat p) /\
    (forall idx, in_range (shape r) idx ->
       exists src,
         in_range (shape data_2x3) src /\
         (forall i p, [1; 0] !! i = Some p -> src !! Z.to_nat p = idx !! i) /\
         get r idx = get data_2x3 src).
Proof.
  split; [vm_compute; reflexivity|].
  apply (TransposeOp_permutes_axes [1; 0] data_2x3).
  - split; [repeat constructor; lia|reflexivity].
  - unfold ndim; simpl; lia.
  - change ([1; 0] ≡ₚ [0; 1]). apply perm_swap.
  - discriminate.
Defined.

(** ** ArgMax and Hardmax *)

Lemma argmax_from_spec (l : list Q) :
  forall i best,
    let r := argmax_from l i best in
    (best.2 <= r.2)%Q /\
    Forall (fun x => (x <= r.2)%Q) l /\
    (r = best \/ exists k, l !! k = Some r.2 /\ r.1 = i + Z.of_nat k).
Proof.
  induction l as [|x l IH]; intros i best; cbn [argmax_from].
  - split; [apply Qle_refl|]. split; [constructor|]. left. reflexivity.
  - destruct (Qle_bool x best.2) eqn:E.
    + destruct (IH (i + 1) best) as (H1 & H2 & H3).
      split; [exact H1|]. split.
      * constructor; [|exact H2]. apply Qle_bool_iff in E. eapply Qle_trans; eassumption.
      * destruct H3 as [H3|(k & Hk & Hm)]; [left; exact H3|].
        right. exists (S k). split; [exact Hk|]. lia.
    + assert (Hlt : (best.2 <= x)%Q).
      { apply Qlt_le_weak, Qnot_le_lt. intros H. apply Qle_bool_iff in H. congruence. }
      destruct (IH (i + 1) (i, x)) as (H1 & H2 & H3). cbn [snd fst] in *.
      split; [eapply Qle_trans; eassumption|]. split.
      * constructor; assumption.
      * right. destruct H3 as [->|(k & Hk & Hm)].
        -- exists 0%nat. split; [reflexivity|]. cbn. lia.
        -- exists (S k). split; [exact Hk|]. lia.
Qed.

(** The position [argmax_list] gives holds a greatest element. *)
Lemma argmax_list_spec (l : list Q) :
  l <> [] ->
  exists v, l !! Z.to_nat (argmax_list l) = Some v /\
            0 <= argmax_list l < Z.of_nat (length l) /\
            Forall (fun x => (x <= v)%Q) l.
Proof.
  destruct l as [|x l]; [congruence|]. intros _. unfold argmax_list.
  destruct (argmax_from_spec l 1 (0, x)) as (H1 & H2 & H3). cbn [fst snd] in *.
  set (r := argmax_from l 1 (0, x)) in *.
  exists r.2. destruct H3 as [->|(k & Hk & Hm)].
  - cbn. split; [reflexivity|]. split; [lia|]. constructor; [apply Qle_refl|exact H2].
  - rewrite Hm. replace (Z.to_nat (1 + Z.of_nat k)) with (S k) by lia. cbn [lookup list_lookup].
    split; [exact Hk|]. apply lookup_lt_Some in Hk. cbn [length]. split; [lia|].
    constructor; assumption.
Qed.

(** The loop of HardmaxOp multiplies the dimensions before [axis] into
    the first entry and the others into the second. *)
Lemma HardmaxOp_shape_loop (a : Z) (k : nat) (s : list Z) :
  (forall i : nat, (a <=? Z.of_nat i) = (k <=? i)%nat) ->
  forall (i0 : nat) (r c : Z),
    foldl (fun (sh : Z * Z) (p : Z * Z) =>
             if a <=? p.1 then (sh.1, sh.2 * p.2) else (sh.1 * p.2, sh.2))
          (r, c) (imap (fun i d => (Z.of_nat (i0 + i), d)) s)
    = (r * GetTotalSize (take (k - i0) s), c * GetTotalSize (drop (k - i0) s)).
Proof.
  intros Hk. induction s as [|d s IH]; intros i0 r c.
  - cbn [imap foldl]. rewrite take_nil, drop_nil. cbn. f_equal; lia.
  - rewrite imap_cons. cbn [foldl fst snd]. rewrite Nat.add_0_r, Hk.
    rewrite (imap_ext _ (fun i d => (Z.of_nat (S i0 + i), d)))
      by (intros i y _; cbn; f_equal; lia).
    destruct (k <=? i0)%nat eqn:E.
    + apply Nat.leb_le in E. rewrite IH.
      replace (k - i0)%nat with 0%nat by lia. replace (k - S i0)%nat with 0%nat by lia.
      cbn [take drop]. rewrite GetTotalSize_cons, take_0, drop_0. f_equal; ring.
    + apply Nat.leb_gt in E. rewrite IH.
      replace (k - i0)%nat with (S (k - S i0)) by lia.
      cbn [take drop]. rewrite GetTotalSize_cons. f_equal; ring.
Qed.

Lemma HardmaxOp_shape_spec axis s :
  let k := Z.to_nat (to_size_t axis) in
  HardmaxOp_shape axis s = (GetTotalSize (take k s), GetTotalSize (drop k s)).
Proof.
  intros k. unfold HardmaxOp_shape.
  rewrite (imap_ext _ (fun i d => (Z.of_nat (0 + i), d))) by reflexivity.
  rewrite (HardmaxOp_shape_loop (to_size_t axis) k).
  - rewrite Nat.sub_0_r. f_equal; lia.
  - intros i. unfold k.
    assert (0 <= to_size_t axis) by (unfold to_size_t; apply Z.mod_pos_bound; lia).
    destruct (Z.leb_spec (to_size_t axis) (Z.of_nat i));
      destruct (Nat.leb_spec (Z.to_nat (to_size_t axis)) i); try reflexivity; lia.
Qed.

Lemma in_range_2 R N i j : 0 <= i < R -> 0 <= j < N -> in_range [R; N] [i; j].
Proof. intros Hi Hj. repeat constructor; lia. Qed.

Lemma in_range_2_inv R N idx :
  in_range [R; N] idx -> exists i j, idx = [i; j] /\ 0 <= i < R /\ 0 <= j < N.
Proof.
  intros H. inversion H as [|d i s' idx' Hi H']; subst.
  inversion H' as [|d' j s'' idx'' Hj H'']; subst. inversion H''; subst.
  exists i, j. auto.
Qed.

Lemma in_range_1 N j : 0 <= j < N -> in_range [N] [j].
Proof. intros Hj. repeat constructor; lia. Qed.

Lemma in_range_1_inv N idx : in_range [N] idx -> exists j, idx = [j] /\ 0 <= j < N.
Proof.
  intros H. inversion H as [|d j s' idx' Hj H']; subst. inversion H'; subst.
  exists j. auto.
Qed.

Lemma Qtrunc_inject_Z z : Qtrunc (inject_Z z) = z.
Proof. unfold Qtrunc. cbn. apply Z.quot_1_r. Qed.

(** The row [i] of a matrix with [N] columns, as ArgMax over axis 1
    reads it. *)
Lemma row_lookup (l : list Q) R N i j :
  0 <= i < R -> 0 <= j < N ->
  ((fun rr => elem l (lin [R; N] (merge [false; true] [i] rr))) <$> all_indices [N])
    !! Z.to_nat j
  = Some (elem l (i * N + j)).
Proof.
  intros Hi Hj. rewrite list_lookup_fmap.
  replace (Z.to_nat j) with (Z.to_nat (lin [N] [j])) by (cbn; lia).
  rewrite all_indices_lookup by (apply in_range_1; lia).
  cbn. f_equal. f_equal. lia.
Qed.

Lemma row_length (l : list Q) R N i :
  0 <= N ->
  length ((fun rr => elem l (lin [R; N] (merge [false; true] [i] rr))) <$> all_indices [N])
  = Z.to_nat N.
Proof.
  intros HN. rewrite length_fmap, length_all_indices by (repeat constructor; lia).
  cbn. f_equal. lia.
Qed.

(** What HardmaxOp computes, row by row of the matrix it builds. *)
Lemma HardmaxOp_rows (axis : Z) (x : Array) :
  let k := Z.to_nat (to_size_t axis) in
  let R := GetTotalSize (take k (shape x)) in
  let N := GetTotalSize (drop k (shape x)) in
  wf x ->
  (N = 0 -> HardmaxOp_RunImpl axis x = Fatal "Cannot compute ArgMax for an empty array") /\
  (0 < N ->
   exists out,
     HardmaxOp_RunImpl axis x = Ok out /\
     shape out = shape x /\ dtype out = dtype x /\
     length (data out) = length (data x) /\
     forall i, 0 <= i < R ->
       exists m, 0 <= m < N /\
         forall j, 0 <= j < N ->
           data out !! Z.to_nat (i * N + j) = Some (Q_of_bool (bool_decide (m = j))) /\
           (elem (data x) (i * N + j) <= elem (data x) (i * N + m))%Q).
Proof.
  intros k R N Hwf. pose proof Hwf as [HF Hl].
  assert (HR : 0 <= R) by (apply GetTotalSize_nonneg, Forall_take, HF).
  assert (HN : 0 <= N) by (apply GetTotalSize_nonneg, Forall_drop, HF).
  assert (HT : GetTotalSize (shape x) = R * N).
  { rewrite <- (take_drop k (shape x)) at 1. apply GetTotalSize_app. }
  assert (Hre : Reshape x [R; N] = Ok (MakeArray (dtype x) [R; N] (data x))).
  { unfold Reshape.
    replace (GetTotalSize [R; N] =? GetTotalSize (shape x)) with true; [reflexivity|].
    symmetry. apply Z.eqb_eq. rewrite HT. cbn. lia. }
  assert (Hsorted : GetSortedAxes (Some [1]) 2 = Ok [1]) by (vm_compute; reflexivity).
  assert (Hmask : reduce_mask (MakeArray (dtype x) [R; N] (data x)) [1] = [false; true])
    by (vm_compute; reflexivity).
  unfold HardmaxOp_RunImpl. rewrite (HardmaxOp_shape_spec axis (shape x)).
  fold k R N. cbn [fst snd]. rewrite Hre, bind_Ok.
  unfold ArgMax. change (ndim (MakeArray (dtype x) [R; N] (data x))) with 2%nat.
  rewrite Hsorted, bind_Ok, Hmask. cbn [select Bool.eqb shape forallb andb].
  split.
  - intros ->. reflexivity.
  - intros Hpos.
    replace (negb (N =? 0)) with true by (symmetry; apply negb_true_iff, Z.eqb_neq; lia).
    rewrite CHECK_true, bind_Ok.
    unfold reduce. rewrite Hmask. cbn [select Bool.eqb shape data dtype].
    unfold Eye. replace (0 <=? N) with true by (symmetry; apply Z.leb_le; lia).
    rewrite CHECK_true, !bind_Ok.
    unfold Take. change (ndim (MakeArray (dtype x) [N; N] _)) with 2%nat.
    change (NormalizeAxis 2 0) with (Ok 0). rewrite bind_Ok.
    change (Z.to_nat 0) with 0%nat.
    cbn [shape data dtype length].
    change (take 0 [N; N] ++ [R] ++ drop 1 [N; N]) with [R; N].
    change (default 0 ([N; N] !! 0%nat)) with N.
    set (rows := fun o : list Z =>
                   (fun rr => elem (data x) (lin [R; N] (merge [false; true] o rr)))
                     <$> all_indices [N]).
    set (am := fun i : Z => argmax_list (rows [i])).
    (* the position of the greatest element of each row *)
    assert (Ham : forall i, 0 <= i < R ->
              0 <= am i < N /\
              forall j, 0 <= j < N ->
                (elem (data x) (i * N + j) <= elem (data x) (i * N + am i))%Q).
    { intros i Hi.
      assert (Hlen : length (rows [i]) = Z.to_nat N) by (apply row_length, HN).
      destruct (argmax_list_spec (rows [i])) as (v & Hv & Hb & Hall).
      { intros E. rewrite E in Hlen. cbn [length] in Hlen. lia. }
      rewrite Hlen in Hb. fold (am i) in Hv, Hb. split; [lia|]. intros j Hj.
      assert (Hrow : rows [i] !! Z.to_nat (am i) = Some (elem (data x) (i * N + am i)))
        by (apply row_lookup; lia).
      rewrite Hrow in Hv. injection Hv as <-.
      rewrite Forall_forall in Hall. apply Hall.
      apply (list_elem_of_lookup_2 _ (Z.to_nat j)). unfold rows.
      apply row_lookup; assumption. }
    (* the elements of the result *)
    assert (Hpoint : forall i j, 0 <= i < R -> 0 <= j < N ->
              elem ((fun idx => Q_of_bool (bool_decide (idx !! 0%nat = idx !! 1%nat)))
                      <$> all_indices [N; N])
                   (lin [N; N]
                      ((Scalar_to_int64
                          (elem ((fun o => inject_Z (argmax_list (rows o)))
                                   <$> all_indices [R])
                                (lin [R] [i])) mod N) :: [j]))
              = Q_of_bool (bool_decide (am i = j))).
    { intros i j Hi Hj. destruct (Ham i Hi) as [Hb _].
      assert (E : elem ((fun o => inject_Z (argmax_list (rows o))) <$> all_indices [R])
                       (lin [R] [i]) = inject_Z (am i)).
      { unfold elem. rewrite list_lookup_fmap, all_indices_lookup
          by (apply in_range_1; lia). reflexivity. }
      rewrite E. unfold Scalar_to_int64. rewrite Qtrunc_inject_Z.
      rewrite Z.mod_small by lia.
      unfold elem. rewrite list_lookup_fmap, all_indices_lookup
        by (apply in_range_2; lia).
      cbn. f_equal. apply bool_decide_ext. split; congruence. }
    assert (Hfin : forall dt l,
              Reshape (MakeArray dt [R; N] l) (shape x) = Ok (MakeArray dt (shape x) l)).
    { intros dt l. unfold Reshape. cbn [shape data dtype].
      replace (GetTotalSize (shape x) =? GetTotalSize [R; N]) with true
        by (symmetry; apply Z.eqb_eq; rewrite HT; cbn; lia).
      reflexivity. }
    rewrite bind_Ok, Hfin.
    eexists. split; [reflexivity|].
    cbn [shape dtype data]. split; [reflexivity|]. split; [reflexivity|]. split.
    { rewrite length_fmap, length_all_indices by (repeat constructor; lia).
      rewrite Hl, HT. f_equal. cbn. lia. }
    intros i Hi. destruct (Ham i Hi) as [Hb Hmax]. exists (am i). split; [exact Hb|].
    intros j Hj. split; [|apply Hmax, Hj].
    rewrite list_lookup_fmap.
    replace (Z.to_nat (i * N + j)) with (Z.to_nat (lin [R; N] [i; j])) by (cbn; lia).
    rewrite all_indices_lookup by (apply in_range_2; lia).
    cbn [fmap option_fmap option_map]. f_equal.
    apply (Hpoint i j Hi Hj).
Qed.

(** X17: HardmaxOp marks one greatest element in each row. *)
Theorem HardmaxOp_one_hot (axis : Z) (x : Array) :
  let k := Z.to_nat (to_size_t axis) in
  let R := GetTotalSize (take k (shape x)) in
  let N := GetTotalSize (drop k (shape x)) in
  wf x ->
  (N = 0 -> HardmaxOp_RunImpl axis x = Fatal "Cannot compute ArgMax for an empty array") /\
  (0 < N ->
   exists out,
     HardmaxOp_RunImpl axis x = Ok out /\
     shape out = shape x /\ dtype out = dtype x /\
     length (data out) = length (data x) /\
     forall i, 0 <= i < R ->
       exists m, 0 <= m < N /\
         forall j, 0 <= j < N ->
           data out !! Z.to_nat (i * N + j) = Some (if bool_decide (m = j) then 1 else 0)%Q /\
           (elem (data x) (i * N + j) <= elem (data x) (i * N + m))%Q).
Proof. exact (HardmaxOp_rows axis x). Qed.

Lemma HardmaxOp_one_hot_witness :
  wf (MakeArray kFloat32 [2; 3] [1; 5; 3; 4; 4; -6]%Q) /\
  HardmaxOp_RunImpl 1 (MakeArray kFloat32 [2; 3] [1; 5; 3; 4; 4; -6]%Q)
    = Ok (MakeArray kFloat32 [2; 3] [0; 1; 0; 1; 0; 0]%Q) /\
  HardmaxOp_RunImpl 1 (MakeArray kFloat32 [2; 0] [])
    = Fatal "Cannot compute ArgMax for an empty array".
Proof.
  assert (H : wf (MakeArray kFloat32 [2; 3] [1; 5; 3; 4; 4; -6]%Q))
    by (split; [repeat constructor; lia|reflexivity]).
  assert (H' : wf (MakeArray kFloat32 [2; 0] []))
    by (split; [repeat constructor; lia|reflexivity]).
  split; [exact H|]. split.
  - destruct (HardmaxOp_one_hot 1 _ H) as [_ H1].
    destruct (H1 ltac:(vm_compute; reflexivity)) as (out & Hout & _).
    assert (E : out = MakeArray kFloat32 [2; 3] [0; 1; 0; 1; 0; 0]%Q)
      by (vm_compute in Hout; injection Hout as <-; reflexivity).
    rewrite E in Hout. exact Hout.
  - destruct (HardmaxOp_one_hot 1 _ H') as [H0 _]. apply H0. reflexivity.
Defined.

(** X18: with an axis given from the end, or past the last one, every
    element of the result is 1. *)
Theorem HardmaxOp_axis_outside (axis : Z) (x : Array) :
  wf x ->
  Z.of_nat (ndim x) < 2 ^ 63 ->
  - 2 ^ 63 <= axis < 0 \/ Z.of_nat (ndim x) <= axis < 2 ^ 63 ->
  HardmaxOp_RunImpl axis x
  = Ok (MakeArray (dtype x) (shape x) (replicate (length (data x)) 1%Q)).
Proof.
  intros Hwf Hrank Haxis.
  assert (Hk : (length (shape x) <= Z.to_nat (to_size_t axis))%nat).
  { unfold ndim in *. destruct Haxis as [Hneg|Hbig].
    - rewrite to_size_t_negative by exact Hneg. lia.
    - rewrite to_size_t_small by lia. lia. }
  pose proof (HardmaxOp_rows axis x Hwf) as [_ H]. cbv zeta in H.
  rewrite take_ge, drop_ge in H by exact Hk.
  change (GetTotalSize []) with 1 in H.
  destruct (H ltac:(lia)) as (out & Hrun & Hshape & Hdtype & Hlen & Hrows).
  rewrite Hrun. f_equal.
  assert (Hdata : data out = replicate (length (data x)) 1%Q).
  { apply list_eq. intros i. destruct (decide (i < length (data x))%nat) as [Hi|Hi].
    - rewrite lookup_replicate_2 by exact Hi.
      destruct (Hrows (Z.of_nat i)) as (m & Hm & Hj).
      { rewrite <- (wf_total x Hwf). lia. }
      destruct (Hj 0 ltac:(lia)) as [E _].
      replace (Z.to_nat (Z.of_nat i * 1 + 0)) with i in E by lia.
      rewrite E. rewrite bool_decide_eq_true_2 by lia. reflexivity.
    - rewrite (proj2 (lookup_ge_None _ _)) by lia.
      symmetry. apply lookup_replicate_None. lia. }
  destruct out as [dt sh l]. cbn in *. congruence.
Qed.

Lemma HardmaxOp_axis_outside_witness :
  HardmaxOp_RunImpl (-1) data_2x3 = Ok (MakeArray kFloat32 [2; 3] [1; 1; 1; 1; 1; 1]%Q) /\
  HardmaxOp_RunImpl 2 data_2x3 = Ok (MakeArray kFloat32 [2; 3] [1; 1; 1; 1; 1; 1]%Q).
Proof.
  assert (H : wf data_2x3) by (split; [repeat constructor; lia|reflexivity]).
  split.
  - apply (HardmaxOp_axis_outside (-1) data_2x3 H); [unfold ndim; simpl; lia|left; lia].
  - apply (HardmaxOp_axis_outside 2 data_2x3 H);
      [unfold ndim; simpl; lia|right; unfold ndim; simpl; lia].
Defined.

(** ** SelectItem *)

Lemma Arange_rows B C :
  0 <= B -> 0 < C ->
  Arange 0 (B * C) C
  = Ok (MakeArray kInt64 [B] ((fun i => inject_Z (0 + i * C)) <$> seqZ 0 B)).
Proof.
  intros HB HC. unfold Arange.
  replace (negb (C =? 0)) with true by (symmetry; apply negb_true_iff, Z.eqb_neq; lia).
  rewrite CHECK_true, bind_Ok.
  replace (0 <? C) with true by (symmetry; apply Z.ltb_lt; lia).
  assert (E : (B * C - 0 + C - 1) / C = B).
  { symmetry. apply (Z.div_unique _ _ _ (C - 1)); lia. }
  rewrite E, Z.max_r by lia. reflexivity.
Qed.

(** X19: SelectItemOp picks, for each row, the element at the position the
    index gives, counted from the start of the row. *)
Theorem SelectItemOp_picks (a indices : Array) (B C : Z) :
  wf a -> shape a = [B; C] -> 0 < C ->
  wf indices -> shape indices = [B] ->
  exists out,
    SelectItemOp_RunImpl a indices = Ok out /\
    shape out = [B] /\ dtype out = dtype a /\ length (data out) = Z.to_nat B /\
    forall (i : nat) (z : Z),
      data indices !! i = Some (inject_Z z) ->
      0 <= Z.of_nat i * C + z < B * C ->
      data out !! i = Some (elem (data a) (Z.of_nat i * C + z)) /\
      (0 <= z < C -> data out !! i = get a [Z.of_nat i; z]).
Proof.
  intros Hwf Hs HC Hwi Hsi.
  assert (HB : 0 <= B).
  { destruct Hwf as [HF _]. rewrite Hs in HF. apply Forall_cons in HF. apply HF. }
  assert (Hrun : SelectItemOp_RunImpl a indices =
                 (ar ← Arange 0 (B * C) C;
                  take_indices ← Add indices ar;
                  flat ← Reshape a [B * C];
                  Take flat take_indices 0))
    by (unfold SelectItemOp_RunImpl; rewrite Hs; reflexivity).
  rewrite Hrun. clear Hrun.
  rewrite (Arange_rows B C HB HC), bind_Ok.
  unfold Add. rewrite (broadcast_binary_same Qplus indices _ Hwi).
  2:{ split; [repeat constructor; lia|]. cbn [shape data].
      rewrite length_fmap, length_seqZ. cbn. f_equal. lia. }
  2:{ rewrite Hsi. reflexivity. }
  rewrite bind_Ok.
  assert (Hre : Reshape a [B * C] = Ok (MakeArray (dtype a) [B * C] (data a))).
  { unfold Reshape.
    rewrite Hs. replace (GetTotalSize [B * C] =? GetTotalSize [B; C]) with true;
      [reflexivity|]. symmetry. apply Z.eqb_eq. cbn. lia. }
  rewrite Hre, bind_Ok. unfold Take.
  change (ndim (MakeArray (dtype a) [B * C] (data a))) with 1%nat.
  change (NormalizeAxis 1 0) with (Ok 0). rewrite bind_Ok.
  change (Z.to_nat 0) with 0%nat. cbn [shape data dtype]. rewrite Hsi.
  change (take 0 [B * C] ++ [B] ++ drop 1 [B * C]) with [B].
  change (default 0 ([B * C] !! 0%nat)) with (B * C). cbn [length].
  eexists. split; [reflexivity|]. cbn [shape dtype data].
  split; [reflexivity|]. split; [reflexivity|]. split.
  { rewrite length_fmap, length_all_indices by (repeat constructor; lia).
    f_equal. cbn. lia. }
  intros i z Hi Hflat.
  assert (HiB : Z.of_nat i < B).
  { apply lookup_lt_Some in Hi. destruct Hwi as [_ Hl]. rewrite Hsi in Hl.
    cbn in Hl. lia. }
  assert (Hsel : ((fun idx : list Z =>
              elem (data a)
                (lin [B * C]
                   (take 0 idx ++
                    Scalar_to_int64
                      (elem (zip_with Qplus (data indices)
                               ((fun i0 => inject_Z (0 + i0 * C)) <$> seqZ 0 B))
                            (lin [B] (take 1 (drop 0 idx))))
                    mod (B * C) :: drop (0 + 1) idx))) <$> all_indices [B]) !! i
            = Some (elem (data a) (Z.of_nat i * C + z))).
  { rewrite list_lookup_fmap.
    replace i with (Z.to_nat (lin [B] [Z.of_nat i])) at 1 by (cbn; lia).
    rewrite all_indices_lookup by (apply in_range_1; lia).
    cbn [fmap option_fmap option_map take drop app Nat.add]. f_equal.
    assert (E : elem (zip_with Qplus (data indices)
                        ((fun i0 => inject_Z (0 + i0 * C)) <$> seqZ 0 B))
                     (lin [B] [Z.of_nat i])
                = Qplus (inject_Z z) (inject_Z (0 + Z.of_nat i * C))).
    { unfold elem. replace (Z.to_nat (lin [B] [Z.of_nat i])) with i by (cbn; lia).
      rewrite lookup_zip_with, Hi. cbn.
      rewrite list_lookup_fmap, (proj2 (lookup_seqZ 0 B i (Z.of_nat i))) by lia.
      reflexivity. }
    rewrite E. unfold Scalar_to_int64, Qtrunc. cbn [Qplus inject_Z Qnum Qden Pos.mul].
    rewrite Z.quot_1_r.
    replace ((z * 1 + (0 + Z.of_nat i * C) * 1) mod (B * C)) with (Z.of_nat i * C + z)
      by (rewrite Z.mod_small; lia).
    cbn [lin GetTotalSize foldr]. f_equal. lia. }
  split; [exact Hsel|].
  intros Hz. rewrite Hsel. symmetry.
  rewrite (wf_get a [Z.of_nat i; z] Hwf) by (rewrite Hs; apply in_range_2; lia).
  rewrite Hs. cbn [lin GetTotalSize foldr]. f_equal. f_equal. lia.
Qed.

Lemma SelectItemOp_picks_witness :
  SelectItemOp_RunImpl data_2x3 (MakeArray kInt64 [2] [inject_Z 2; inject_Z 0])
    = Ok (MakeArray kFloat32 [2] [3; 4]%Q) /\
  exists out,
    SelectItemOp_RunImpl data_2x3 (MakeArray kInt64 [2] [inject_Z 2; inject_Z 0]) = Ok out /\
    shape out = [2] /\ dtype out = dtype data_2x3 /\ length (data out) = Z.to_nat 2 /\
    forall (i : nat) (z : Z),
      [inject_Z 2; inject_Z 0] !! i = Some (inject_Z z) ->
      0 <= Z.of_nat i * 3 + z < 2 * 3 ->
      data out !! i = Some (elem (data data_2x3) (Z.of_nat i * 3 + z)) /\
      (0 <= z < 3 -> data out !! i = get data_2x3 [Z.of_nat i; z]).
Proof.
  split; [vm_compute; reflexivity|].
  apply (SelectItemOp_picks data_2x3 (MakeArray kInt64 [2] [inject_Z 2; inject_Z 0]) 2 3).
  - split; [repeat constructor; lia|reflexivity].
  - reflexivity.
  - lia.
  - split; [repeat constructor; lia|reflexivity].
  - reflexivity.
Defined.

(** ** More on Gemm *)

(** X20: with alpha 1 and beta 0, Gemm is the product of its operands, as
    long as the flattened size fits an int. *)
Theorem GemmOp_is_Dot_when_sizes_fit (trans_a trans_b : bool) (alpha beta : Q)
    (a b c : Array) :
  (alpha == 1)%Q -> (beta == 0)%Q ->
  fits_int (trailing_size trans_a a) -> fits_int (trailing_size trans_b b) ->
  GemmOp_RunImpl trans_a trans_b alpha beta a b c =
    (xa ← Gemm_operand_spec trans_a a; xb ← Gemm_operand_spec trans_b b; Dot xa xb) /\
  ((length (shape a) <= 2)%nat -> (length (shape b) <= 2)%nat ->
   GemmOp_RunImpl false false alpha beta a b c = MatMulOp_RunImpl a b).
Proof.
  intros Ha Hb Hfa Hfb. split.
  - destruct GemmOp_alpha1_beta0 as [H _].
    apply (H trans_a trans_b alpha beta a b c Ha Hb Hfa Hfb).
  - intros Hra Hrb. unfold GemmOp_RunImpl, Gemm_flatten, MatMulOp_RunImpl.
    replace (2 <? Z.of_nat (length (shape a))) with false
      by (symmetry; apply Z.ltb_ge; lia).
    replace (2 <? Z.of_nat (length (shape b))) with false
      by (symmetry; apply Z.ltb_ge; lia).
    rewrite !bind_Ok. apply Qeq_bool_iff in Ha, Hb. rewrite Ha, Hb. cbn [negb].
    destruct (Dot a b); reflexivity.
Qed.

Lemma GemmOp_is_Dot_when_sizes_fit_witness :
  fits_int (trailing_size false gemm_A) /\ fits_int (trailing_size false gemm_B) /\
  GemmOp_RunImpl false false 1 0 gemm_A gemm_B gemm_C =
    (xa ← Gemm_operand_spec false gemm_A; xb ← Gemm_operand_spec false gemm_B; Dot xa xb) /\
  GemmOp_RunImpl false false 1 0 data_2x3 (Transpose data_2x3) gemm_C
    = MatMulOp_RunImpl data_2x3 (Transpose data_2x3).
Proof.
  assert (H1 : fits_int (trailing_size false gemm_A)) by (unfold fits_int; vm_compute; split; congruence).
  assert (H2 : fits_int (trailing_size false gemm_B)) by (unfold fits_int; vm_compute; split; congruence).
  assert (H3 : fits_int (trailing_size false data_2x3)) by (unfold fits_int; vm_compute; split; congruence).
  assert (H4 : fits_int (trailing_size false (Transpose data_2x3)))
    by (unfold fits_int; vm_compute; split; congruence).
  split; [exact H1|]. split; [exact H2|]. split.
  - apply (GemmOp_is_Dot_when_sizes_fit false false 1 0 gemm_A gemm_B gemm_C);
      [reflexivity|reflexivity|exact H1|exact H2].
  - apply (GemmOp_is_Dot_when_sizes_fit false false 1 0 data_2x3 (Transpose data_2x3) gemm_C);
      [reflexivity|reflexivity|exact H3|exact H4|cbn; lia|cbn; lia].
Defined.

(** ** More on Reshape *)

Lemma Reshape_Ok_inv a s r :
  Reshape a s = Ok r ->
  r = MakeArray (dtype a) s (data a) /\
  GetTotalSize s = GetTotalSize (shape a).
Proof.
  unfold Reshape. intros H.
  destruct (GetTotalSize s =? GetTotalSize (shape a)) eqn:E2; [|discriminate].
  injection H as <-. apply Z.eqb_eq in E2. auto.
Qed.

Lemma ReshapeOp_shape_positive total s :
  Forall (fun d => 0 < d) s -> GetTotalSize s < 2 ^ 31 -> 0 <= total < 2 ^ 31 ->
  (total = GetTotalSize s -> ReshapeOp_shape total s = Ok s) /\
  (total <> GetTotalSize s -> is_Fatal (ReshapeOp_shape total s)).
Proof.
  intros Hpos HP HT.
  assert (Hscan : ReshapeOp_scan s = Ok (GetTotalSize s, -1, Z.of_nat (length s))).
  { unfold ReshapeOp_scan. change 1 with (to_int 1) at 1.
    rewrite scan_positive by (apply positive_fit; assumption).
    rewrite Z.mul_1_l, to_int_id; [reflexivity|].
    pose proof (GetTotalSize_pos s Hpos). unfold fits_int. lia. }
  pose proof (GetTotalSize_pos s Hpos) as HP0.
  unfold ReshapeOp_shape. rewrite Hscan, bind_Ok.
  rewrite to_int_id by (unfold fits_int; lia).
  split.
  - intros ->. rewrite Z.eqb_refl. reflexivity.
  - intros Hne. replace (total =? GetTotalSize s) with false
      by (symmetry; apply Z.eqb_neq; exact Hne).
    cbn [negb].
    destruct (GetTotalSize s <? total); [rewrite CHECK_true, bind_Ok|exact I].
    destruct (GetTotalSize s =? 0); cbn [negb]; [exact I|rewrite CHECK_true, bind_Ok].
    destruct (0 =? Z.rem total (GetTotalSize s)); [rewrite CHECK_true, bind_Ok|exact I].
    exact I.
Qed.

Lemma ReshapeOp_positive_target (a : Array) (s : list Z) :
  Forall (fun d => 0 < d) s -> GetTotalSize s < 2 ^ 31 ->
  0 <= GetTotalSize (shape a) < 2 ^ 31 ->
  (GetTotalSize (shape a) = GetTotalSize s ->
   ReshapeOp_RunImpl a s = Ok (MakeArray (dtype a) s (data a))) /\
  (GetTotalSize (shape a) <> GetTotalSize s -> is_Fatal (ReshapeOp_RunImpl a s)).
Proof.
  intros Hpos HP HT.
  destruct (ReshapeOp_shape_positive _ s Hpos HP HT) as [Heq Hne].
  unfold ReshapeOp_RunImpl. split.
  - intros E. rewrite (Heq E), bind_Ok. apply Reshape_size. symmetry. exact E.
  - intros E. apply is_Fatal_bind, Hne, E.
Qed.

(** X21: a target without placeholder is taken as it is when its size is
    that of the data, and refused otherwise. *)
Theorem ReshapeOp_without_placeholder (a : Array) (s : list Z) :
  Forall (fun d => 0 < d) s -> GetTotalSize s < 2 ^ 31 ->
  0 <= GetTotalSize (shape a) < 2 ^ 31 ->
  (GetTotalSize (shape a) = GetTotalSize s ->
   ReshapeOp_RunImpl a s = Ok (MakeArray (dtype a) s (data a))) /\
  (GetTotalSize (shape a) <> GetTotalSize s -> is_Fatal (ReshapeOp_RunImpl a s)).
Proof. exact (ReshapeOp_positive_target a s). Qed.

Lemma ReshapeOp_without_placeholder_witness :
  Forall (fun d => 0 < d) [3; 2] /\ GetTotalSize [3; 2] < 2 ^ 31 /\
  0 <= GetTotalSize (shape data_2x3) < 2 ^ 31 /\
  ReshapeOp_RunImpl data_2x3 [3; 2] = Ok (MakeArray kFloat32 [3; 2] (data data_2x3)) /\
  is_Fatal (ReshapeOp_RunImpl data_2x2 [3; 2]).
Proof.
  assert (H1 : Forall (fun d => 0 < d) [3; 2]) by (repeat constructor; lia).
  assert (H2 : GetTotalSize [3; 2] < 2 ^ 31) by (cbn; lia).
  assert (H3 : 0 <= GetTotalSize (shape data_2x3) < 2 ^ 31) by (cbn; lia).
  assert (H4 : 0 <= GetTotalSize (shape data_2x2) < 2 ^ 31) by (cbn; lia).
  split; [exact H1|]. split; [exact H2|]. split; [exact H3|]. split.
  - destruct (ReshapeOp_without_placeholder data_2x3 [3; 2] H1 H2 H3) as [Heq _].
    apply Heq. reflexivity.
  - destruct (ReshapeOp_without_placeholder data_2x2 [3; 2] H1 H2 H4) as [_ Hne].
    apply Hne. cbn. lia.
Defined.

(** X22: reshaping back to the shape one started from gives the operand
    back. *)
Theorem ReshapeOp_round_trip (a b : Array) (s : list Z) :
  Forall (fun d => 0 < d) (shape a) -> GetTotalSize (shape a) < 2 ^ 31 ->
  ReshapeOp_RunImpl a s = Ok b ->
  data b = data a /\ dtype b = dtype a /\
  GetTotalSize (shape b) = GetTotalSize (shape a) /\
  ReshapeOp_RunImpl b (shape a) = Ok a.
Proof.
  intros Hpos HT Hrun. unfold ReshapeOp_RunImpl in Hrun.
  apply bind_Ok_inv in Hrun as (s' & _ & Hre).
  apply Reshape_Ok_inv in Hre as (-> & Htot). cbn [data dtype shape].
  split; [reflexivity|]. split; [reflexivity|]. split; [exact Htot|].
  pose proof (GetTotalSize_pos _ Hpos) as HT0.
  destruct (ReshapeOp_positive_target (MakeArray (dtype a) s' (data a)) (shape a)
              Hpos HT) as [H _].
  { cbn [shape]. lia. }
  rewrite H by (cbn [shape]; exact Htot). cbn [dtype data]. destruct a; reflexivity.
Qed.

Lemma ReshapeOp_round_trip_witness :
  Forall (fun d => 0 < d) (shape data_2x3) /\ GetTotalSize (shape data_2x3) < 2 ^ 31 /\
  ReshapeOp_RunImpl data_2x3 [-1; 2] = Ok (MakeArray kFloat32 [3; 2] (data data_2x3)) /\
  ReshapeOp_RunImpl (MakeArray kFloat32 [3; 2] (data data_2x3)) (shape data_2x3)
    = Ok data_2x3.
Proof.
  assert (H1 : Forall (fun d => 0 < d) (shape data_2x3)) by (repeat constructor; lia).
  assert (H2 : GetTotalSize (shape data_2x3) < 2 ^ 31) by (cbn; lia).
  assert (H3 : ReshapeOp_RunImpl data_2x3 [-1; 2]
               = Ok (MakeArray kFloat32 [3; 2] (data data_2x3))) by reflexivity.
  split; [exact H1|]. split; [exact H2|]. split; [exact H3|].
  apply (ReshapeOp_round_trip data_2x3 _ [-1; 2] H1 H2 H3).
Defined.

(** X23: an array without elements cannot be reshaped. *)
Theorem ReshapeOp_empty_aborts (a : Array) (s : list Z) :
  GetTotalSize (shape a) = 0 ->
  GetTotalSize (positive_dims s) < 2 ^ 31 ->
  is_Fatal (ReshapeOp_RunImpl a s).
Proof.
  intros HT HP. unfold ReshapeOp_RunImpl. apply is_Fatal_bind.
  unfold ReshapeOp_shape. rewrite HT.
  destruct (ReshapeOp_scan s) as [[[to idx] i]|msg] eqn:Hscan; [|exact I].
  rewrite bind_Ok. cbn beta iota.
  unfold ReshapeOp_scan in Hscan. change 1 with (to_int 1) in Hscan.
  apply scan_spec in Hscan as (_ & Hto & _ & _).
  pose proof (GetTotalSize_pos _ (positive_dims_pos s)) as Hpos.
  rewrite Z.mul_1_l, to_int_id in Hto by (unfold fits_int; lia).
  change (to_int 0) with 0.
  replace (0 =? to) with false by (symmetry; apply Z.eqb_neq; lia). cbn [negb].
  replace (to <? 0) with false by (symmetry; apply Z.ltb_ge; lia). exact I.
Qed.

Lemma ReshapeOp_empty_aborts_witness :
  GetTotalSize (shape empty_data) = 0 /\ GetTotalSize (positive_dims [-1; 4]) < 2 ^ 31 /\
  is_Fatal (ReshapeOp_RunImpl empty_data [-1; 4]) /\
  is_Fatal (ReshapeOp_RunImpl empty_data [0]).
Proof.
  split; [reflexivity|]. split; [vm_compute; reflexivity|]. split.
  - apply (ReshapeOp_empty_aborts empty_data [-1; 4]); [reflexivity|vm_compute; reflexivity].
  - apply (ReshapeOp_empty_aborts empty_data [0]); [reflexivity|vm_compute; reflexivity].
Defined.

(** ** More on Unsqueeze *)

(** X24: Unsqueeze keeps the elements and their number, and adds one axis
    per entry of [axes]. *)
Theorem UnsqueezeOp_keeps_elements (axes : list Z) (a b : Array) :
  UnsqueezeOp_RunImpl axes a = Ok b ->
  data b = data a /\ dtype b = dtype a /\
  ndim b = (ndim a + length axes)%nat /\
  GetTotalSize (shape b) = GetTotalSize (shape a) /\
  (wf a -> wf b).
Proof.
  intros Hrun. unfold UnsqueezeOp_RunImpl in Hrun.
  apply bind_Ok_inv in Hrun as (sh & Hfold & Hre).
  apply Reshape_Ok_inv in Hre as (-> & Htot).
  destruct (Unsqueeze_fold_preserves axes _ _ Hfold) as (Hlen & _ & Hnn).
  cbn [data dtype shape]. unfold ndim. cbn [shape].
  split; [reflexivity|]. split; [reflexivity|]. split; [exact Hlen|].
  split; [exact Htot|]. intros [HF Hl]. split; [exact (Hnn HF)|]. cbn [data shape]. congruence.
Qed.

Lemma UnsqueezeOp_keeps_elements_witness :
  UnsqueezeOp_RunImpl [0; 3] data_2x3
    = Ok (MakeArray kFloat32 [1; 2; 3; 1] [1; 2; 3; 4; 5; 6]%Q) /\
  ndim (MakeArray kFloat32 [1; 2; 3; 1] [1; 2; 3; 4; 5; 6]%Q) = (ndim data_2x3 + 2)%nat /\
  GetTotalSize [1; 2; 3; 1] = GetTotalSize (shape data_2x3).
Proof.
  assert (H : UnsqueezeOp_RunImpl [0; 3] data_2x3
              = Ok (MakeArray kFloat32 [1; 2; 3; 1] [1; 2; 3; 4; 5; 6]%Q)) by reflexivity.
  destruct (UnsqueezeOp_keeps_elements [0; 3] data_2x3 _ H) as (_ & _ & H1 & H2 & _).
  split; [exact H|]. split; [exact H1|exact H2].
Defined.

(** ** More on Clip *)

(** X25: with the bounds crossed, every element becomes [max], on the
    arrays and bounds of [clip_exact]: a floating array, or a signed
    integer array with integer bounds strictly between [-L] and [L]. *)
Theorem ClipOp_crossed_bounds (lo hi : Q) (x : Array) (i : nat) (v : Q) :
  (hi < lo)%Q ->
  data x !! i = Some v ->
  clip_exact (dtype x) lo hi v ->
  exists r, data (ClipOp_RunImpl lo hi x) !! i = Some r /\ (r == hi)%Q.
Proof.
  intros Hcross Hv Hex.
  destruct (ClipOp_elem lo hi x i v Hv Hex) as (r & Hr & Er).
  exists r. split; [exact Hr|]. rewrite Er, Clip_elem.
  apply Q.min_r. apply Qlt_le_weak. eapply Qlt_le_trans; [exact Hcross|].
  apply Q.le_max_r.
Qed.

Lemma ClipOp_crossed_bounds_witness :
  (2 < 5)%Q /\ data int32_5 !! 0%nat = Some 5%Q /\
  clip_exact (dtype int32_5) 5 2 5 /\
  exists r, data (ClipOp_RunImpl 5 2 int32_5) !! 0%nat = Some r /\ (r == 2)%Q.
Proof.
  assert (Hex : clip_exact (dtype int32_5) 5 2 5) by (vm_compute; intuition congruence).
  split; [reflexivity|]. split; [reflexivity|]. split; [exact Hex|].
  apply (ClipOp_crossed_bounds 5 2 int32_5 0 5%Q); [reflexivity|reflexivity|exact Hex].
Defined.

(** ** Comparisons *)

Lemma broadcast_rev_comm ra : forall rb, broadcast_rev ra rb = broadcast_rev rb ra.
Proof.
  induction ra as [|x ra IH]; intros [|y rb]; try reflexivity.
  cbn [broadcast_rev]. rewrite (IH rb).
  destruct (broadcast_rev rb ra) as [r|]; [|reflexivity]. cbn.
  destruct (Z.eqb_spec x y) as [->|Hxy].
  - rewrite Z.eqb_refl. reflexivity.
  - destruct (Z.eqb_spec y x) as [->|_]; [congruence|].
    destruct (Z.eqb_spec x 1) as [->|Hx]; destruct (Z.eqb_spec y 1) as [->|Hy];
      reflexivity.
Qed.

Lemma BroadcastShapes_comm sa sb : BroadcastShapes sa sb = BroadcastShapes sb sa.
Proof. unfold BroadcastShapes. rewrite broadcast_rev_comm. reflexivity. Qed.

Lemma Q_of_bool_cases (b : bool) : Q_of_bool b = (if b then 1 else 0)%Q.
Proof. reflexivity. Qed.

(** X26: on arrays of a dtype that is not a floating one, and so has no
    NaN, GreaterEqual holds exactly where Greater or Equal holds. *)
Theorem GreaterEqualOp_is_Greater_or_Equal (a b ge : Array) :
  ~ is_float (dtype a) -> ~ is_float (dtype b) ->
  GreaterEqualOp_RunImpl a b = Ok ge ->
  exists g e,
    GreaterOp_RunImpl a b = Ok g /\ EqualOp_RunImpl a b = Ok e /\
    shape g = shape ge /\ shape e = shape ge /\ dtype ge = kBool /\
    forall i x,
      data ge !! i = Some x ->
      exists y z,
        data g !! i = Some y /\ data e !! i = Some z /\
        ((x = 1%Q /\ (y = 1%Q \/ z = 1%Q)) \/ (x = 0%Q /\ y = 0%Q /\ z = 0%Q)).
Proof.
  intros _ _.
  unfold GreaterEqualOp_RunImpl, GreaterOp_RunImpl, EqualOp_RunImpl.
  unfold Greater, Equal, broadcast_compare, broadcast_binary.
  rewrite (BroadcastShapes_comm (shape b) (shape a)).
  destruct (BroadcastShapes (shape a) (shape b)) as [s|]; [|discriminate].
  rewrite !bind_Ok. intros H. injection H as <-.
  eexists _, _. split; [reflexivity|]. split; [reflexivity|].
  cbn [shape data dtype LogicalNot].
  split; [reflexivity|]. split; [reflexivity|]. split; [reflexivity|].
  intros i x Hx. rewrite !list_lookup_fmap in *.
  destruct (all_indices s !! i) as [idx|]; [|discriminate]. cbn in *.
  injection Hx as <-. eexists _, _. split; [reflexivity|]. split; [reflexivity|].
  set (u := elem (data a) _). set (v := elem (data b) _).
  destruct (Qle_bool v u) eqn:E1; destruct (Qle_bool u v) eqn:E2;
    destruct (Qeq_bool u v) eqn:E3; cbn; auto.
  - exfalso. apply Qle_bool_iff in E1, E2.
    assert (Qeq_bool u v = true); [|congruence].
    apply Qeq_bool_iff, Qle_antisym; assumption.
  - exfalso. apply Qeq_bool_iff in E3.
    assert (Qle_bool v u = true); [|congruence].
    apply Qle_bool_iff. rewrite E3. apply Qle_refl.
  - exfalso. apply Qeq_bool_iff in E3.
    assert (Qle_bool v u = true); [|congruence].
    apply Qle_bool_iff. rewrite E3. apply Qle_refl.
  - exfalso.
    assert (Qle_bool v u = true); [|congruence].
    apply Qle_bool_iff, Qlt_le_weak, Qnot_le_lt. intros H.
    apply Qle_bool_iff in H. congruence.
Qed.

Lemma GreaterEqualOp_is_Greater_or_Equal_witness :
  ~ is_float (dtype int32_3) /\ ~ is_float (dtype int32_3') /\
  GreaterEqualOp_RunImpl int32_3 int32_3' = Ok (MakeArray kBool [3] [0; 1; 0]%Q) /\
  GreaterOp_RunImpl int32_3 int32_3' = Ok (MakeArray kBool [3] [0; 0; 0]%Q) /\
  EqualOp_RunImpl int32_3 int32_3' = Ok (MakeArray kBool [3] [0; 1; 0]%Q).
Proof.
  assert (Hn : ~ is_float kInt32) by (intros [H|H]; discriminate).
  assert (H : GreaterEqualOp_RunImpl int32_3 int32_3'
              = Ok (MakeArray kBool [3] [0; 1; 0]%Q)) by (vm_compute; reflexivity).
  split; [exact Hn|]. split; [exact Hn|]. split; [exact H|].
  destruct (GreaterEqualOp_is_Greater_or_Equal int32_3 int32_3' _ Hn Hn H)
    as (g & e & Hg & He & _).
  assert (Eg : g = MakeArray kBool [3] [0; 0; 0]%Q)
    by (vm_compute in Hg; injection Hg as <-; reflexivity).
  assert (Ee : e = MakeArray kBool [3] [0; 1; 0]%Q)
    by (vm_compute in He; injection He as <-; reflexivity).
  rewrite Eg in Hg. rewrite Ee in He. split; [exact Hg|exact He].
Defined.

(** ** Gemm on matrices *)







(** ** ArgMax *)

Lemma mask_single (n k : nat) :
  (k < n)%nat ->
  (fun i => bool_decide (i ∈ [Z.of_nat k])) <$> seqZ 0 (Z.of_nat n)
  = replicate k false ++ true :: replicate (n - k - 1) false.
Proof.
  intros H. apply list_eq. intros i. rewrite list_lookup_fmap.
  destruct (decide (i < n)%nat) as [Hi|Hi].
  - rewrite (proj2 (lookup_seqZ 0 _ i (Z.of_nat i))) by lia. cbn.
    destruct (Nat.lt_trichotomy i k) as [Hlt|[->|Hgt]].
    + rewrite lookup_app_l by (rewrite length_replicate; lia).
      rewrite lookup_replicate_2 by lia. f_equal. apply bool_decide_eq_false_2.
      rewrite list_elem_of_singleton. lia.
    + rewrite lookup_app_r by (rewrite length_replicate; lia).
      rewrite length_replicate, Nat.sub_diag. cbn. f_equal. apply bool_decide_eq_true_2.
      apply list_elem_of_singleton. reflexivity.
    + rewrite lookup_app_r by (rewrite length_replicate; lia).
      rewrite length_replicate, lookup_cons_ne_0 by lia.
      rewrite lookup_replicate_2 by lia. f_equal. apply bool_decide_eq_false_2.
      rewrite list_elem_of_singleton. lia.
  - destruct (seqZ 0 (Z.of_nat n) !! i) as [p|] eqn:Ep;
      [apply lookup_seqZ in Ep; lia|]. cbn. symmetry. apply lookup_ge_None.
    rewrite length_app. cbn [length]. rewrite !length_replicate. lia.
Qed.

Lemma select_single (pre post : list Z) (d : Z) :
  select true (replicate (length pre) false ++ true :: replicate (length post) false)
         (pre ++ d :: post) = [d] /\
  select false (replicate (length pre) false ++ true :: replicate (length post) false)
         (pre ++ d :: post) = pre ++ post.
Proof.
  induction pre as [|x pre [IH1 IH2]].
  - cbn [length replicate app select Bool.eqb]. split.
    + f_equal. induction post as [|y post IH]; [reflexivity|]. cbn. exact IH.
    + induction post as [|y post IH]; [reflexivity|]. cbn. rewrite IH. reflexivity.
  - cbn [length replicate app select Bool.eqb]. rewrite IH1, IH2. split; reflexivity.
Qed.

Lemma merge_single (k m : nat) (op oq : list Z) (j : Z) :
  length op = k -> length oq = m ->
  merge (replicate k false ++ true :: replicate m false) (op ++ oq) [j] = op ++ j :: oq.
Proof.
  revert op. induction k as [|k IH]; intros op Hop Hoq.
  - destruct op; [|discriminate]. cbn [replicate app merge head tail default]. f_equal.
    clear Hop. revert oq Hoq. induction m as [|m IHm]; intros oq Hoq.
    + destruct oq; [reflexivity|discriminate].
    + destruct oq as [|x oq]; [discriminate|]. cbn.
      rewrite IHm by (cbn in Hoq; lia). reflexivity.
  - destruct op as [|x op]; [discriminate|]. cbn. rewrite IH by (cbn in Hop; lia).
    reflexivity.
Qed.

Lemma in_range_app s1 s2 i1 i2 :
  in_range s1 i1 -> in_range s2 i2 -> in_range (s1 ++ s2) (i1 ++ i2).
Proof. unfold in_range. apply Forall2_app. Qed.

(** X28: ArgMaxOp gives, for each position over the other axes, the
    position of a greatest element along [axis]; with [keepdims] the axis
    stays, with size 1. *)
Theorem ArgMaxOp_points_at_greatest (keepdims : bool) (x : Array) (pre post : list Z)
    (d : Z) :
  wf x -> shape x = pre ++ d :: post -> 0 < d -> Z.of_nat (ndim x) <= 2 ^ 7 ->
  exists r,
    ArgMaxOp_RunImpl (Z.of_nat (length pre)) keepdims x = Ok r /\
    dtype r = kInt64 /\
    shape r = (if keepdims then pre ++ 1 :: post else pre ++ post) /\
    forall op oq, in_range pre op -> in_range post oq ->
      exists m, 0 <= m < d /\
        data r !! Z.to_nat (lin (pre ++ post) (op ++ oq)) = Some (inject_Z m) /\
        forall j, 0 <= j < d ->
          (elem (data x) (lin (shape x) (op ++ j :: oq))
           <= elem (data x) (lin (shape x) (op ++ m :: oq)))%Q.
Proof.
  intros Hwf Hs Hd Hn. pose proof Hwf as [HF Hl].
  set (k := length pre).
  assert (Hk : (k < ndim x)%nat)
    by (unfold ndim, k; rewrite Hs, length_app; cbn [length]; lia).
  assert (Hint8 : to_int8 (Z.of_nat k) = Z.of_nat k) by (apply to_int8_small; lia).
  assert (Hsorted : GetSortedAxes (Some [Z.of_nat k]) (ndim x) = Ok [Z.of_nat k]).
  { unfold GetSortedAxes. cbn [mapM_result].
    rewrite NormalizeAxis_in_range by lia. rewrite !bind_Ok.
    rewrite bool_decide_eq_true_2 by (apply NoDup_singleton). reflexivity. }
  set (mask := replicate k false ++ true :: replicate (length post) false).
  assert (Hmask : reduce_mask x [Z.of_nat k] = mask).
  { unfold reduce_mask. rewrite mask_single by exact Hk. unfold mask, ndim.
    rewrite Hs, length_app. cbn [length]. fold k. do 3 f_equal. lia. }
  destruct (select_single pre post d) as [Hsel1 Hsel0]. fold k mask in Hsel1, Hsel0.
  assert (HFpp : Forall (Z.le 0) (pre ++ post)).
  { rewrite Hs in HF. apply Forall_app in HF as [H1 H2]. apply Forall_cons in H2.
    apply Forall_app. split; [exact H1|apply H2]. }
  set (rows := fun o : list Z =>
                 (fun rr => elem (data x) (lin (shape x) (merge mask o rr)))
                   <$> all_indices [d]).
  assert (Hrun : ArgMax x (Some [to_int8 (Z.of_nat k)]) =
                 Ok (MakeArray kInt64 (pre ++ post)
                       ((fun o => inject_Z (argmax_list (rows o)))
                          <$> all_indices (pre ++ post)))).
  { assert (E1 : select true mask (shape x) = [d]) by (rewrite Hs; exact Hsel1).
    assert (E0 : select false mask (shape x) = pre ++ post) by (rewrite Hs; exact Hsel0).
    unfold ArgMax. rewrite Hint8, Hsorted, bind_Ok, Hmask, E1. cbn [forallb andb].
    replace (negb (d =? 0)) with true by (symmetry; apply negb_true_iff, Z.eqb_neq; lia).
    rewrite CHECK_true, bind_Ok. unfold reduce. rewrite Hmask, E0, E1.
    reflexivity. }
  assert (Hrows : forall op oq, in_range pre op -> in_range post oq ->
            exists m, 0 <= m < d /\ argmax_list (rows (op ++ oq)) = m /\
              forall j, 0 <= j < d ->
                (elem (data x) (lin (shape x) (op ++ j :: oq))
                 <= elem (data x) (lin (shape x) (op ++ m :: oq)))%Q).
  { intros op oq Hop Hoq.
    assert (Hrow : forall j, 0 <= j < d ->
              rows (op ++ oq) !! Z.to_nat j
              = Some (elem (data x) (lin (shape x) (op ++ j :: oq)))).
    { intros j Hj. unfold rows. rewrite list_lookup_fmap.
      replace (Z.to_nat j) with (Z.to_nat (lin [d] [j])) by (cbn; lia).
      rewrite all_indices_lookup by (apply in_range_1; lia). cbn.
      unfold mask. rewrite merge_single;
        [reflexivity|apply in_range_length, Hop|apply in_range_length, Hoq]. }
    assert (Hlen : length (rows (op ++ oq)) = Z.to_nat d).
    { unfold rows. rewrite length_fmap, length_all_indices by (repeat constructor; lia).
      cbn. f_equal. lia. }
    destruct (argmax_list_spec (rows (op ++ oq))) as (v & Hv & Hb & Hall).
    { intros E. rewrite E in Hlen. cbn [length] in Hlen. lia. }
    rewrite Hlen in Hb. exists (argmax_list (rows (op ++ oq))).
    split; [lia|]. split; [reflexivity|]. intros j Hj.
    rewrite Hrow in Hv by lia. injection Hv as <-.
    rewrite Forall_forall in Hall. apply Hall.
    apply (list_elem_of_lookup_2 _ (Z.to_nat j)), Hrow, Hj. }
  assert (Helems : forall op oq, in_range pre op -> in_range post oq ->
            exists m, 0 <= m < d /\
              ((fun o => inject_Z (argmax_list (rows o))) <$> all_indices (pre ++ post))
                !! Z.to_nat (lin (pre ++ post) (op ++ oq)) = Some (inject_Z m) /\
              forall j, 0 <= j < d ->
                (elem (data x) (lin (shape x) (op ++ j :: oq))
                 <= elem (data x) (lin (shape x) (op ++ m :: oq)))%Q).
  { intros op oq Hop Hoq. destruct (Hrows op oq Hop Hoq) as (m & Hm & Ham & Hmax).
    exists m. split; [exact Hm|]. split; [|exact Hmax].
    rewrite list_lookup_fmap, all_indices_lookup by (apply in_range_app; assumption).
    cbn [fmap option_fmap option_map]. rewrite Ham. reflexivity. }
  unfold ArgMaxOp_RunImpl. fold k. rewrite Hrun, bind_Ok.
  destruct keepdims.
  - replace ((0 <=? Z.of_nat k) && (Z.of_nat k <? Z.of_nat (ndim x))) with true
      by (symmetry; apply andb_true_iff; split; [apply Z.leb_le|apply Z.ltb_lt]; lia).
    rewrite CHECK_true, bind_Ok, Nat2Z.id.
    replace (<[k := 1]> (shape x)) with (pre ++ 1 :: post)
      by (rewrite Hs; unfold k; symmetry; apply insert_middle).
    unfold Reshape. cbn [shape data dtype].
    replace (GetTotalSize (pre ++ 1 :: post) =? GetTotalSize (pre ++ post)) with true.
    2:{ symmetry. apply Z.eqb_eq. rewrite !GetTotalSize_app, GetTotalSize_cons. lia. }
    eexists. split; [reflexivity|]. cbn [shape data dtype].
    split; [reflexivity|]. split; [reflexivity|]. exact Helems.
  - eexists. split; [reflexivity|]. cbn [shape data dtype].
    split; [reflexivity|]. split; [reflexivity|]. exact Helems.
Qed.

Lemma ArgMaxOp_points_at_greatest_witness :
  ArgMaxOp_RunImpl 1 true (MakeArray kFloat32 [2; 3] [1; 5; 3; 4; 4; -6]%Q)
    = Ok (MakeArray kInt64 [2; 1] [1; 0]%Q) /\
  ArgMaxOp_RunImpl 0 false (MakeArray kFloat32 [2; 3] [1; 5; 3; 4; 4; -6]%Q)
    = Ok (MakeArray kInt64 [3] [1; 0; 0]%Q).
Proof.
  assert (H : wf (MakeArray kFloat32 [2; 3] [1; 5; 3; 4; 4; -6]%Q))
    by (split; [repeat constructor; lia|reflexivity]).
  split.
  - destruct (ArgMaxOp_points_at_greatest true _ [2] [] 3 H eq_refl)
      as (r & Hr & _); [lia|unfold ndim; simpl; lia|].
    assert (E : r = MakeArray kInt64 [2; 1] [1; 0]%Q)
      by (vm_compute in Hr; injection Hr as <-; reflexivity).
    rewrite E in Hr. exact Hr.
  - destruct (ArgMaxOp_points_at_greatest false _ [] [3] 2 H eq_refl)
      as (r & Hr & _); [lia|unfold ndim; simpl; lia|].
    assert (E : r = MakeArray kInt64 [3] [1; 0; 0]%Q)
      by (vm_compute in Hr; injection Hr as <-; reflexivity).
    rewrite E in Hr. exact Hr.
Defined.
